(** * Word/Excel batch replacement: the substitution engine of [app/main.py]

    A shallow embedding of the functions of [src/app/main.py] that carry the
    algorithmic content of the tool: [clean_text], [clean_filename],
    [precompute_replace_patterns], [process_paragraph],
    [replace_word_with_format], [get_replace_params], [fix_float_precision],
    [init_session_state], the row loop of the "开始替换" button, the buttons
    that edit the rule list and the paging of the download area.

    Python values are modelled as follows.
    - [str] is a list of Unicode code points ([Z]); literals are written
      [py "..."] and decoded from UTF-8.
    - [int] is [Z]; [str] of an [int] is refused beyond the default limit of
      4300 digits.
    - [decimal.Decimal] is a sign, a coefficient and an exponent, with the
      default context (28 digits, ROUND_HALF_EVEN) written out.
    - [float] is an IEEE 754 binary64 value given by sign, integral
      significand and binary exponent; every operation rounds the exact
      result to nearest, ties to even.
    - An exception is the [Raise] case of [result]; [try/except] is a match.
    - The Unicode character database (whitespace, digits, lower-casing, NFKC)
      is not part of the repository: it is the class [Unicode], whose laws fix
      the tables on ASCII only. *)

From Stdlib Require Import ZArith List Bool String Ascii Lia.
Import ListNotations.
Local Open Scope Z_scope.

(** ** Exceptions *)

Inductive exn : Type :=
| InvalidOperation            (* decimal.InvalidOperation *)
| ValueError                  (* a malformed literal; str() of a long int *)
| IndexError                  (* list or iloc index out of range *)
| KeyError (key : list Z)     (* a Series has no such label *)
| Overflow                    (* decimal.Overflow *)
| PackageError.               (* python-docx cannot open the template *)

Inductive result (A : Type) : Type :=
| Ok (a : A)
| Raise (e : exn).
Arguments Ok {A} a.
Arguments Raise {A} e.

Definition bind {A B : Type} (r : result A) (k : A -> result B) : result B :=
  match r with
  | Ok a => k a
  | Raise e => Raise e
  end.

Notation "x <- r ;; k" := (bind r (fun x => k))
  (at level 61, r at next level, right associativity).

(** ** Strings *)

Module PyStr.

Abbreviation char := Z (only parsing).
Abbreviation str := (list Z) (only parsing).

(** UTF-8 decoding, used only to write literals. *)
Fixpoint utf8_go (acc : Z) (k : nat) (bs : list Z) : str :=
  match bs with
  | [] => []
  | b :: bs' =>
      match k with
      | O =>
          if b <? 128 then b :: utf8_go 0 0 bs'
          else if b <? 224 then utf8_go (b - 192) 1 bs'
          else if b <? 240 then utf8_go (b - 224) 2 bs'
          else utf8_go (b - 240) 3 bs'
      | S O => (acc * 64 + (b - 128)) :: utf8_go 0 0 bs'
      | S k' => utf8_go (acc * 64 + (b - 128)) k' bs'
      end
  end.

Definition py (s : string) : str :=
  utf8_go 0 0 (map (fun a => Z.of_nat (nat_of_ascii a)) (list_ascii_of_string s)).

Fixpoint eqb (a b : str) : bool :=
  match a, b with
  | [], [] => true
  | x :: a', y :: b' => (x =? y) && eqb a' b'
  | _, _ => false
  end.

(** [s.startswith(p)] *)
Fixpoint startswith (p s : str) : bool :=
  match p, s with
  | [], _ => true
  | x :: p', y :: s' => (x =? y) && startswith p' s'
  | _ :: _, [] => false
  end.

(** [s.endswith(p)] *)
Definition endswith (p s : str) : bool := startswith (rev p) (rev s).

(** [p in s] *)
Fixpoint contains (p s : str) : bool :=
  startswith p s || match s with
                    | [] => false
                    | _ :: s' => contains p s'
                    end.

(** [s.replace(old, new)], for a non-empty [old]: [skip] counts the characters
    of a match that are still to be dropped. *)
Fixpoint replace_go (old new : str) (skip : nat) (s : str) : str :=
  match s with
  | [] => []
  | c :: s' =>
      match skip with
      | S k => replace_go old new k s'
      | O =>
          if startswith old s
          then new ++ replace_go old new (pred (List.length old)) s'
          else c :: replace_go old new O s'
      end
  end.

(** [s.replace(old, new)]; an empty [old] matches before every character and
    at the end. *)
Definition replace (old new s : str) : str :=
  match old with
  | [] => flat_map (fun c => new ++ [c]) s ++ new
  | _ :: _ => replace_go old new O s
  end.

Fixpoint lstrip_by (f : char -> bool) (s : str) : str :=
  match s with
  | [] => []
  | c :: s' => if f c then lstrip_by f s' else s
  end.

Definition rstrip_by (f : char -> bool) (s : str) : str :=
  rev (lstrip_by f (rev s)).

Definition strip_by (f : char -> bool) (s : str) : str :=
  rstrip_by f (lstrip_by f s).

(** [s.rstrip(c)] for a one-character argument. *)
Definition rstrip_char (c : char) (s : str) : str := rstrip_by (Z.eqb c) s.

(** [s.split(sep)] for a one-character separator. *)
Fixpoint split (sep : char) (s : str) : list str :=
  match s with
  | [] => [[]]
  | c :: s' =>
      if c =? sep then [] :: split sep s'
      else match split sep s' with
           | w :: ws => (c :: w) :: ws
           | [] => [[c]]
           end
  end.

(** [sep.join(parts)] *)
Fixpoint join (sep : str) (parts : list str) : str :=
  match parts with
  | [] => []
  | [p] => p
  | p :: ps => p ++ sep ++ join sep ps
  end.

Definition has_char (c : char) (s : str) : bool := existsb (Z.eqb c) s.

End PyStr.
Import PyStr.

(** ** The Unicode tables *)

(** Whitespace among the ASCII characters: TAB, LF, VT, FF, CR, FS, GS, RS, US
    and SPACE. *)
Definition ascii_isspace (c : char) : bool :=
  ((9 <=? c) && (c <=? 13)) || ((28 <=? c) && (c <=? 32)).

Definition ascii_isdigit (c : char) : bool := (48 <=? c) && (c <=? 57).

Definition is_ascii (c : char) : Prop := 0 <= c < 128.

(** What the interpreter's character database provides.
    - [isspace]: [Py_UNICODE_ISSPACE], used by [str.strip] and regex [\s];
    - [isdigit]: [Py_UNICODE_ISDIGIT], used by [str.isdigit];
    - [todecimal]: [Py_UNICODE_TODECIMAL], the value of a member of category
      Nd, used by regex [\d], [Decimal()] and [float()];
    - [lower]: [str.lower];
    - [nfkc]: [unicodedata.normalize("NFKC", _)]. *)
Class Unicode : Type := {
  isspace : char -> bool;
  isdigit : char -> bool;
  todecimal : char -> option Z;
  lower : str -> str;
  nfkc : str -> str;
  isspace_ascii : forall c, is_ascii c -> isspace c = ascii_isspace c;
  isdigit_ascii : forall c, is_ascii c -> isdigit c = ascii_isdigit c;
  todecimal_ascii : forall c, is_ascii c ->
    todecimal c = if ascii_isdigit c then Some (c - 48) else None;
  todecimal_range : forall c d, todecimal c = Some d -> 0 <= d <= 9;
  space_not_decimal : forall c, isspace c = true -> todecimal c = None
}.

(** ** Integers as text *)

(** The decimal digits of a non-negative integer, most significant first.
    The fuel exceeds the number of digits. *)
Fixpoint digits_fuel (fuel : nat) (n : Z) (acc : list Z) : list Z :=
  match fuel with
  | O => acc
  | S f =>
      if n <? 10 then n :: acc
      else digits_fuel f (n / 10) (n mod 10 :: acc)
  end.

Definition digits (n : Z) : list Z :=
  digits_fuel (S (Z.to_nat (Z.log2 n))) n [].

Definition digit_char (d : Z) : char := 48 + d.

(** The decimal numeral of an [int]: [str(n)] for a row number or a count,
    which stay far below the limit of [str_int]. *)
Definition str_of_int (n : Z) : str :=
  (if n <? 0 then [45] else []) ++ map digit_char (digits (Z.abs n)).

(** The value of a list of digits, most significant first. *)
Definition digits_value (ds : list Z) : Z :=
  fold_left (fun a d => 10 * a + d) ds 0.

(** [range(a, b)] *)
Definition zrange (a b : Z) : list Z :=
  map (fun k => a + Z.of_nat k) (seq 0 (Z.to_nat (b - a))).

(** ** Text cleaning *)

Section Cleaning.
Context {U : Unicode}.

(** The regex class of NBSP and U+2002..U+200B. *)
Definition is_special_space (c : char) : bool :=
  (c =? 160) || ((8194 <=? c) && (c <=? 8203)).

(** [re.sub(r'\s+', ' ', s)]: [in_run] tells that the previous character was
    whitespace already replaced. *)
Fixpoint collapse_spaces (in_run : bool) (s : str) : str :=
  match s with
  | [] => []
  | c :: s' =>
      if isspace c
      then (if in_run then collapse_spaces true s'
            else 32 :: collapse_spaces true s')
      else c :: collapse_spaces false s'
  end.

Definition clean_text (text : str) : str :=
  let text := strip_by isspace text in
  let text := nfkc text in
  let text := map (fun c => if is_special_space c then 32 else c) text in
  collapse_spaces false text.

End Cleaning.

(** The nine characters Windows forbids in a file name: backslash, slash,
    colon, star, question mark, double quote, angle brackets and bar. *)
Definition is_illegal_filename_char (c : char) : bool :=
  existsb (Z.eqb c) [92; 47; 58; 42; 63; 34; 60; 62; 124].

Definition clean_filename (filename : str) : str :=
  map (fun c => if is_illegal_filename_char c then 95 else c) filename.

(** ** Rows of the sheet *)

(** A row of the sheet as [excel_df.iloc[i]] returns it: a [pd.Series] from
    column label to cell text (the sheet is read with [dtype=str]). *)
Definition Series := list (str * str).

Fixpoint series_find (col : str) (row : Series) : option str :=
  match row with
  | [] => None
  | (k, v) :: row' => if eqb k col then Some v else series_find col row'
  end.

(** [excel_row[col]] *)
Definition series_get (row : Series) (col : str) : result str :=
  match series_find col row with
  | Some v => Ok v
  | None => Raise (KeyError col)
  end.

(** [col in excel_row] *)
Definition series_has (row : Series) (col : str) : bool :=
  match series_find col row with
  | Some _ => true
  | None => false
  end.

(** The frame is the list of its rows; pandas gives every row the labels of
    the frame, which nothing below relies on. *)
Definition DataFrame := list Series.

(** [excel_df.iloc[i]], with Python's negative indices. *)
Definition iloc (df : DataFrame) (i : Z) : result Series :=
  let n := Z.of_nat (List.length df) in
  let j := if i <? 0 then i + n else i in
  if (0 <=? j) && (j <? n)
  then match nth_error df (Z.to_nat j) with
       | Some row => Ok row
       | None => Raise IndexError
       end
  else Raise IndexError.

(** ** Rules and compiled patterns *)

(** A rule is (keyword, column); a pattern is
    (keyword, column, cleaned keyword, replacement). *)
Definition rule := (str * str)%type.
Definition pattern := (str * str * str * str)%type.

Definition pat_rule (p : pattern) : rule :=
  let '(old_text, col_name, _, _) := p in (old_text, col_name).
Definition pat_key (p : pattern) : str :=
  let '(_, _, format_keyword, _) := p in format_keyword.
Definition pat_repl (p : pattern) : str :=
  let '(_, _, _, replacement) := p in replacement.

(** The two values of the "替换范围" radio button. *)
Definition scope_full : str := py "替换完整关键词".
Definition scope_bracket : str := py "仅替换括号内内容".

Section Patterns.
Context {U : Unicode}.

(** One iteration of the loop of [precompute_replace_patterns]. *)
Definition compile_rule (replace_scope : str) (excel_row : Series) (r : rule)
  : result pattern :=
  let '(old_text, col_name) := r in
  replacement <- series_get excel_row col_name ;;
  let cleaned_text := clean_text old_text in
  if eqb replace_scope scope_bracket then
    if startswith (py "【") cleaned_text && endswith (py "】") cleaned_text then
      Ok (old_text, col_name, cleaned_text, py "【" ++ replacement ++ py "】")
    else if startswith (py "（") cleaned_text && endswith (py "）") cleaned_text then
      Ok (old_text, col_name, cleaned_text, py "（" ++ replacement ++ py "）")
    else if startswith (py "(") cleaned_text && endswith (py ")") cleaned_text then
      Ok (old_text, col_name, cleaned_text, py "(" ++ replacement ++ py ")")
    else if startswith (py "〔") cleaned_text && endswith (py "〕") cleaned_text then
      Ok (old_text, col_name, cleaned_text, py "〔" ++ replacement ++ py "〕")
    else
      Ok (old_text, col_name, cleaned_text, replacement)
  else
    Ok (old_text, col_name, cleaned_text, replacement).

Fixpoint precompute_replace_patterns (replace_scope : str)
    (replace_rules : list rule) (excel_row : Series) : result (list pattern) :=
  match replace_rules with
  | [] => Ok []
  | r :: rules =>
      p <- compile_rule replace_scope excel_row r ;;
      ps <- precompute_replace_patterns replace_scope rules excel_row ;;
      Ok (p :: ps)
  end.

End Patterns.

(** ** Paragraphs *)

(** [defaultdict(int)] keyed by rule, in insertion order. *)
Definition counts := list (rule * Z).

Definition rule_eqb (a b : rule) : bool :=
  eqb (fst a) (fst b) && eqb (snd a) (snd b).

Fixpoint count_of (k : rule) (d : counts) : Z :=
  match d with
  | [] => 0
  | (k', n) :: d' => if rule_eqb k' k then n else count_of k d'
  end.

(** [d[k] += n] *)
Fixpoint count_add (k : rule) (n : Z) (d : counts) : counts :=
  match d with
  | [] => [(k, 0 + n)]
  | (k', m) :: d' =>
      if rule_eqb k' k then (k', m + n) :: d'
      else (k', m) :: count_add k n d'
  end.

(** [for key, count in para_count.items(): replace_count[key] += count] *)
Definition counts_merge (replace_count para_count : counts) : counts :=
  fold_left (fun d kc => count_add (fst kc) (snd kc) d) para_count replace_count.

Section Document.
Context {U : Unicode}.
(** The formatting of a run is opaque to the tool. *)
Variable Style : Type.

Record Run : Type := mkRun { run_text : str; run_style : Style }.

(** A paragraph is the list [paragraph.runs]. *)
Definition Paragraph := list Run.

(** [paragraph.text] *)
Definition paragraph_text (p : Paragraph) : str :=
  List.concat (map run_text p).

Definition set_text (t : str) (r : Run) : Run := mkRun t (run_style r).

(** The replacement loop of [process_paragraph]: the working text and the
    counters after the patterns [ps]. *)
Fixpoint apply_patterns (cleaned_para : str) (ps : list pattern)
    (new_text : str) (replace_count : counts) : str * counts :=
  match ps with
  | [] => (new_text, replace_count)
  | p :: ps' =>
      if contains (pat_key p) cleaned_para
      then apply_patterns cleaned_para ps'
             (replace (pat_key p) (pat_repl p) new_text)
             (count_add (pat_rule p) 1 replace_count)
      else apply_patterns cleaned_para ps' new_text replace_count
  end.

(** [process_paragraph]: the paragraph after the in-place update, and the
    returned counters. *)
Definition process_paragraph (paragraph : Paragraph)
    (replace_patterns : list pattern) : Paragraph * counts :=
  let para_text := paragraph_text paragraph in
  let cleaned_para := clean_text para_text in
  let has_keyword :=
    existsb (fun p => contains (pat_key p) cleaned_para) replace_patterns in
  if has_keyword then
    let '(new_text, replace_count) :=
      apply_patterns cleaned_para replace_patterns para_text [] in
    match paragraph with
    | first :: others =>
        (set_text new_text first :: map (set_text []) others, replace_count)
    | [] => ([], replace_count)
    end
  else (paragraph, []).

(** ** Documents *)

Definition Cell := list Paragraph.
Definition TableRow := list Cell.
Definition Table := list TableRow.

Record Document : Type := mkDocument {
  paragraphs : list Paragraph;
  tables : list Table
}.

(** A loop over paragraphs that updates each one and adds its counters to
    [replace_count]. *)
Fixpoint process_paragraphs (ps : list Paragraph) (pats : list pattern)
    (replace_count : counts) : list Paragraph * counts :=
  match ps with
  | [] => ([], replace_count)
  | p :: ps' =>
      let '(p', para_count) := process_paragraph p pats in
      let '(ps'', c) :=
        process_paragraphs ps' pats (counts_merge replace_count para_count) in
      (p' :: ps'', c)
  end.

Fixpoint process_cells (cs : list Cell) (pats : list pattern)
    (replace_count : counts) : list Cell * counts :=
  match cs with
  | [] => ([], replace_count)
  | c :: cs' =>
      let '(c', n) := process_paragraphs c pats replace_count in
      let '(cs'', n') := process_cells cs' pats n in
      (c' :: cs'', n')
  end.

Fixpoint process_rows (rs : list TableRow) (pats : list pattern)
    (replace_count : counts) : list TableRow * counts :=
  match rs with
  | [] => ([], replace_count)
  | r :: rs' =>
      let '(r', n) := process_cells r pats replace_count in
      let '(rs'', n') := process_rows rs' pats n in
      (r' :: rs'', n')
  end.

Fixpoint process_tables (ts : list Table) (pats : list pattern)
    (replace_count : counts) : list Table * counts :=
  match ts with
  | [] => ([], replace_count)
  | t :: ts' =>
      let '(t', n) := process_rows t pats replace_count in
      let '(ts'', n') := process_tables ts' pats n in
      (t' :: ts'', n')
  end.

Definition bytes := list Z.

(** An uploaded file: [word_file.name] and [word_file.getvalue()]. *)
Record UploadedFile : Type := mkUploaded {
  file_name : str;
  getvalue : bytes
}.

(** python-docx: [Document(io.BytesIO(b))] and [doc.save]. *)
Variable open_document : bytes -> result Document.
Variable save_document : Document -> bytes.
(** [str(e)], a newline and [traceback.format_exc()]. *)
Variable exn_text : exn -> str.

Definition log_not_found : str := py "未找到需要替换的关键字".
Definition log_failed : str := py "替换失败: ".

(** One line of the success log. *)
Definition log_line (excel_row : Series) (kc : rule * Z) : result str :=
  let '((old, col_name), count) := kc in
  v <- series_get excel_row col_name ;;
  Ok (py "替换成功: " ++ old ++ py " -> " ++ v ++ py " (" ++ str_of_int count
        ++ py "次)").

Fixpoint log_lines (excel_row : Series) (d : counts) : result (list str) :=
  match d with
  | [] => Ok []
  | kc :: d' =>
      l <- log_line excel_row kc ;;
      ls <- log_lines excel_row d' ;;
      Ok (l :: ls)
  end.

(** The body of the [try] of [replace_word_with_format]. *)
Definition replace_word_body (replace_scope : str) (word_file : UploadedFile)
    (excel_row : Series) (replace_rules : list rule) : result (bytes * str) :=
  doc <- open_document (getvalue word_file) ;;
  replace_patterns <-
    precompute_replace_patterns replace_scope replace_rules excel_row ;;
  let '(ps, n1) := process_paragraphs (paragraphs doc) replace_patterns [] in
  let '(ts, replace_count) := process_tables (tables doc) replace_patterns n1 in
  let output_file := save_document (mkDocument ps ts) in
  replace_log <-
    match replace_count with
    | [] => Ok log_not_found
    | _ :: _ =>
        ls <- log_lines excel_row replace_count ;;
        Ok (join [10] ls)
    end ;;
  Ok (output_file, replace_log).

Definition replace_word_with_format (replace_scope : str)
    (word_file : UploadedFile) (excel_row : Series)
    (replace_rules : list rule) : bytes * str :=
  match replace_word_body replace_scope word_file excel_row replace_rules with
  | Ok r => r
  | Raise e => ([], log_failed ++ exn_text e)
  end.

(** ** Session state and the batch *)

Record ReplacedFile : Type := mkReplacedFile {
  filename : str;
  data : bytes;
  row_idx : Z;
  log : str
}.

(** The dictionary returned by [get_replace_params]. *)
Record replace_params_t : Type := mkParams {
  word_filename : str;
  excel_rows : Z;
  p_start_row : Z;
  p_end_row : Z;
  p_file_name_col : str;
  p_file_prefix : str;
  p_file_suffix : str;
  rule_count : Z;
  rule_hash : Z
}.

(** [st.session_state]; [replace_params] is [None] for the initial [{}]. *)
Record session_state : Type := mkState {
  replace_rules : list rule;
  replaced_files : list ReplacedFile;
  replace_log : list str;
  is_replacing : bool;
  replace_params : option replace_params_t;
  replace_scope : str
}.

(** [hash(tuple(rules))] *)
Variable hash_rules : list rule -> Z.

Definition get_replace_params (st : session_state)
    (word_file : option UploadedFile) (excel_df : option DataFrame)
    (start_row end_row : Z) (file_name_col file_prefix file_suffix : str)
  : replace_params_t :=
  {| word_filename := match word_file with Some f => file_name f | None => [] end;
     excel_rows := match excel_df with
                   | Some df => Z.of_nat (List.length df)
                   | None => 0
                   end;
     p_start_row := start_row;
     p_end_row := end_row;
     p_file_name_col := file_name_col;
     p_file_prefix := file_prefix;
     p_file_suffix := file_suffix;
     rule_count := Z.of_nat (List.length (replace_rules st));
     rule_hash := hash_rules (replace_rules st) |}.

Definition params_eqb (a b : replace_params_t) : bool :=
  eqb (word_filename a) (word_filename b)
  && (excel_rows a =? excel_rows b)
  && (p_start_row a =? p_start_row b)
  && (p_end_row a =? p_end_row b)
  && eqb (p_file_name_col a) (p_file_name_col b)
  && eqb (p_file_prefix a) (p_file_prefix b)
  && eqb (p_file_suffix a) (p_file_suffix b)
  && (rule_count a =? rule_count b)
  && (rule_hash a =? rule_hash b).

(** [need_replace] of the page script. *)
Definition need_replace (st : session_state) (current_params : replace_params_t)
  : bool :=
  (Nat.eqb (List.length (replaced_files st)) 0)
  || negb match replace_params st with
          | Some p => params_eqb p current_params
          | None => false
          end.

Definition truthy (s : str) : bool :=
  match s with [] => false | _ :: _ => true end.

(** The file name of the row [row_idx]. *)
Definition make_filename (excel_row : Series) (row_idx : Z)
    (file_name_col file_prefix file_suffix : str) : result str :=
  if truthy file_name_col && series_has excel_row file_name_col then
    v <- series_get excel_row file_name_col ;;
    let base_name := clean_text v in
    if truthy file_prefix && truthy file_suffix then
      Ok (file_prefix ++ base_name ++ file_suffix ++ py ".docx")
    else if truthy file_prefix then
      Ok (file_prefix ++ base_name ++ py ".docx")
    else if truthy file_suffix then
      Ok (base_name ++ file_suffix ++ py ".docx")
    else Ok (base_name ++ py ".docx")
  else
    let n := str_of_int (row_idx + 1) in
    if truthy file_prefix && truthy file_suffix then
      Ok (file_prefix ++ py "替换结果_" ++ n ++ file_suffix ++ py ".docx")
    else if truthy file_prefix then
      Ok (file_prefix ++ py "替换结果_" ++ n ++ py ".docx")
    else if truthy file_suffix then
      Ok (py "替换结果_" ++ n ++ file_suffix ++ py ".docx")
    else Ok (py "替换结果_" ++ n ++ py ".docx").

(** The body of the row loop. *)
Definition process_row (st : session_state) (word_file : UploadedFile)
    (excel_df : DataFrame) (file_name_col file_prefix file_suffix : str)
    (row_idx : Z) : result session_state :=
  excel_row <- iloc excel_df row_idx ;;
  let '(replaced_file, replace_log_) :=
    replace_word_with_format (replace_scope st) word_file excel_row
      (replace_rules st) in
  name <- make_filename excel_row row_idx file_name_col file_prefix file_suffix ;;
  let name := clean_filename name in
  Ok {| replace_rules := replace_rules st;
        replaced_files :=
          replaced_files st
            ++ [mkReplacedFile name replaced_file row_idx replace_log_];
        replace_log :=
          replace_log st
            ++ [py "第" ++ str_of_int (row_idx + 1) ++ py "行：" ++ replace_log_];
        is_replacing := is_replacing st;
        replace_params := replace_params st;
        replace_scope := replace_scope st |}.

(** The [for] loop: the state reached, and whether an exception stopped it. *)
Fixpoint row_loop (st : session_state) (word_file : UploadedFile)
    (excel_df : DataFrame) (file_name_col file_prefix file_suffix : str)
    (idxs : list Z) : session_state * bool :=
  match idxs with
  | [] => (st, false)
  | i :: idxs' =>
      match process_row st word_file excel_df file_name_col file_prefix
              file_suffix i with
      | Ok st' =>
          row_loop st' word_file excel_df file_name_col file_prefix file_suffix
            idxs'
      | Raise _ => (st, true)
      end
  end.

(** What a click on "开始替换" does ([if replace_btn and not is_replacing]). *)
Definition run_replace (st : session_state) (word_file : UploadedFile)
    (excel_df : DataFrame) (start_row end_row : Z)
    (file_name_col file_prefix file_suffix : str) : session_state :=
  if is_replacing st then st
  else
    let current_params :=
      get_replace_params st (Some word_file) (Some excel_df) start_row end_row
        file_name_col file_prefix file_suffix in
    let st0 := {| replace_rules := replace_rules st;
                  replaced_files := [];
                  replace_log := [];
                  is_replacing := true;
                  replace_params := replace_params st;
                  replace_scope := replace_scope st |} in
    let '(st1, raised) :=
      row_loop st0 word_file excel_df file_name_col file_prefix file_suffix
        (zrange (start_row - 1)
           (Z.min end_row (Z.of_nat (List.length excel_df)))) in
    {| replace_rules := replace_rules st1;
       replaced_files := replaced_files st1;
       replace_log := replace_log st1;
       is_replacing := false;
       replace_params :=
         if raised then replace_params st1 else Some current_params;
       replace_scope := replace_scope st1 |}.

End Document.

(** ** Rounding of quotients *)

(** [n / d] rounded to the nearest integer, ties to the even one
    ([0 <= n], [0 < d]). *)
Definition div_half_even (n d : Z) : Z :=
  let q := n / d in
  let r := n mod d in
  if 2 * r <? d then q
  else if d <? 2 * r then q + 1
  else if Z.even q then q else q + 1.

(** [n / d] rounded to the nearest integer, ties away from zero. *)
Definition div_half_up (n d : Z) : Z :=
  let q := n / d in
  let r := n mod d in
  if 2 * r <? d then q else q + 1.

(** [b ^ k] for a non-negative [k], and [1] for a negative one: the factor
    that moves a scale of [k] places to the numerator. *)
Definition pow_pos (b k : Z) : Z := b ^ Z.max 0 k.

(** The number of decimal digits of a coefficient ([len(self._int)]). *)
Definition ndigits (c : Z) : Z := Z.of_nat (List.length (digits c)).

(** [sys.get_int_max_str_digits()], which the program leaves at its
    default. *)
Definition int_max_str_digits : Z := 4300.

(** [str(n)] for an [int] of any size: the conversion is refused with a
    [ValueError] when [n] has more than [int_max_str_digits] digits, the sign
    not counted. *)
Definition str_int (n : Z) : result str :=
  if ndigits (Z.abs n) >? int_max_str_digits then Raise ValueError
  else Ok (str_of_int n).

(** The text of [c / 10^places] with exactly [places] digits after the point
    and at least one before it, for a non-negative integer [c]: what the
    [f] presentation writes once the value is rounded. *)
Definition fixed_point (s : bool) (c places : Z) : str :=
  let ds := digits c in
  let pad := repeat 0 (Z.to_nat (places + 1) - List.length ds) in
  let ds := pad ++ ds in
  let k := (List.length ds - Z.to_nat places)%nat in
  (if s then [45] else [])
  ++ map digit_char (firstn k ds)
  ++ (if places >? 0 then 46 :: map digit_char (skipn k ds) else []).

(** ** binary64 *)

Module Flt.

(** [Fin s m e] is [(-1)^s * m * 2^e] with [0 <= m < 2^53] and
    [-1074 <= e <= 971]. *)
Inductive t : Type :=
| Fin (s : bool) (m e : Z)
| Inf (s : bool)
| NaN.

(** [floor (log2 (n / d))] for positive [n] and [d]. *)
Definition ilog2_ratio (n d : Z) : Z :=
  let k := Z.log2 n - Z.log2 d in
  if d * pow_pos 2 k <=? n * pow_pos 2 (- k) then k else k - 1.

(** The binary64 value nearest to [n / d] ([0 <= n], [0 < d]), ties to even;
    values of [2^1024 - 2^970] and more round to infinity. *)
Definition of_ratio (s : bool) (n d : Z) : t :=
  if n =? 0 then Fin s 0 0
  else
    let k := ilog2_ratio n d in
    let e := Z.max (k - 52) (-1074) in
    let m := div_half_even (n * pow_pos 2 (- e)) (d * pow_pos 2 e) in
    let '(m, e) := if m =? 2 ^ 53 then (2 ^ 52, e + 1) else (m, e) in
    if e >? 971 then Inf s else Fin s m e.

Definition abs (a : t) : t :=
  match a with
  | Fin _ m e => Fin false m e
  | Inf _ => Inf false
  | NaN => NaN
  end.

(** [a - b]; the numerator and denominator of the exact difference are formed
    over the common denominator [2^1074]. *)
Definition sub (a b : t) : t :=
  match a, b with
  | NaN, _ | _, NaN => NaN
  | Inf s, Inf s' => if Bool.eqb s s' then NaN else Inf s
  | Inf s, Fin _ _ _ => Inf s
  | Fin _ _ _, Inf s => Inf (negb s)
  | Fin sa ma ea, Fin sb mb eb =>
      let va := (if sa then -1 else 1) * ma * 2 ^ (ea + 1074) in
      let vb := (if sb then -1 else 1) * mb * 2 ^ (eb + 1074) in
      let v := va - vb in
      if v =? 0 then Fin (sa && negb sb) 0 0
      else of_ratio (v <? 0) (Z.abs v) (2 ^ 1074)
  end.

(** [a < b] *)
Definition ltb (a b : t) : bool :=
  match a, b with
  | NaN, _ | _, NaN => false
  | Inf s, Inf s' => s && negb s'
  | Inf s, Fin _ _ _ => s
  | Fin _ _ _, Inf s => negb s
  | Fin sa ma ea, Fin sb mb eb =>
      (if sa then -1 else 1) * ma * 2 ^ (ea + 1074)
      <? (if sb then -1 else 1) * mb * 2 ^ (eb + 1074)
  end.

(** [format(a, '.<places>f')]: the exact value rounded half-even to [places]
    fractional digits. *)
Definition format_f (a : t) (places : Z) : str :=
  match a with
  | NaN => py "nan"
  | Inf s => (if s then [45] else []) ++ py "inf"
  | Fin s m e =>
      fixed_point s
        (div_half_even (m * pow_pos 2 e * 10 ^ places) (pow_pos 2 (- e)))
        places
  end.

(** [floor (log10 (n / d))] for positive [n] and [d]. *)
Definition ilog10_ratio (n d : Z) : Z :=
  if d <=? n then ndigits (n / d) - 1 else - ndigits ((d - 1) / n).

(** The [p]-digit decimals just below and just above [n / d], as integers
    scaled by [10^(p - 1 - t)] where [t] is the decimal exponent of [n / d];
    of those that read back as [a], the one nearer to [n / d], and the even
    one of two that are equally near. *)
Definition repr_candidate (a : t) (n d t : Z) (p : Z) : option Z :=
  let sh := p - 1 - t in
  let num := n * pow_pos 10 sh in
  let den := d * pow_pos 10 (- sh) in
  let lo := num / den in
  let hi := lo + 1 in
  let back c := of_ratio false (c * pow_pos 10 (- sh)) (pow_pos 10 sh) in
  let ok c :=
    match a, back c with
    | Fin _ m e, Fin _ m' e' => (m =? m') && (e =? e')
    | _, _ => false
    end in
  let rem2 := 2 * (num - lo * den) in
  let lo_near := (rem2 <? den) || ((rem2 =? den) && Z.even lo) in
  match ok lo, ok hi with
  | true, true => Some (if lo_near then lo else hi)
  | true, false => Some lo
  | false, true => Some hi
  | false, false => None
  end.

Fixpoint repr_search (a : t) (n d t : Z) (ps : list Z) : Z * Z :=
  match ps with
  | [] => (0, 1)
  | p :: ps' =>
      match repr_candidate a n d t p with
      | Some c => (c, p)
      | None => repr_search a n d t ps'
      end
  end.

(** The shortest digit string that reads back as [a], and the position
    [decpt] of its decimal point. *)
Definition shortest_digits (m e : Z) : list Z * Z :=
  let n := m * pow_pos 2 e in
  let d := pow_pos 2 (- e) in
  let t := ilog10_ratio n d in
  let '(c, p) := repr_search (Fin false m e) n d t (zrange 1 18) in
  (* [c] may be [10^p] *)
  let ds := digits c in
  let decpt := t + 1 + (Z.of_nat (List.length ds) - p) in
  (rev (lstrip_by (Z.eqb 0) (rev ds)), decpt).

(** [repr(a)], which is also [str(a)]. *)
Definition repr (a : t) : str :=
  match a with
  | NaN => py "nan"
  | Inf s => (if s then [45] else []) ++ py "inf"
  | Fin s m e =>
      (if s then [45] else []) ++
      if m =? 0 then py "0.0"
      else
        let '(ds, decpt) := shortest_digits m e in
        let n := Z.of_nat (List.length ds) in
        if (decpt <=? -4) || (decpt >? 16) then
          let x := decpt - 1 in
          let xs := digits (Z.abs x) in
          map digit_char (firstn 1 ds)
          ++ (if n >? 1 then 46 :: map digit_char (skipn 1 ds) else [])
          ++ [101] ++ (if x <? 0 then [45] else [43])
          ++ map digit_char (if Z.abs x <? 10 then 0 :: xs else xs)
        else if decpt <=? 0 then
          py "0." ++ map digit_char (repeat 0 (Z.to_nat (- decpt)) ++ ds)
        else if n <=? decpt then
          map digit_char (ds ++ repeat 0 (Z.to_nat (decpt - n))) ++ py ".0"
        else
          map digit_char (firstn (Z.to_nat decpt) ds)
          ++ 46 :: map digit_char (skipn (Z.to_nat decpt) ds)
  end.

End Flt.

(** ** decimal.Decimal under the default context *)

Module Dec.

(** [sign], [coef] and [exp] are [_sign], [int(_int)] and [_exp]:
    the value is [(-1)^sign * coef * 10^exp]. *)
Record t : Type := mk { sign : bool; coef : Z; exp : Z }.

Definition prec : Z := 28.
Definition Emax : Z := 999999.
Definition Emin : Z := -999999.
Definition Etiny : Z := Emin - prec + 1.
Definition Etop : Z := Emax - prec + 1.

(** [self.adjusted()] *)
Definition adjusted (a : t) : Z := exp a + ndigits (coef a) - 1.

(** [self._rescale(e, ROUND_HALF_UP)] *)
Definition rescale_half_up (a : t) (e : Z) : t :=
  if e <=? exp a then mk (sign a) (coef a * 10 ^ (exp a - e)) e
  else mk (sign a) (div_half_up (coef a) (10 ^ (e - exp a))) e.

(** [self._rescale(e, ROUND_HALF_EVEN)] *)
Definition rescale_half_even (a : t) (e : Z) : t :=
  if e <=? exp a then mk (sign a) (coef a * 10 ^ (exp a - e)) e
  else mk (sign a) (div_half_even (coef a) (10 ^ (e - exp a))) e.

(** [a.quantize(Decimal('1.' + '0' * places), rounding=ROUND_HALF_UP)] *)
Definition quantize (a : t) (places : Z) : result t :=
  let e := - places in
  if negb ((Etiny <=? e) && (e <=? Emax)) then Raise InvalidOperation
  else if coef a =? 0 then Ok (mk (sign a) 0 e)
  else if adjusted a >? Emax then Raise InvalidOperation
  else if adjusted a - e + 1 >? prec then Raise InvalidOperation
  else
    let ans := rescale_half_up a e in
    if adjusted ans >? Emax then Raise InvalidOperation
    else if ndigits (coef ans) >? prec then Raise InvalidOperation
    else Ok ans.

(** [self._fix(context)]: round to [prec] digits, half-even. *)
Definition fix_context (a : t) : result t :=
  if coef a =? 0 then Ok (mk (sign a) 0 (Z.min (Z.max (exp a) Etiny) Emax))
  else
    let exp_min := Z.max (ndigits (coef a) + exp a - prec) Etiny in
    if exp_min >? Etop then Raise Overflow
    else if exp a <? exp_min then
      let c := div_half_even (coef a) (10 ^ (exp_min - exp a)) in
      let '(c, exp_min) :=
        if ndigits c >? prec then (c / 10, exp_min + 1) else (c, exp_min) in
      if exp_min >? Etop then Raise Overflow else Ok (mk (sign a) c exp_min)
    else Ok a.

(** [a - b] *)
Definition sub (a b : t) : result t :=
  let e := Z.min (exp a) (exp b) in
  let va := (if sign a then -1 else 1) * coef a * 10 ^ (exp a - e) in
  let vb := (if sign b then -1 else 1) * coef b * 10 ^ (exp b - e) in
  let v := va - vb in
  let s :=
    if v =? 0
    then (if (coef a =? 0) && (coef b =? 0) then sign a && negb (sign b)
          else false)
    else v <? 0 in
  fix_context (mk s (Z.abs v) e).

(** [abs(a)] *)
Definition abs (a : t) : result t := fix_context (mk false (coef a) (exp a)).

(** [a < f] for a float [f]: the comparison is exact. *)
Definition lt_float (a : t) (f : Flt.t) : bool :=
  match f with
  | Flt.NaN => false
  | Flt.Inf s => negb s
  | Flt.Fin s m e =>
      let k := Z.max 0 (- exp a) in
      let j := Z.max 0 (- e) in
      (if sign a then -1 else 1) * coef a * 10 ^ (exp a + k) * 2 ^ j
      <? (if s then -1 else 1) * m * 2 ^ (e + j) * 10 ^ k
  end.

(** [int(a)]: truncation toward zero. *)
Definition to_int (a : t) : Z :=
  (if sign a then -1 else 1)
  * (if 0 <=? exp a then coef a * 10 ^ exp a else coef a / 10 ^ (- exp a)).

(** [float(a)] *)
Definition to_float (a : t) : Flt.t :=
  Flt.of_ratio (sign a) (coef a * pow_pos 10 (exp a)) (pow_pos 10 (- exp a)).

(** [format(a, '.<places>f')] *)
Definition format_f (a : t) (places : Z) : str :=
  let a := rescale_half_even a (- places) in
  fixed_point (sign a) (coef a) places.

End Dec.

(** ** The numeric text normalizer *)

(** [result.rstrip('0').rstrip('.') if '.' in result else result] *)
Definition strip_zeros (result : str) : str :=
  if has_char 46 result then rstrip_char 46 (rstrip_char 48 result)
  else result.

(** The literal [1e-9]. *)
Definition eps : Flt.t := Dec.to_float (Dec.mk false 1 (-9)).

Section Normalizer.
Context {U : Unicode}.

(** [x.isdigit()] *)
Definition str_isdigit (x : str) : bool :=
  truthy x && forallb isdigit x.

Definition is_decimal (c : char) : bool :=
  match todecimal c with Some _ => true | None => false end.

(** The longest prefix of decimal digits, as values, and what follows it. *)
Fixpoint span_digits (s : str) : list Z * str :=
  match s with
  | [] => ([], [])
  | c :: s' =>
      match todecimal c with
      | Some d => let '(ds, rest) := span_digits s' in (d :: ds, rest)
      | None => ([], s)
      end
  end.

Definition is_sign (c : char) : bool := (c =? 45) || (c =? 43).

Definition skip_sign (s : str) : str :=
  match s with
  | c :: s' => if is_sign c then s' else s
  | [] => []
  end.

(** [re.match(r'^\s*[-+]?\d*\.?\d+\s*$', x)].  The classes [\s], [\d] and the
    point are pairwise disjoint, so the match is found without backtracking:
    the digits before the point, then either a point and at least one digit,
    or no point and at least one digit before it. *)
Definition float_pattern_match (x : str) : bool :=
  let s := skip_sign (lstrip_by isspace x) in
  let '(ip, rest) := span_digits s in
  let tail :=
    match rest with
    | 46 :: rest' =>
        let '(fp, rest'') := span_digits rest' in
        match fp with
        | [] => match ip with [] => None | _ => Some rest end
        | _ :: _ => Some rest''
        end
    | _ => match ip with [] => None | _ => Some rest end
    end in
  match tail with
  | Some t => negb (truthy (lstrip_by isspace t))
  | None => false
  end.

(** A plain decimal literal: sign, digits, optional point and digits, with at
    least one digit.  [Decimal()] and [float()] also take exponents,
    underscores, surrounding whitespace, infinities and NaNs; none of them
    passes [float_pattern_match], which guards both calls. *)
Definition parse_literal (x : str) : result Dec.t :=
  let sgn := match x with 45 :: _ => true | _ => false end in
  let '(ip, rest) := span_digits (skip_sign x) in
  match rest with
  | [] =>
      match ip with
      | [] => Raise ValueError
      | _ => Ok (Dec.mk sgn (digits_value ip) 0)
      end
  | 46 :: rest' =>
      let '(fp, rest'') := span_digits rest' in
      match rest'', ip ++ fp with
      | [], (_ :: _) as ds =>
          Ok (Dec.mk sgn (digits_value ds) (- Z.of_nat (List.length fp)))
      | _, _ => Raise ValueError
      end
  | _ => Raise ValueError
  end.

(** [Decimal(x)] *)
Definition Decimal (x : str) : result Dec.t :=
  match parse_literal x with
  | Ok d => Ok d
  | Raise _ => Raise InvalidOperation
  end.

(** [float(x)] *)
Definition float_of_str (x : str) : result Flt.t :=
  d <- parse_literal x ;;
  Ok (Dec.to_float d).

(** [column_name and ("合计" in column_name or "total" in column_name.lower())] *)
Definition is_total_column (column_name : option str) : bool :=
  match column_name with
  | None => false
  | Some c =>
      truthy c && (contains (py "合计") c || contains (py "total") (lower c))
  end.

(** The loop over 2..6 places of a total column: [Some] is a [return]. *)
Fixpoint total_loop (dec_value : Dec.t) (places : list Z)
  : result (option str) :=
  match places with
  | [] => Ok None
  | dec_places :: places' =>
      quantized <- Dec.quantize dec_value dec_places ;;
      diff <- Dec.sub quantized dec_value ;;
      diff <- Dec.abs diff ;;
      if Dec.lt_float diff eps
      then Ok (Some (strip_zeros (Dec.format_f quantized dec_places)))
      else total_loop dec_value places'
  end.

(** The loop over 1..9 places on the float (method 2). *)
Fixpoint float_loop (float_val : Flt.t) (places : list Z)
  : result (option str) :=
  match places with
  | [] => Ok None
  | dec_places :: places' =>
      let formatted := Flt.format_f float_val dec_places in
      back <- float_of_str formatted ;;
      if Flt.ltb (Flt.abs (Flt.sub back float_val)) eps
      then Ok (Some (strip_zeros formatted))
      else float_loop float_val places'
  end.

(** Method 1: the digits after the point of the input, trailing zeros off. *)
Definition by_original_places (x : str) (dec_value : Dec.t)
  : result (option str) :=
  if has_char 46 x then
    match nth_error (split 46 x) 1 with
    | None => Raise IndexError
    | Some orig_dec_part =>
        let orig_dec_places :=
          Z.of_nat (List.length (rstrip_char 48 orig_dec_part)) in
        if orig_dec_places >? 0 then
          quantized <- Dec.quantize dec_value orig_dec_places ;;
          Ok (Some (strip_zeros (Dec.format_f quantized orig_dec_places)))
        else Ok None
    end
  else Ok None.

Definition has_artifact (float_str : str) : bool :=
  contains (py "999999") float_str || contains (py "000000") float_str.

(** The body of the outer [try], for the stripped [x]. *)
Definition fix_body (x : str) (column_name : option str) : result str :=
  dec_value <- Decimal x ;;
  if Dec.exp dec_value >=? 0 then str_int (Dec.to_int dec_value)
  else
    let float_val := Dec.to_float dec_value in
    let float_str := Flt.repr float_val in
    r <- (if is_total_column column_name
          then total_loop dec_value (zrange 2 7)
          else Ok None) ;;
    match r with
    | Some s => Ok s
    | None =>
        if has_artifact float_str then
          r1 <- by_original_places x dec_value ;;
          match r1 with
          | Some s => Ok s
          | None =>
              r2 <- float_loop float_val (zrange 1 10) ;;
              match r2 with
              | Some s => Ok s
              | None => Ok x
              end
          end
        else Ok x
    end.

(** The handler of the outer [except], with its own [try]. *)
Definition fix_fallback (x : str) : str :=
  match float_of_str x with
  | Ok float_val => strip_zeros (Flt.format_f float_val 6)
  | Raise _ => x
  end.

Definition fix_float_precision (x : str) (column_name : option str) : str :=
  if negb (truthy x) then x
  else
    let x := strip_by isspace x in
    if negb (truthy x) then []
    else if str_isdigit x then x
    else if negb (float_pattern_match x) then x
    else
      match fix_body x column_name with
      | Ok s => s
      | Raise _ => fix_fallback x
      end.

End Normalizer.
(** An instance that is exact on ASCII, maps the fullwidth forms
    U+FF01..U+FF5E and the ideographic space to their ASCII counterparts under
    NFKC, treats NBSP and U+3000 as whitespace, and leaves every other
    character alone.  It agrees with the real tables on ASCII text, on CJK
    ideographs and on the bracket glyphs 【】〔〕. *)
Definition basic_nfkc_char (c : char) : char :=
  if (65281 <=? c) && (c <=? 65374) then c - 65248
  else if (c =? 12288) || (c =? 160) then 32
  else c.

Definition basic_lower_char (c : char) : char :=
  if (65 <=? c) && (c <=? 90) then c + 32 else c.

Definition basic_isspace (c : char) : bool :=
  ascii_isspace c || (c =? 133) || (c =? 160) || (c =? 12288).

Definition basic_todecimal (c : char) : option Z :=
  if ascii_isdigit c then Some (c - 48) else None.

Lemma basic_isspace_ascii c : is_ascii c -> basic_isspace c = ascii_isspace c.
Proof.
  unfold is_ascii, basic_isspace. intros Hc.
  replace (c =? 133) with false by (symmetry; apply Z.eqb_neq; lia).
  replace (c =? 160) with false by (symmetry; apply Z.eqb_neq; lia).
  replace (c =? 12288) with false by (symmetry; apply Z.eqb_neq; lia).
  now rewrite !orb_false_r.
Qed.

Lemma basic_todecimal_range c d : basic_todecimal c = Some d -> 0 <= d <= 9.
Proof.
  unfold basic_todecimal, ascii_isdigit.
  destruct (48 <=? c) eqn:E1; destruct (c <=? 57) eqn:E2; simpl; try discriminate.
  intros [= <-]. apply Z.leb_le in E1. apply Z.leb_le in E2. lia.
Qed.

Lemma basic_space_not_decimal c : basic_isspace c = true -> basic_todecimal c = None.
Proof.
  unfold basic_isspace, basic_todecimal, ascii_isspace, ascii_isdigit.
  destruct (48 <=? c) eqn:E1; destruct (c <=? 57) eqn:E2; simpl; trivial.
  apply Z.leb_le in E1. apply Z.leb_le in E2. intros H.
  repeat (apply orb_prop in H; destruct H as [H | H]);
    try (apply andb_prop in H; destruct H as [H1 H2];
         apply Z.leb_le in H1; apply Z.leb_le in H2; lia);
    apply Z.eqb_eq in H; lia.
Qed.

#[export] Instance basic_unicode : Unicode := {|
  isspace := basic_isspace;
  isdigit := ascii_isdigit;
  todecimal := basic_todecimal;
  lower := map basic_lower_char;
  nfkc := map basic_nfkc_char;
  isspace_ascii := basic_isspace_ascii;
  isdigit_ascii := fun _ _ => eq_refl;
  todecimal_ascii := fun _ _ => eq_refl;
  todecimal_range := basic_todecimal_range;
  space_not_decimal := basic_space_not_decimal
|}.

(** ** The page script around the batch *)

(** [st.session_state] with the flag [clear_input], which only the rule form
    uses. *)
Record page_state : Type := mkPage {
  session : session_state;
  clear_input : bool
}.

Definition with_rules (st : session_state) (rules : list rule) : session_state :=
  {| replace_rules := rules;
     replaced_files := replaced_files st;
     replace_log := replace_log st;
     is_replacing := is_replacing st;
     replace_params := replace_params st;
     replace_scope := replace_scope st |}.

Definition without_files (st : session_state) : session_state :=
  {| replace_rules := replace_rules st;
     replaced_files := [];
     replace_log := replace_log st;
     is_replacing := is_replacing st;
     replace_params := replace_params st;
     replace_scope := replace_scope st |}.

(** [rule in st.session_state.replace_rules] *)
Definition rule_in (r : rule) (rules : list rule) : bool :=
  existsb (fun r' => rule_eqb r' r) rules.

(** The "添加" button: a rule that is in the list already is refused with a
    warning, a new one is appended. *)
Definition add_rule (st : page_state) (keyword_input column_select : str)
  : page_state :=
  let r := (keyword_input, column_select) in
  if rule_in r (replace_rules (session st)) then st
  else
    mkPage (with_rules (session st) (replace_rules (session st) ++ [r])) true.

(** [l.pop(i)]: what is left of the list. *)
Definition pop {A : Type} (l : list A) (i : Z) : result (list A) :=
  let n := Z.of_nat (List.length l) in
  let j := if i <? 0 then i + n else i in
  if (0 <=? j) && (j <? n)
  then Ok (firstn (Z.to_nat j) l ++ skipn (S (Z.to_nat j)) l)
  else Raise IndexError.

(** The "删除" button of the rule of index [idx]. *)
Definition delete_rule (st : page_state) (idx : Z) : result page_state :=
  rules <- pop (replace_rules (session st)) idx ;;
  Ok (mkPage (without_files (with_rules (session st) rules)) (clear_input st)).

(** The "清空所有规则" button. *)
Definition clear_rules (st : page_state) : page_state :=
  mkPage (without_files (with_rules (session st) [])) (clear_input st).

(** The values that [init_session_state] stores, and any other value the
    session may hold. *)
#[warnings="-register-all"]
Inductive pyvalue : Type :=
| PyNone
| PyBool (b : bool)
| PyInt (z : Z)
| PyStr (s : str)
| PyList (items : list pyvalue)
| PyDict (items : list (pyvalue * pyvalue)).

(** [st.session_state] as a dictionary, in insertion order. *)
Definition session_dict := list (str * pyvalue).

Fixpoint dict_get (key : str) (d : session_dict) : option pyvalue :=
  match d with
  | [] => None
  | (k, v) :: d' => if eqb k key then Some v else dict_get key d'
  end.

(** [key in st.session_state] *)
Definition dict_has (key : str) (d : session_dict) : bool :=
  match dict_get key d with Some _ => true | None => false end.

Definition required_states : session_dict :=
  [(py "replace_rules", PyList []);
   (py "replaced_files", PyList []);
   (py "replace_log", PyList []);
   (py "is_replacing", PyBool false);
   (py "clear_input", PyBool false);
   (py "replace_params", PyDict []);
   (py "replace_scope", PyStr (py "替换完整关键词"))].

(** The loop of [init_session_state] over the entries [defaults]. *)
Definition init_states (defaults : session_dict) (st : session_dict)
  : session_dict :=
  fold_left
    (fun st kd => if dict_has (fst kd) st then st else st ++ [kd])
    defaults st.

Definition init_session_state (st : session_dict) : session_dict :=
  init_states required_states st.

(** [PAGE_SIZE] *)
Definition PAGE_SIZE : Z := 10.

(** An index of a slice, clipped as Python clips it. *)
Definition slice_index (len i : Z) : Z :=
  if i <? 0 then Z.max (i + len) 0 else Z.min i len.

(** [l[a:b]] *)
Definition slice {A : Type} (l : list A) (a b : Z) : list A :=
  let len := Z.of_nat (List.length l) in
  let a' := slice_index len a in
  let b' := slice_index len b in
  firstn (Z.to_nat (b' - a')) (skipn (Z.to_nat a') l).

(** [(len(replaced_files) + PAGE_SIZE - 1) // PAGE_SIZE] *)
Definition total_pages {A : Type} (files : list A) : Z :=
  (Z.of_nat (List.length files) + PAGE_SIZE - 1) / PAGE_SIZE.

(** The files listed on the page [current_page] of the download area. *)
Definition current_files {A : Type} (files : list A) (current_page : Z)
  : list A :=
  let start_idx := (current_page - 1) * PAGE_SIZE in
  let end_idx := Z.min (start_idx + PAGE_SIZE) (Z.of_nat (List.length files)) in
  slice files start_idx end_idx.

(** * Properties *)

(** ** Strings *)

Ltac eval_py :=
  repeat match goal with
         | |- context [py ?s] =>
             let v := eval vm_compute in (py s) in change (py s) with v
         end.

Lemma eqb_eq (a b : str) : eqb a b = true <-> a = b.
Proof.
  revert b. induction a as [|x a IH]; destruct b as [|y b]; simpl;
    try (split; [discriminate | discriminate]); try tauto.
  rewrite andb_true_iff, Z.eqb_eq, IH. split.
  - intros [-> ->]. reflexivity.
  - intros [= -> ->]. auto.
Qed.

Lemma eqb_refl (a : str) : eqb a a = true.
Proof. now apply eqb_eq. Qed.

Lemma rule_eqb_eq (a b : rule) : rule_eqb a b = true <-> a = b.
Proof.
  destruct a as [a1 a2], b as [b1 b2]. unfold rule_eqb. simpl.
  rewrite andb_true_iff, !eqb_eq. split.
  - intros [-> ->]. reflexivity.
  - intros [= -> ->]. auto.
Qed.

Lemma rule_eqb_refl (a : rule) : rule_eqb a a = true.
Proof. now apply rule_eqb_eq. Qed.

Lemma startswith_app (p s : str) : startswith p (p ++ s) = true.
Proof.
  induction p as [|x p IH]; simpl; [reflexivity|].
  now rewrite Z.eqb_refl, IH.
Qed.

(** Two one-character prefixes of the same string are the same character. *)
Lemma startswith_head (a b : char) (s : str) :
  startswith [a] s = true -> startswith [b] s = true -> a = b.
Proof.
  destruct s as [|c s]; simpl; [discriminate|].
  rewrite !andb_true_r, !Z.eqb_eq. congruence.
Qed.

(** A text without [old] is left alone by [replace]. *)
Lemma replace_absent (old new s : str) :
  contains old s = false -> replace old new s = s.
Proof.
  destruct old as [|o old].
  - destruct s; discriminate.
  - unfold replace. induction s as [|c s IH]; [reflexivity|].
    intros H. cbn [contains] in H. apply orb_false_elim in H as [H1 H2].
    cbn [replace_go]. rewrite H1. f_equal. auto.
Qed.

Arguments mkRun {Style}.
Arguments run_text {Style}.
Arguments run_style {Style}.
Arguments set_text {Style}.
Arguments paragraph_text {Style}.
Arguments process_paragraph {U Style}.
Arguments mkDocument {Style}.

(** ** The pattern compiler *)

(** The four glyph pairs of "仅替换括号内内容", in the order of the tests. *)
Definition bracket_pairs : list (str * str) :=
  [(py "【", py "】"); (py "（", py "）"); (py "(", py ")"); (py "〔", py "〕")].

Section PatternFacts.
Context {U : Unicode}.

Lemma endswith_last (a b : char) (s : str) :
  endswith [a] s = true -> endswith [b] s = true -> a = b.
Proof. unfold endswith. simpl. apply startswith_head. Qed.

(** A rule whose column the row has compiles, in the full-keyword scope, to
    the cleaned keyword and the cell text. *)
Lemma compile_rule_full (scope : str) (row : Series) (old col v : str) :
  eqb scope scope_bracket = false ->
  series_find col row = Some v ->
  compile_rule scope row (old, col) = Ok (old, col, clean_text old, v).
Proof.
  intros Hs Hv. unfold compile_rule, series_get. rewrite Hv. simpl.
  now rewrite Hs.
Qed.

Lemma compile_rule_bracketed (row : Series) (old col v o c : str) :
  series_find col row = Some v ->
  In (o, c) bracket_pairs ->
  startswith o (clean_text old) = true ->
  endswith c (clean_text old) = true ->
  compile_rule scope_bracket row (old, col)
  = Ok (old, col, clean_text old, o ++ v ++ c).
Proof.
  intros Hv Hin Ho Hc. unfold compile_rule, series_get. rewrite Hv.
  cbn [bind]. rewrite eqb_refl.
  unfold bracket_pairs in Hin. revert Hin Ho Hc. eval_py. intros Hin Ho Hc.
  assert (Hne : forall a b, a <> b ->
            startswith [a] (clean_text old) = true ->
            startswith [b] (clean_text old) = false).
  { intros a b Hab Ha. destruct (startswith [b] _) eqn:Hb; trivial.
    exfalso. apply Hab. eapply startswith_head; eauto. }
  simpl in Hin.
  destruct Hin as [E | [E | [E | [E | []]]]]; injection E as <- <-.
  - now rewrite Ho, Hc.
  - rewrite (Hne 65288 12304) by (trivial; lia). cbn [andb].
    now rewrite Ho, Hc.
  - rewrite (Hne 40 12304), (Hne 40 65288) by (trivial; lia). cbn [andb].
    now rewrite Ho, Hc.
  - rewrite (Hne 12308 12304), (Hne 12308 65288), (Hne 12308 40)
      by (trivial; lia).
    cbn [andb]. now rewrite Ho, Hc.
Qed.

Lemma compile_rule_unbracketed (row : Series) (old col v : str) :
  series_find col row = Some v ->
  (forall o c, In (o, c) bracket_pairs ->
     startswith o (clean_text old) && endswith c (clean_text old) = false) ->
  compile_rule scope_bracket row (old, col)
  = Ok (old, col, clean_text old, v).
Proof.
  intros Hv Hno. unfold compile_rule, series_get. rewrite Hv.
  cbn [bind]. rewrite eqb_refl.
  unfold bracket_pairs in Hno.
  rewrite (Hno (py "【") (py "】")) by (simpl; auto).
  rewrite (Hno (py "（") (py "）")) by (simpl; auto).
  rewrite (Hno (py "(") (py ")")) by (simpl; auto).
  rewrite (Hno (py "〔") (py "〕")) by (simpl; auto 6).
  reflexivity.
Qed.

(** The pattern list is the rule list compiled one by one, in order. *)
Lemma precompute_nth (scope : str) (row : Series) :
  forall (rules : list rule) (ps : list pattern) (i : nat) (r : rule),
    precompute_replace_patterns scope rules row = Ok ps ->
    nth_error rules i = Some r ->
    exists p, nth_error ps i = Some p /\ compile_rule scope row r = Ok p.
Proof.
  induction rules as [|r0 rules IH]; intros ps i r Hps Hi.
  - destruct i; discriminate.
  - cbn [precompute_replace_patterns] in Hps.
    destruct (compile_rule scope row r0) as [p0|] eqn:E0; [|discriminate].
    cbn [bind] in Hps.
    destruct (precompute_replace_patterns scope rules row) as [ps0|] eqn:E1;
      [|discriminate].
    cbn [bind] in Hps. injection Hps as <-.
    destruct i as [|i]; simpl in Hi |- *.
    + injection Hi as <-. eauto.
    + eapply IH; eauto.
Qed.

(** Whether the compilation fails does not depend on the scope. *)
Lemma precompute_scope_total (row : Series) (s1 s2 : str) :
  forall (rules : list rule) (ps : list pattern),
    precompute_replace_patterns s1 rules row = Ok ps ->
    exists ps', precompute_replace_patterns s2 rules row = Ok ps'.
Proof.
  induction rules as [|[old col] rules IH]; intros ps Hps.
  - simpl. eauto.
  - cbn [precompute_replace_patterns] in Hps |- *.
    destruct (compile_rule s1 row (old, col)) as [p0|] eqn:E0; [|discriminate].
    cbn [bind] in Hps.
    destruct (precompute_replace_patterns s1 rules row) as [ps0|] eqn:E1;
      [|discriminate].
    destruct (IH _ eq_refl) as [ps' ->].
    assert (exists p', compile_rule s2 row (old, col) = Ok p') as [p' ->].
    { unfold compile_rule, series_get in E0 |- *.
      destruct (series_find col row); [|discriminate]. cbn [bind].
      repeat match goal with |- context [if ?b then _ else _] => destruct b end;
        eauto. }
    simpl. eauto.
Qed.

(** C7. In the bracket scope, a rule whose cleaned keyword starts and ends
    with one of the four glyph pairs compiles to the cleaned keyword as search
    key and to opening glyph, cell text, closing glyph as replacement; a rule
    whose cleaned keyword is enclosed by none of the pairs compiles to the
    pattern that the full-keyword scope gives at the same position. *)
Theorem bracket_scope_patterns
    (rules : list rule) (row : Series) (ps : list pattern) (i : nat)
    (old col v : str) :
  precompute_replace_patterns scope_bracket rules row = Ok ps ->
  nth_error rules i = Some (old, col) ->
  series_find col row = Some v ->
  (forall o c, In (o, c) bracket_pairs ->
     startswith o (clean_text old) = true ->
     endswith c (clean_text old) = true ->
     nth_error ps i = Some (old, col, clean_text old, o ++ v ++ c))
  /\ ((forall o c, In (o, c) bracket_pairs ->
         startswith o (clean_text old) && endswith c (clean_text old) = false) ->
      exists ps',
        precompute_replace_patterns scope_full rules row = Ok ps'
        /\ nth_error ps' i = nth_error ps i
        /\ nth_error ps i = Some (old, col, clean_text old, v)).
Proof.
  intros Hps Hi Hv.
  destruct (precompute_nth _ _ _ _ _ _ Hps Hi) as (p & Hp & Hc).
  split.
  - intros o c Hin Ho Hcl.
    rewrite (compile_rule_bracketed _ _ _ _ _ _ Hv Hin Ho Hcl) in Hc.
    now injection Hc as <-.
  - intros Hno.
    rewrite (compile_rule_unbracketed _ _ _ _ Hv Hno) in Hc.
    injection Hc as <-.
    destruct (precompute_scope_total row _ scope_full _ _ Hps) as [ps' Hps'].
    exists ps'. split; [assumption|]. split; [|assumption].
    destruct (precompute_nth _ _ _ _ _ _ Hps' Hi) as (p' & Hp' & Hc').
    rewrite (compile_rule_full scope_full row old col v eq_refl Hv) in Hc'.
    injection Hc' as <-. congruence.
Qed.

End PatternFacts.

(** The example of the specification: 【姓名】 with the cell 张三. *)
Lemma bracket_scope_patterns_witness :
  @precompute_replace_patterns basic_unicode scope_bracket
    [(py "【姓名】", py "姓名")] [(py "姓名", py "张三")]
  = Ok [(py "【姓名】", py "姓名", py "【姓名】", py "【张三】")]
  /\ nth_error [(py "【姓名】", py "姓名", py "【姓名】", py "【张三】")] 0
     = Some (py "【姓名】", py "姓名", py "【姓名】", py "【张三】").
Proof.
  split; [vm_compute; reflexivity|].
  exact (proj1
           (@bracket_scope_patterns basic_unicode
              [(py "【姓名】", py "姓名")] [(py "姓名", py "张三")]
              [(py "【姓名】", py "姓名", py "【姓名】", py "【张三】")]
              0%nat (py "【姓名】") (py "姓名") (py "张三")
              eq_refl eq_refl eq_refl)
           (py "【") (py "】") (or_introl eq_refl) eq_refl eq_refl).
Defined.

(** ** The paragraph mutator *)

(** What [process_paragraph] writes into the runs of a matched paragraph. *)
Definition commit {Style : Type} (para : list (Run Style)) (new_text : str)
  : list (Run Style) :=
  match para with
  | [] => []
  | first :: others => set_text new_text first :: map (set_text []) others
  end.

(** The patterns whose key occurs in the cleaned paragraph text. *)
Definition matching (cleaned : str) (ps : list pattern) : list pattern :=
  filter (fun p => contains (pat_key p) cleaned) ps.

(** The substitutions of [ps], applied one after the other. *)
Definition substitute (ps : list pattern) (text : str) : str :=
  fold_left (fun t p => replace (pat_key p) (pat_repl p) t) ps text.

(** How many patterns of [ps] match the paragraph and belong to rule [k]. *)
Definition hits (cleaned : str) (k : rule) (ps : list pattern) : Z :=
  Z.of_nat (List.length
    (filter (fun p => rule_eqb (pat_rule p) k) (matching cleaned ps))).

Section ParagraphFacts.
Context {U : Unicode}.
Variable Style : Type.
Implicit Types (para : list (Run Style)) (ps : list pattern).

Lemma apply_patterns_text (cleaned : str) :
  forall ps (t : str) (n : counts),
    fst (apply_patterns cleaned ps t n) = substitute (matching cleaned ps) t.
Proof.
  induction ps as [|p ps IH]; intros t n; [reflexivity|].
  unfold matching. cbn [apply_patterns filter].
  destruct (contains (pat_key p) cleaned); [|apply IH].
  cbn [substitute fold_left]. apply IH.
Qed.

Lemma count_of_add (k k' : rule) (n : Z) :
  forall d : counts,
    count_of k (count_add k' n d)
    = count_of k d + (if rule_eqb k' k then n else 0).
Proof.
  induction d as [|[k0 m] d IH]; cbn [count_add count_of].
  - destruct (rule_eqb k' k); lia.
  - destruct (rule_eqb k0 k') eqn:E0.
    + apply rule_eqb_eq in E0. subst k0. cbn [count_of].
      destruct (rule_eqb k' k); lia.
    + cbn [count_of]. destruct (rule_eqb k0 k) eqn:E1; [|apply IH].
      apply rule_eqb_eq in E1. subst k0.
      destruct (rule_eqb k' k) eqn:E2; [|lia].
      apply rule_eqb_eq in E2. subst k'. rewrite rule_eqb_refl in E0.
      discriminate E0.
Qed.

Lemma apply_patterns_count (cleaned : str) (k : rule) :
  forall ps (t : str) (n : counts),
    count_of k (snd (apply_patterns cleaned ps t n))
    = count_of k n + hits cleaned k ps.
Proof.
  unfold hits, matching.
  induction ps as [|p ps IH]; intros t n; cbn [apply_patterns filter].
  - simpl. lia.
  - destruct (contains (pat_key p) cleaned); [|apply IH].
    rewrite IH, count_of_add. cbn [filter].
    destruct (rule_eqb (pat_rule p) k); cbn [List.length]; lia.
Qed.

Lemma has_keyword_matching (cleaned : str) ps :
  existsb (fun p => contains (pat_key p) cleaned) ps = true
  <-> matching cleaned ps <> [].
Proof.
  unfold matching. induction ps as [|p ps IH]; simpl.
  - split; [discriminate | congruence].
  - destruct (contains (pat_key p) cleaned); simpl.
    + split; [discriminate | reflexivity].
    + exact IH.
Qed.

Lemma process_paragraph_matched para ps :
  existsb (fun p => contains (pat_key p) (clean_text (paragraph_text para))) ps
  = true ->
  process_paragraph para ps
  = (commit para
       (substitute (matching (clean_text (paragraph_text para)) ps)
          (paragraph_text para)),
     snd (apply_patterns (clean_text (paragraph_text para)) ps
            (paragraph_text para) [])).
Proof.
  intros H. unfold process_paragraph. rewrite H.
  rewrite <- (apply_patterns_text _ ps (paragraph_text para) []).
  destruct (apply_patterns _ ps _ []) as [t n]. now destruct para.
Qed.

(** C8. When some search key occurs in the cleaned text of a paragraph, the
    first run receives the whole new text, that is the raw text with the
    matching patterns substituted in rule order, and keeps its style; every
    other run keeps its style and gets the empty text; a paragraph without
    runs stays without runs. *)
Theorem process_paragraph_first_run para ps :
  existsb (fun p => contains (pat_key p) (clean_text (paragraph_text para))) ps
  = true ->
  fst (process_paragraph para ps)
  = match para with
    | [] => []
    | first :: others =>
        mkRun
          (substitute (matching (clean_text (paragraph_text para)) ps)
             (paragraph_text para))
          (run_style first)
        :: map (fun r => mkRun [] (run_style r)) others
    end.
Proof.
  intros H. rewrite (process_paragraph_matched _ _ H). now destruct para.
Qed.

(** The amended C10. A pattern whose key occurs in the cleaned text of the
    paragraph, but neither in its raw text nor in the working text that the
    earlier patterns have produced, changes nothing in the text: the first run
    receives what the other patterns alone produce and the other runs are
    emptied, while the counter of its rule is one more than without it. *)
Theorem stale_match_rewrites para (pre post : list pattern) (p : pattern) :
  let raw := paragraph_text para in
  let cleaned := clean_text raw in
  contains (pat_key p) cleaned = true ->
  contains (pat_key p) raw = false ->
  contains (pat_key p) (substitute (matching cleaned pre) raw) = false ->
  fst (process_paragraph para (pre ++ p :: post))
  = commit para (substitute (matching cleaned (pre ++ post)) raw)
  /\ count_of (pat_rule p) (snd (process_paragraph para (pre ++ p :: post)))
     = count_of (pat_rule p)
         (snd (apply_patterns cleaned (pre ++ post) raw [])) + 1.
Proof.
  intros raw cleaned Hc _ Hw.
  assert (Hk : existsb (fun q => contains (pat_key q) cleaned)
                 (pre ++ p :: post) = true).
  { rewrite existsb_app. simpl. fold cleaned. rewrite Hc.
    now rewrite orb_true_r. }
  unfold cleaned, raw in Hk. rewrite (process_paragraph_matched _ _ Hk).
  fold raw. fold cleaned. cbn [fst snd]. split.
  - f_equal. unfold matching, substitute. rewrite !filter_app. cbn [filter].
    rewrite Hc. rewrite !fold_left_app. cbn [fold_left]. f_equal.
    now apply replace_absent.
  - rewrite !apply_patterns_count. unfold hits, matching.
    rewrite !filter_app. cbn [filter]. rewrite Hc. cbn [filter].
    rewrite rule_eqb_refl. rewrite !length_app. cbn [List.length]. lia.
Qed.

End ParagraphFacts.

(** The example of the specification, with [false] for plain and [true] for
    bold: the runs 姓名： and 【姓名】 become 姓名：【李四】 and the empty
    text. *)
Lemma process_paragraph_first_run_witness :
  fst (@process_paragraph basic_unicode bool
         [mkRun (py "姓名：") false; mkRun (py "【姓名】") true]
         [(py "【姓名】", py "姓名", py "【姓名】", py "【李四】")])
  = [mkRun (py "姓名：【李四】") false; mkRun [] true].
Proof.
  exact (@process_paragraph_first_run basic_unicode bool
           [mkRun (py "姓名：") false; mkRun (py "【姓名】") true]
           [(py "【姓名】", py "姓名", py "【姓名】", py "【李四】")]
           eq_refl).
Defined.

(** C10 as it is stated: the raw text alone is required to lack the key. *)
Definition stale_match_claim : Prop :=
  forall (U : Unicode) (Style : Type) (para : list (Run Style))
         (pre post : list pattern) (p : pattern),
    let raw := paragraph_text para in
    let cleaned := clean_text raw in
    contains (pat_key p) cleaned = true ->
    contains (pat_key p) raw = false ->
    fst (process_paragraph para (pre ++ p :: post))
    = commit para (substitute (matching cleaned (pre ++ post)) raw)
    /\ count_of (pat_rule p) (snd (process_paragraph para (pre ++ p :: post)))
       = count_of (pat_rule p)
           (snd (apply_patterns cleaned (pre ++ post) raw [])) + 1.

(** The paragraph "a  b c" (two spaces) with the patterns c -> "a b" and
    "a b" -> Z: the second key is in the cleaned text "a b c" only, yet the
    first substitution has put it into the working text, where it is
    replaced. *)
Lemma stale_match_claim_fails : ~ stale_match_claim.
Proof.
  intros H.
  specialize (H basic_unicode unit [mkRun (py "a  b c") tt]
                [(py "c", py "k1", py "c", py "a b")] []
                (py "a b", py "k2", py "a b", py "Z") eq_refl eq_refl).
  destruct H as [H _]. vm_compute in H. discriminate H.
Qed.

Lemma stale_match_rewrites_witness :
  fst (@process_paragraph basic_unicode unit [mkRun (py "a  b c") tt]
         ([(py "c", py "k1", py "c", py "Z")]
            ++ (py "a b", py "k2", py "a b", py "Y") :: []))
  = commit [mkRun (py "a  b c") tt]
      (substitute
         (matching (@clean_text basic_unicode (py "a  b c"))
            ([(py "c", py "k1", py "c", py "Z")] ++ []))
         (py "a  b c"))
  /\ count_of (py "a b", py "k2")
       (snd (@process_paragraph basic_unicode unit [mkRun (py "a  b c") tt]
               ([(py "c", py "k1", py "c", py "Z")]
                  ++ (py "a b", py "k2", py "a b", py "Y") :: [])))
     = count_of (py "a b", py "k2")
         (snd (apply_patterns
                 (@clean_text basic_unicode (py "a  b c"))
                 ([(py "c", py "k1", py "c", py "Z")] ++ [])
                 (py "a  b c") [])) + 1.
Proof.
  exact (@stale_match_rewrites basic_unicode unit [mkRun (py "a  b c") tt]
           [(py "c", py "k1", py "c", py "Z")] []
           (py "a b", py "k2", py "a b", py "Y") eq_refl eq_refl eq_refl).
Defined.

(** ** The batch *)

Definition set_scope (st : session_state) (scope : str) : session_state :=
  {| replace_rules := replace_rules st;
     replaced_files := replaced_files st;
     replace_log := replace_log st;
     is_replacing := is_replacing st;
     replace_params := replace_params st;
     replace_scope := scope |}.

(** The rules whose column a row lacks. *)
Definition missing_column (row : Series) (rules : list rule) : Prop :=
  exists old col, In (old, col) rules /\ series_find col row = None.

Definition all_columns (row : Series) (rules : list rule) : Prop :=
  forall old col, In (old, col) rules -> series_find col row <> None.

Section BatchFacts.
Context {U : Unicode}.
Variable Style : Type.
Variable open_document : bytes -> result (Document Style).
Variable save_document : Document Style -> bytes.
Variable exn_text : exn -> str.
Variable hash_rules : list rule -> Z.

(** The document after the two passes of [replace_word_with_format], and the
    counters. *)
Definition mutate (doc : Document Style) (pats : list pattern)
  : Document Style * counts :=
  let '(ps, n1) := process_paragraphs Style (paragraphs Style doc) pats [] in
  let '(ts, n) := process_tables Style (tables Style doc) pats n1 in
  (mkDocument ps ts, n).

(** The file that the loop appends for the row [row] at index [i]. *)
Definition artifact (st : session_state) (word_file : UploadedFile)
    (file_name_col file_prefix file_suffix : str) (i : Z) (row : Series)
  : ReplacedFile :=
  let r := replace_word_with_format Style open_document save_document exn_text
             (replace_scope st) word_file row (replace_rules st) in
  mkReplacedFile
    (clean_filename
       (match make_filename row i file_name_col file_prefix file_suffix with
        | Ok name => name
        | Raise _ => []
        end))
    (fst r) i (snd r).

Definition keys_in (R : list rule) (d : counts) : Prop :=
  Forall (fun kc => In (fst kc) R) d.

Lemma keys_in_add (R : list rule) (k : rule) (n : Z) :
  forall d, In k R -> keys_in R d -> keys_in R (count_add k n d).
Proof.
  unfold keys_in. induction d as [|[k0 m] d IH]; intros Hk Hd; cbn [count_add].
  - constructor; [exact Hk | constructor].
  - inversion Hd as [|? ? H0 Hd']; subst.
    destruct (rule_eqb k0 k); constructor; auto.
Qed.

Lemma keys_in_merge (R : list rule) :
  forall b a, keys_in R a -> keys_in R b -> keys_in R (counts_merge a b).
Proof.
  unfold counts_merge.
  induction b as [|[k n] b IH]; intros a Ha Hb; [exact Ha|].
  inversion Hb as [|? ? H0 Hb']; subst. cbn [fold_left]. apply IH; trivial.
  now apply keys_in_add.
Qed.

Lemma keys_in_apply (cleaned : str) :
  forall (ps : list pattern) (t : str) (n : counts),
    keys_in (map pat_rule ps) n ->
    keys_in (map pat_rule ps) (snd (apply_patterns cleaned ps t n)).
Proof.
  assert (G : forall (R : list rule) (ps : list pattern) (t : str) (n : counts),
             incl (map pat_rule ps) R -> keys_in R n ->
             keys_in R (snd (apply_patterns cleaned ps t n))).
  { intros R. induction ps as [|p ps IH]; intros t n Hi Hn; [exact Hn|].
    cbn [apply_patterns].
    assert (Hi' : incl (map pat_rule ps) R)
      by (intros k Hk; apply Hi; right; exact Hk).
    destruct (contains (pat_key p) cleaned); apply IH; trivial.
    apply keys_in_add; trivial. apply Hi. left. reflexivity. }
  intros ps t n. apply G. apply incl_refl.
Qed.

Lemma keys_in_paragraph (para : Paragraph Style) (ps : list pattern) :
  keys_in (map pat_rule ps) (snd (process_paragraph para ps)).
Proof.
  unfold process_paragraph.
  destruct (existsb _ ps); [|constructor].
  pose proof (keys_in_apply (clean_text (paragraph_text para)) ps
                (paragraph_text para) [] (Forall_nil _)) as H.
  destruct (apply_patterns _ ps _ []) as [t n]. now destruct para.
Qed.

Lemma keys_in_paragraphs (pats : list pattern) :
  forall (ps : list (Paragraph Style)) (n : counts),
    keys_in (map pat_rule pats) n ->
    keys_in (map pat_rule pats) (snd (process_paragraphs Style ps pats n)).
Proof.
  induction ps as [|p ps IH]; intros n Hn; [exact Hn|].
  cbn [process_paragraphs].
  pose proof (keys_in_paragraph p pats) as Hp.
  destruct (process_paragraph p pats) as [p' c]. cbn [snd] in Hp.
  specialize (IH (counts_merge n c) (keys_in_merge _ _ _ Hn Hp)).
  now destruct (process_paragraphs Style ps pats (counts_merge n c)).
Qed.

Lemma keys_in_cells (pats : list pattern) :
  forall (cs : list (Cell Style)) (n : counts),
    keys_in (map pat_rule pats) n ->
    keys_in (map pat_rule pats) (snd (process_cells Style cs pats n)).
Proof.
  induction cs as [|c cs IH]; intros n Hn; [exact Hn|].
  cbn [process_cells].
  pose proof (keys_in_paragraphs pats c n Hn) as Hc.
  destruct (process_paragraphs Style c pats n) as [c' m]. cbn [snd] in Hc.
  specialize (IH m Hc). now destruct (process_cells Style cs pats m).
Qed.

Lemma keys_in_rows (pats : list pattern) :
  forall (rs : list (TableRow Style)) (n : counts),
    keys_in (map pat_rule pats) n ->
    keys_in (map pat_rule pats) (snd (process_rows Style rs pats n)).
Proof.
  induction rs as [|r rs IH]; intros n Hn; [exact Hn|].
  cbn [process_rows].
  pose proof (keys_in_cells pats r n Hn) as Hr.
  destruct (process_cells Style r pats n) as [r' m]. cbn [snd] in Hr.
  specialize (IH m Hr). now destruct (process_rows Style rs pats m).
Qed.

Lemma keys_in_tables (pats : list pattern) :
  forall (ts : list (Table Style)) (n : counts),
    keys_in (map pat_rule pats) n ->
    keys_in (map pat_rule pats) (snd (process_tables Style ts pats n)).
Proof.
  induction ts as [|t ts IH]; intros n Hn; [exact Hn|].
  cbn [process_tables].
  pose proof (keys_in_rows pats t n Hn) as Ht.
  destruct (process_rows Style t pats n) as [t' m]. cbn [snd] in Ht.
  specialize (IH m Ht). now destruct (process_tables Style ts pats m).
Qed.

Lemma keys_in_mutate (doc : Document Style) (pats : list pattern) :
  keys_in (map pat_rule pats) (snd (mutate doc pats)).
Proof.
  unfold mutate.
  pose proof (keys_in_paragraphs pats (paragraphs Style doc) []
                (Forall_nil _)) as H1.
  destruct (process_paragraphs Style _ pats []) as [ps n1]. cbn [snd] in H1.
  pose proof (keys_in_tables pats (tables Style doc) n1 H1) as H2.
  now destruct (process_tables Style _ pats n1).
Qed.

(** The patterns carry the rules they come from. *)
Lemma precompute_rules (scope : str) (row : Series) :
  forall (rules : list rule) (pats : list pattern),
    precompute_replace_patterns scope rules row = Ok pats ->
    map pat_rule pats = rules.
Proof.
  induction rules as [|[old col] rules IH]; intros pats H.
  - injection H as <-. reflexivity.
  - cbn [precompute_replace_patterns] in H.
    destruct (compile_rule scope row (old, col)) as [p|] eqn:Ep;
      [|discriminate].
    cbn [bind] in H.
    destruct (precompute_replace_patterns scope rules row) as [ps|] eqn:Eps;
      [|discriminate].
    cbn [bind] in H. injection H as <-. cbn [map]. f_equal; [|now apply IH].
    unfold compile_rule, series_get in Ep.
    destruct (series_find col row); [|discriminate]. cbn [bind] in Ep.
    repeat match type of Ep with
           | (if ?b then _ else _) = _ => destruct b
           end; injection Ep as <-; reflexivity.
Qed.

Lemma precompute_ok_iff (scope : str) (row : Series) :
  forall rules : list rule,
    (exists pats, precompute_replace_patterns scope rules row = Ok pats)
    <-> all_columns row rules.
Proof.
  unfold all_columns.
  induction rules as [|[old col] rules IH].
  - split; [intros _ ? ? [] | simpl; eauto].
  - cbn [precompute_replace_patterns]. split.
    + intros [pats H] old' col' [E | Hin].
      * injection E as <- <-. unfold compile_rule, series_get in H.
        destruct (series_find col row); [discriminate | discriminate H].
      * destruct (compile_rule scope row (old, col)); [|discriminate].
        cbn [bind] in H.
        destruct (precompute_replace_patterns scope rules row) eqn:E;
          [|discriminate].
        apply (proj1 IH (ex_intro _ _ eq_refl) old' col' Hin).
    + intros H.
      destruct (proj2 IH (fun o c Hin => H o c (or_intror Hin))) as [ps ->].
      assert (exists p, compile_rule scope row (old, col) = Ok p) as [p ->].
      { unfold compile_rule, series_get.
        destruct (series_find col row) eqn:E;
          [|exfalso; apply (H old col (or_introl eq_refl)); exact E].
        cbn [bind].
        repeat match goal with
               | |- context [if ?b then _ else _] => destruct b
               end; eauto. }
      simpl. eauto.
Qed.

Lemma log_lines_ok (row : Series) (rules : list rule) :
  all_columns row rules ->
  forall d : counts, keys_in rules d -> exists ls, log_lines row d = Ok ls.
Proof.
  intros Hall. induction d as [|[[old col] n] d IH]; intros Hd.
  - simpl. eauto.
  - inversion Hd as [|? ? H0 Hd']; subst. cbn [fst] in H0.
    destruct (IH Hd') as [ls Hls]. cbn [log_lines log_line]. unfold series_get.
    destruct (series_find col row) eqn:E;
      [|exfalso; apply (Hall old col H0); exact E].
    cbn [bind]. rewrite Hls. simpl. eauto.
Qed.

(** The first line of a success log opens with 替换成功, not with 替换失败. *)
Lemma log_lines_not_failed (row : Series) :
  forall (d : counts) (ls : list str),
    d <> [] -> log_lines row d = Ok ls ->
    startswith log_failed (join [10] ls) = false.
Proof.
  intros [|[[old col] n] d] ls Hd H; [congruence|].
  cbn [log_lines log_line] in H. unfold series_get in H.
  destruct (series_find col row); [|discriminate]. cbn [bind] in H.
  destruct (log_lines row d) as [ls'|]; [|discriminate]. cbn [bind] in H.
  injection H as <-. unfold log_failed. eval_py.
  destruct ls'; reflexivity.
Qed.

(** A row that lacks a rule column, or a template that does not open, gives
    the empty payload and the failure log. *)
Lemma replace_word_failed (scope : str) (word_file : UploadedFile)
    (row : Series) (rules : list rule) :
  missing_column row rules ->
  exists e,
    replace_word_with_format Style open_document save_document exn_text scope
      word_file row rules
    = ([], log_failed ++ exn_text e).
Proof.
  intros (old & col & Hin & Hnone).
  unfold replace_word_with_format, replace_word_body.
  destruct (open_document (getvalue word_file)) as [doc|e]; [|simpl; eauto].
  cbn [bind].
  destruct (precompute_replace_patterns scope rules row) as [pats|e] eqn:E;
    [|simpl; eauto].
  exfalso.
  apply (proj1 (precompute_ok_iff scope row rules) (ex_intro _ _ E) old col Hin).
  exact Hnone.
Qed.

(** A row that has every rule column, with a template that opens, gives the
    saved mutated document and a log that is not a failure log. *)
Lemma replace_word_normal (scope : str) (word_file : UploadedFile)
    (row : Series) (rules : list rule) (doc : Document Style) :
  all_columns row rules ->
  open_document (getvalue word_file) = Ok doc ->
  exists pats r,
    precompute_replace_patterns scope rules row = Ok pats
    /\ replace_word_with_format Style open_document save_document exn_text
         scope word_file row rules = r
    /\ fst r = save_document (fst (mutate doc pats))
    /\ startswith log_failed (snd r) = false.
Proof.
  intros Hall Hopen.
  destruct (proj2 (precompute_ok_iff scope row rules) Hall) as [pats Hp].
  exists pats. eexists. split; [exact Hp|]. split; [reflexivity|].
  unfold replace_word_with_format, replace_word_body.
  rewrite Hopen, Hp. cbn [bind].
  pose proof (keys_in_mutate doc pats) as Hk.
  rewrite (precompute_rules _ _ _ _ Hp) in Hk.
  unfold mutate in Hk |- *.
  destruct (process_paragraphs Style _ pats []) as [ps n1].
  destruct (process_tables Style _ pats n1) as [ts n]. cbn [fst snd] in Hk |- *.
  destruct n as [|kc n]; [split; reflexivity|].
  destruct (log_lines_ok row rules Hall _ Hk) as [ls Hls].
  rewrite Hls. cbn [bind fst snd]. split; [reflexivity|].
  eapply log_lines_not_failed; [|exact Hls]. discriminate.
Qed.

End BatchFacts.

Section RowLoop.
Context {U : Unicode}.
Variable Style : Type.
Variable open_document : bytes -> result (Document Style).
Variable save_document : Document Style -> bytes.
Variable exn_text : exn -> str.
Variable hash_rules : list rule -> Z.
Variable word_file : UploadedFile.
Variable excel_df : DataFrame.
Variables file_name_col file_prefix file_suffix : str.

Local Abbreviation n_rows := (Z.of_nat (List.length excel_df)).
Local Abbreviation run :=
  (run_replace Style open_document save_document exn_text hash_rules).
Local Abbreviation loop :=
  (row_loop Style open_document save_document exn_text).
Local Abbreviation file_of st :=
  (artifact Style open_document save_document exn_text st word_file
     file_name_col file_prefix file_suffix).

(** The row of index [i], for [0 <= i < n_rows]. *)
Definition row_at (i : Z) : Series := nth (Z.to_nat i) excel_df [].

Lemma iloc_in_range (i : Z) :
  0 <= i < n_rows -> iloc excel_df i = Ok (row_at i).
Proof.
  intros Hi. unfold iloc, row_at.
  replace (i <? 0) with false by (symmetry; apply Z.ltb_ge; lia).
  replace (0 <=? i) with true by (symmetry; apply Z.leb_le; lia).
  replace (i <? n_rows) with true by (symmetry; apply Z.ltb_lt; lia).
  cbn [andb].
  destruct (nth_error excel_df (Z.to_nat i)) as [row|] eqn:E.
  - now rewrite (nth_error_nth _ _ _ E).
  - apply nth_error_None in E. lia.
Qed.

Lemma make_filename_ok (row : Series) (i : Z) :
  exists name,
    make_filename row i file_name_col file_prefix file_suffix = Ok name.
Proof.
  unfold make_filename, series_has, series_get.
  destruct (truthy file_name_col); cbn [andb].
  - destruct (series_find file_name_col row); cbn [bind];
      destruct (truthy file_prefix), (truthy file_suffix); cbn [andb]; eauto.
  - destruct (truthy file_prefix), (truthy file_suffix); cbn [andb]; eauto.
Qed.

(** The loop over indices inside the frame never stops early: it appends one
    file per index, in order, and leaves rules and scope alone. *)
Lemma row_loop_in_range :
  forall (idxs : list Z) (st : session_state),
    Forall (fun i => 0 <= i < n_rows) idxs ->
    exists st',
      loop st word_file excel_df file_name_col file_prefix file_suffix idxs
      = (st', false)
      /\ replaced_files st'
         = replaced_files st ++ map (fun i => file_of st i (row_at i)) idxs
      /\ replace_rules st' = replace_rules st
      /\ replace_scope st' = replace_scope st
      /\ replace_params st' = replace_params st.
Proof.
  induction idxs as [|i idxs IH]; intros st Hall.
  - exists st. cbn [row_loop map]. rewrite app_nil_r. auto.
  - inversion Hall as [|? ? Hi Hall']; subst.
    cbn [row_loop]. unfold process_row. rewrite (iloc_in_range i Hi).
    cbn [bind].
    destruct (replace_word_with_format Style open_document save_document
                exn_text (replace_scope st) word_file (row_at i)
                (replace_rules st)) as [payload lg] eqn:Er.
    destruct (make_filename_ok (row_at i) i) as [name Hname].
    rewrite Hname. cbn [bind].
    match goal with
    | |- context [loop ?s _ _ _ _ _ idxs] =>
        destruct (IH s Hall') as (st' & Hl & Hf & Hr & Hs & Hp)
    end.
    exists st'. rewrite Hl. cbn [replaced_files replace_rules replace_scope
                                 replace_params] in Hf, Hr, Hs, Hp.
    repeat split; trivial.
    rewrite Hf, <- app_assoc. cbn [app map]. do 2 f_equal.
    unfold artifact. rewrite Er, Hname. reflexivity.
Qed.

Lemma zrange_bounds (a b : Z) :
  Forall (fun i => a <= i < b) (zrange a b).
Proof.
  unfold zrange. apply Forall_forall. intros i Hi.
  apply in_map_iff in Hi as (k & <- & Hk). apply in_seq in Hk. lia.
Qed.

Lemma zrange_length (a b : Z) :
  List.length (zrange a b) = Z.to_nat (b - a).
Proof. unfold zrange. now rewrite length_map, length_seq. Qed.

Lemma nth_error_map_Some {A B : Type} (f : A -> B) (l : list A) (k : nat)
    (y : B) :
  nth_error (map f l) k = Some y ->
  exists x, nth_error l k = Some x /\ f x = y.
Proof.
  rewrite nth_error_map. destruct (nth_error l k) as [x|]; [|discriminate].
  intros [= <-]. eauto.
Qed.

Lemma zrange_nth (a b : Z) (k : nat) (i : Z) :
  nth_error (zrange a b) k = Some i -> i = a + Z.of_nat k.
Proof.
  unfold zrange. intros H.
  apply nth_error_map_Some in H as (j & Hj & <-).
  assert (Hlt : (k < List.length (seq 0 (Z.to_nat (b - a))))%nat)
    by (apply nth_error_Some; congruence).
  rewrite length_seq in Hlt. rewrite nth_error_seq in Hj.
  apply Nat.ltb_lt in Hlt. rewrite Hlt in Hj. injection Hj as <-.
  reflexivity.
Qed.

(** The state after a click, for a start row of 1 or more. *)
Lemma run_replace_files (st : session_state) (start_row end_row : Z) :
  is_replacing st = false ->
  1 <= start_row ->
  replaced_files
    (run st word_file excel_df start_row end_row file_name_col file_prefix
       file_suffix)
  = map (fun i => file_of st i (row_at i))
      (zrange (start_row - 1) (Z.min end_row n_rows)).
Proof.
  intros Hr Hs. unfold run_replace. rewrite Hr.
  match goal with
  | |- context [loop ?s _ _ _ _ _ ?l] =>
      destruct (row_loop_in_range l s) as (st' & Hl & Hf & _)
  end.
  { eapply Forall_impl; [|apply zrange_bounds]. simpl. intros; lia. }
  rewrite Hl. cbn [replaced_files] in Hf |- *. rewrite Hf. reflexivity.
Qed.

(** C2 (what the code does).  The dictionary of [get_replace_params] has no
    entry for the scope: two states that differ in the scope alone have the
    same fingerprint, and [need_replace] answers the same for both. *)
Theorem fingerprint_ignores_scope (st : session_state) (s1 s2 : str)
    (wf : option UploadedFile) (df : option DataFrame) (start_row end_row : Z) :
  get_replace_params hash_rules (set_scope st s1) wf df start_row end_row
    file_name_col file_prefix file_suffix
  = get_replace_params hash_rules (set_scope st s2) wf df start_row end_row
      file_name_col file_prefix file_suffix
  /\ need_replace (set_scope st s1)
       (get_replace_params hash_rules (set_scope st s1) wf df start_row end_row
          file_name_col file_prefix file_suffix)
     = need_replace (set_scope st s2)
         (get_replace_params hash_rules (set_scope st s2) wf df start_row
            end_row file_name_col file_prefix file_suffix).
Proof. split; reflexivity. Qed.

(** The row indices of the files, as a list and one by one. *)
Lemma run_replace_indices (st : session_state) (start_row end_row : Z) :
  is_replacing st = false ->
  1 <= start_row ->
  let files :=
    replaced_files
      (run st word_file excel_df start_row end_row file_name_col file_prefix
         file_suffix) in
  map row_idx files = zrange (start_row - 1) (Z.min end_row n_rows)
  /\ Z.of_nat (List.length files)
     = Z.max 0 (Z.min end_row n_rows - start_row + 1)
  /\ (forall (k : nat) (f : ReplacedFile),
        nth_error files k = Some f -> row_idx f = start_row - 1 + Z.of_nat k).
Proof.
  intros Hr Hs files.
  assert (Hm : map row_idx files
               = zrange (start_row - 1) (Z.min end_row n_rows)).
  { unfold files. rewrite (run_replace_files st _ _ Hr Hs), map_map.
    cbn [artifact row_idx]. apply map_id. }
  split; [exact Hm|]. split.
  - rewrite <- (length_map row_idx), Hm, zrange_length. lia.
  - intros k f Hk. apply (zrange_nth _ (Z.min end_row n_rows)).
    rewrite <- Hm. now apply map_nth_error.
Qed.

(** C3. For a start row of 1 or more, the files are those of the indices
    [start_row - 1] up to [min end_row n_rows - 1], one per index and in that
    order: the [k]-th file has row index [start_row - 1 + k], the indices
    increase strictly along the list, and the list has
    [end_row - start_row + 1] entries whenever
    [start_row <= end_row <= n_rows].  These are the ranges that reach the
    loop: both row inputs of the page are bounded by the number of rows, and
    the button is disabled while the start row exceeds the end row. *)
Theorem batch_artifacts_in_order (st : session_state) (start_row end_row : Z) :
  is_replacing st = false ->
  1 <= start_row ->
  let files :=
    replaced_files
      (run st word_file excel_df start_row end_row file_name_col file_prefix
         file_suffix) in
  map row_idx files = zrange (start_row - 1) (Z.min end_row n_rows)
  /\ Z.of_nat (List.length files)
     = Z.max 0 (Z.min end_row n_rows - start_row + 1)
  /\ (start_row <= end_row <= n_rows ->
      Z.of_nat (List.length files) = end_row - start_row + 1)
  /\ (forall (k : nat) (f : ReplacedFile),
        nth_error files k = Some f -> row_idx f = start_row - 1 + Z.of_nat k)
  /\ (forall (j k : nat) (f g : ReplacedFile),
        (j < k)%nat -> nth_error files j = Some f ->
        nth_error files k = Some g -> row_idx f < row_idx g).
Proof.
  intros Hr Hs files.
  destruct (run_replace_indices st start_row end_row Hr Hs)
    as (Hm & Hlen & Hnth).
  repeat split; trivial.
  - intros Hb. unfold files. rewrite Hlen. lia.
  - intros j k f g Hjk Hf Hg. rewrite (Hnth _ _ Hf), (Hnth _ _ Hg). lia.
Qed.

(** C9. For a start row of 1 or more the list has one file per row of the
    clipped range, the [k]-th for the row of index [start_row - 1 + k].  A row
    that lacks the column of some rule gives a file with an empty payload and
    a log that opens with 替换失败; a row that has the columns of all rules
    gives, when the template opens, the saved mutated document and a log that
    does not open so.  No row stops the loop. *)
Theorem missing_column_fails_locally (st : session_state)
    (start_row end_row : Z) :
  is_replacing st = false ->
  1 <= start_row ->
  let st' :=
    run st word_file excel_df start_row end_row file_name_col file_prefix
      file_suffix in
  let files := replaced_files st' in
  Z.of_nat (List.length files) = Z.max 0 (Z.min end_row n_rows - start_row + 1)
  /\ replace_params st'
     = Some (get_replace_params hash_rules st (Some word_file) (Some excel_df)
               start_row end_row file_name_col file_prefix file_suffix)
  /\ forall (k : nat) (f : ReplacedFile),
       nth_error files k = Some f ->
       let row := row_at (start_row - 1 + Z.of_nat k) in
       row_idx f = start_row - 1 + Z.of_nat k
       /\ nth_error excel_df (Z.to_nat (start_row - 1 + Z.of_nat k)) = Some row
       /\ (missing_column row (replace_rules st) ->
           data f = []
           /\ exists e, log f = log_failed ++ exn_text e)
       /\ (all_columns row (replace_rules st) ->
           forall doc, open_document (getvalue word_file) = Ok doc ->
           exists pats,
             precompute_replace_patterns (replace_scope st) (replace_rules st)
               row = Ok pats
             /\ data f = save_document (fst (mutate Style doc pats))
             /\ startswith log_failed (log f) = false).
Proof.
  intros Hr Hs st' files.
  destruct (run_replace_indices st start_row end_row Hr Hs)
    as (Hm & Hlen & Hnth).
  split; [exact Hlen|]. split.
  { unfold st', run_replace. rewrite Hr.
    match goal with
    | |- context [loop ?s _ _ _ _ _ ?l] =>
        destruct (row_loop_in_range l s) as (s1 & Hl & _)
    end.
    { eapply Forall_impl; [|apply zrange_bounds]. simpl. intros; lia. }
    rewrite Hl. reflexivity. }
  intros k f Hk row.
  assert (Hidx := Hnth k f Hk).
  assert (Hkn : (k < List.length files)%nat)
    by (apply nth_error_Some; congruence).
  unfold files, st' in Hkn.
  assert (Hin : 0 <= start_row - 1 + Z.of_nat k < n_rows) by lia.
  assert (Hf : f = file_of st (start_row - 1 + Z.of_nat k) row).
  { unfold files, st' in Hk. rewrite (run_replace_files st _ _ Hr Hs) in Hk.
    apply nth_error_map_Some in Hk as (i & Hi & <-).
    apply zrange_nth in Hi. subst i. reflexivity. }
  split; [exact Hidx|]. split.
  { unfold row, row_at. apply nth_error_nth'. lia. }
  split.
  - intros Hmiss.
    destruct (replace_word_failed Style open_document save_document exn_text
                (replace_scope st) word_file row (replace_rules st) Hmiss)
      as [e He].
    rewrite Hf. unfold artifact. cbn [data log]. rewrite He. cbn [fst snd].
    eauto.
  - intros Hall doc Hdoc.
    destruct (replace_word_normal Style open_document save_document exn_text
                (replace_scope st) word_file row (replace_rules st) doc
                Hall Hdoc) as (pats & r & Hp & Hrw & Hd & Hl).
    exists pats. rewrite Hf. unfold artifact. cbn [data log]. rewrite Hrw.
    auto.
Qed.

End RowLoop.

(** ** A small session *)

(** A template with one paragraph, a text-only stand-in for the docx
    serialisation, and a sheet of three rows whose middle row has lost the
    column 姓名. *)
Module Demo.

Definition doc : Document bool :=
  mkDocument [[mkRun (py "姓名：") false; mkRun (py "【姓名】") true]] [].

Definition open_document (b : bytes) : result (Document bool) :=
  match b with
  | [] => Raise PackageError
  | _ :: _ => Ok doc
  end.

Definition save_document (d : Document bool) : bytes :=
  List.concat (map paragraph_text (paragraphs bool d)).

Definition exn_text (e : exn) : str :=
  match e with
  | KeyError k => k
  | _ => []
  end.

Definition hash_rules (rs : list rule) : Z := Z.of_nat (List.length rs).

Definition word_file : UploadedFile := mkUploaded (py "模板.docx") [80; 75].

Definition st : session_state :=
  mkState [(py "【姓名】", py "姓名")] [] [] false None scope_bracket.

Definition excel_df : DataFrame :=
  [[(py "姓名", py "张三")]; [(py "编号", py "2")]; [(py "姓名", py "李四")]].

Definition run (start_row end_row : Z) : session_state :=
  @run_replace basic_unicode bool open_document save_document exn_text
    hash_rules st word_file excel_df start_row end_row (py "姓名") [] [].

End Demo.

(** Rows 2 to 3 of the sheet: the files of the indices 1 and 2. *)
Lemma batch_artifacts_in_order_witness :
  map row_idx (replaced_files (Demo.run 2 3)) = [1; 2].
Proof.
  exact (proj1
           (@batch_artifacts_in_order basic_unicode bool Demo.open_document
              Demo.save_document Demo.exn_text Demo.hash_rules Demo.word_file
              Demo.excel_df (py "姓名") [] [] Demo.st 2 3 eq_refl
              (fun H : (1 ?= 2) = Gt => eq_ind Lt (fun c => match c with
                                                   | Lt => True
                                                   | _ => False
                                                   end) I Gt H))).
Defined.

(** The whole sheet: the middle file is the failed one, the others carry the
    saved document. *)
Lemma missing_column_fails_locally_witness :
  map (fun f => (row_idx f, data f)) (replaced_files (Demo.run 1 3))
  = [(0, py "姓名：【张三】"); (1, []); (2, py "姓名：【李四】")]
  /\ exists f,
       nth_error (replaced_files (Demo.run 1 3)) 1 = Some f
       /\ data f = []
       /\ startswith log_failed (log f) = true.
Proof.
  split; [vm_compute; reflexivity|].
  destruct (@missing_column_fails_locally basic_unicode bool
              Demo.open_document Demo.save_document Demo.exn_text
              Demo.hash_rules Demo.word_file Demo.excel_df (py "姓名") [] []
              Demo.st 1 3 eq_refl (Z.le_refl 1)) as (_ & _ & Hrows).
  eexists. split; [vm_compute; reflexivity|].
  destruct (Hrows 1%nat _ eq_refl) as (_ & _ & Hfail & _).
  destruct Hfail as [Hd [e He]].
  { exists (py "【姓名】"), (py "姓名"). split; [left|]; reflexivity. }
  split; [exact Hd|].
  pose proof (startswith_app log_failed (Demo.exn_text e)) as Hsw.
  rewrite <- He in Hsw. exact Hsw.
Defined.

(** ** Decimal digits *)

Lemma digits_fuel_acc (fuel : nat) :
  forall (n : Z) (acc : list Z),
    digits_fuel fuel n acc = digits_fuel fuel n [] ++ acc.
Proof.
  induction fuel as [|fuel IH]; intros n acc; cbn [digits_fuel].
  - reflexivity.
  - destruct (n <? 10); [reflexivity|].
    rewrite (IH _ (n mod 10 :: acc)), (IH _ [n mod 10]), <- app_assoc.
    reflexivity.
Qed.

Lemma digits_fuel_S (f : nat) (n : Z) (acc : list Z) :
  digits_fuel (S f) n acc
  = if n <? 10 then n :: acc else digits_fuel f (n / 10) (n mod 10 :: acc).
Proof. reflexivity. Qed.

(** Any fuel above the number of digits gives the same list. *)
Lemma digits_fuel_indep (f : nat) :
  forall (f' : nat) (n : Z),
    0 <= n < 10 ^ Z.of_nat (S f) -> 0 <= n < 10 ^ Z.of_nat (S f') ->
    digits_fuel (S f) n [] = digits_fuel (S f') n [].
Proof.
  induction f as [|f IH]; intros f' n Hf Hf'.
  - cbn [digits_fuel].
    replace (n <? 10) with true by (symmetry; apply Z.ltb_lt; simpl in Hf; lia).
    reflexivity.
  - rewrite (digits_fuel_S (S f)), (digits_fuel_S f').
    destruct (n <? 10) eqn:E; [reflexivity|].
    apply Z.ltb_ge in E.
    rewrite Nat2Z.inj_succ, Z.pow_succ_r in Hf, Hf' by lia.
    destruct f' as [|f']; [simpl in Hf'; lia|].
    rewrite (digits_fuel_acc (S f)), (digits_fuel_acc (S f')). f_equal.
    apply IH; (split; [apply Z.div_pos; lia|apply Z.div_lt_upper_bound; lia]).
Qed.

Lemma digits_fuel_enough (n : Z) :
  0 <= n -> n < 10 ^ Z.of_nat (S (Z.to_nat (Z.log2 n))).
Proof.
  intros Hn. rewrite Nat2Z.inj_succ, Z2Nat.id by apply Z.log2_nonneg.
  destruct (Z.eq_dec n 0) as [->|Hz]; [reflexivity|].
  apply Z.lt_le_trans with (2 ^ Z.succ (Z.log2 n)).
  - apply Z.log2_spec. lia.
  - apply Z.pow_le_mono_l. lia.
Qed.

Lemma digits_small (n : Z) : 0 <= n < 10 -> digits n = [n].
Proof.
  intros Hn. unfold digits. cbn [digits_fuel].
  now replace (n <? 10) with true by (symmetry; apply Z.ltb_lt; lia).
Qed.

Lemma digits_step (n : Z) :
  10 <= n -> digits n = digits (n / 10) ++ [n mod 10].
Proof.
  intros Hn. unfold digits at 1. cbn [digits_fuel].
  replace (n <? 10) with false by (symmetry; apply Z.ltb_ge; lia).
  rewrite digits_fuel_acc. f_equal. unfold digits.
  assert (Hq : 0 <= n / 10) by (apply Z.div_pos; lia).
  pose proof (digits_fuel_enough n ltac:(lia)) as H.
  destruct (Z.to_nat (Z.log2 n)) as [|k] eqn:Ek; [simpl in H; lia|].
  apply digits_fuel_indep; split; trivial.
  - rewrite Nat2Z.inj_succ, Z.pow_succ_r in H by lia.
    apply Z.div_lt_upper_bound; lia.
  - now apply digits_fuel_enough.
Qed.

(** Induction over the digits of a non-negative integer. *)
Lemma digits_ind (P : Z -> Prop) :
  (forall n, 0 <= n < 10 -> P n) ->
  (forall n, 10 <= n -> P (n / 10) -> P n) ->
  forall n, 0 <= n -> P n.
Proof.
  intros Hsmall Hstep n Hn. generalize Hn. pattern n.
  apply Z_lt_induction; [|exact Hn].
  intros x IH Hx. destruct (Z_lt_le_dec x 10) as [Hlt|Hge].
  - apply Hsmall. lia.
  - assert (Hq : 0 <= x / 10) by (apply Z.div_pos; lia).
    apply Hstep; [exact Hge|]. apply IH; [|exact Hq]. split; [exact Hq|].
    apply Z.div_lt; lia.
Qed.

Definition all_digits (ds : list Z) : Prop := Forall (fun d => 0 <= d <= 9) ds.

Lemma digits_range (n : Z) : 0 <= n -> all_digits (digits n).
Proof.
  unfold all_digits. revert n. apply digits_ind.
  - intros n Hn. rewrite digits_small by exact Hn. repeat constructor; lia.
  - intros n Hn IH. rewrite digits_step by exact Hn.
    apply Forall_app. split; [exact IH|].
    pose proof (Z.mod_pos_bound n 10). repeat constructor; lia.
Qed.

Lemma digits_value_from (ds : list Z) :
  forall a : Z,
    fold_left (fun a d => 10 * a + d) ds a
    = a * 10 ^ Z.of_nat (List.length ds) + digits_value ds.
Proof.
  unfold digits_value. induction ds as [|d ds IH]; intros a.
  - simpl. lia.
  - cbn [fold_left List.length]. rewrite IH, (IH (10 * 0 + d)).
    rewrite Nat2Z.inj_succ, Z.pow_succ_r by lia. ring.
Qed.

Lemma digits_value_app (a b : list Z) :
  digits_value (a ++ b)
  = digits_value a * 10 ^ Z.of_nat (List.length b) + digits_value b.
Proof.
  unfold digits_value at 1. rewrite fold_left_app.
  fold (digits_value a). apply digits_value_from.
Qed.

Lemma digits_value_zeros (j : nat) (ds : list Z) :
  digits_value (repeat 0 j ++ ds) = digits_value ds.
Proof.
  induction j as [|j IH]; [reflexivity|].
  cbn [repeat app]. unfold digits_value in *. exact IH.
Qed.

Lemma digits_value_digits (n : Z) : 0 <= n -> digits_value (digits n) = n.
Proof.
  revert n. apply digits_ind.
  - intros n Hn. rewrite digits_small by exact Hn. unfold digits_value.
    simpl. lia.
  - intros n Hn IH. rewrite digits_step by exact Hn.
    rewrite digits_value_app, IH. cbn [List.length].
    change (digits_value [n mod 10]) with (10 * 0 + n mod 10).
    pose proof (Z.div_mod n 10). change (10 ^ Z.of_nat 1) with 10. lia.
Qed.

Lemma digits_value_bound (ds : list Z) :
  all_digits ds -> 0 <= digits_value ds < 10 ^ Z.of_nat (List.length ds).
Proof.
  unfold all_digits. induction ds as [|d ds IH] using rev_ind; intros H.
  - simpl. unfold digits_value. simpl. lia.
  - apply Forall_app in H as [H1 H2]. inversion H2 as [|? ? Hd _]; subst.
    specialize (IH H1). rewrite digits_value_app, length_app.
    cbn [List.length]. change (digits_value [d]) with (10 * 0 + d).
    rewrite Nat2Z.inj_add, Z.pow_add_r by lia.
    change (10 ^ Z.of_nat 1) with 10. lia.
Qed.

Lemma ndigits_pos (n : Z) : 1 <= ndigits n.
Proof.
  unfold ndigits, digits. rewrite digits_fuel_S.
  destruct (n <? 10); [simpl; lia|].
  rewrite digits_fuel_acc, length_app. cbn [List.length]. lia.
Qed.

(** A positive integer of [k] digits lies in [[10^(k-1), 10^k)]. *)
Lemma ndigits_bounds (n : Z) :
  0 < n -> 10 ^ (ndigits n - 1) <= n < 10 ^ ndigits n.
Proof.
  intros Hn. assert (H0 : 0 <= n) by lia. revert n H0 Hn.
  unfold ndigits. apply (digits_ind (fun n => 0 < n -> _)).
  - intros n Hn Hp. rewrite digits_small by exact Hn. simpl. lia.
  - intros n Hn IH _. rewrite digits_step by exact Hn.
    assert (Hq : 0 < n / 10) by (apply Z.div_str_pos; lia).
    specialize (IH Hq). rewrite length_app. cbn [List.length].
    rewrite Nat2Z.inj_add. change (Z.of_nat 1) with 1.
    set (k := Z.of_nat (List.length (digits (n / 10)))) in *.
    assert (Hk : 1 <= k) by apply ndigits_pos.
    replace (k + 1 - 1) with (Z.succ (k - 1)) by lia.
    replace (k + 1) with (Z.succ k) by lia.
    rewrite !Z.pow_succ_r by lia.
    pose proof (Z.div_mod n 10). pose proof (Z.mod_pos_bound n 10). lia.
Qed.

Lemma ndigits_unique (n k : Z) :
  10 ^ (k - 1) <= n < 10 ^ k -> 1 <= k -> ndigits n = k.
Proof.
  intros Hn Hk.
  assert (Hp : 0 < n).
  { assert (0 < 10 ^ (k - 1)) by (apply Z.pow_pos_nonneg; lia). lia. }
  pose proof (ndigits_bounds n Hp) as Hb. pose proof (ndigits_pos n) as H1.
  destruct (Z.lt_trichotomy (ndigits n) k) as [Hlt|[Heq|Hgt]]; trivial; exfalso.
  - assert (10 ^ ndigits n <= 10 ^ (k - 1))
      by (apply Z.pow_le_mono_r; lia). lia.
  - assert (10 ^ k <= 10 ^ (ndigits n - 1))
      by (apply Z.pow_le_mono_r; lia). lia.
Qed.

Lemma ndigits_le (n k : Z) : 0 <= n < 10 ^ k -> 1 <= k -> ndigits n <= k.
Proof.
  intros Hn Hk. destruct (Z.eq_dec n 0) as [->|Hz]; [exact Hk|].
  pose proof (ndigits_bounds n ltac:(lia)) as Hb.
  pose proof (ndigits_pos n) as H1.
  destruct (Z_lt_le_dec k (ndigits n)) as [Hlt|]; [exfalso|assumption].
  assert (10 ^ k <= 10 ^ (ndigits n - 1)) by (apply Z.pow_le_mono_r; lia).
  lia.
Qed.

Lemma digits_mul10 (n : Z) : 0 < n -> digits (n * 10) = digits n ++ [0].
Proof.
  intros Hn. rewrite digits_step by lia.
  now rewrite Z.div_mul, Z.mod_mul by lia.
Qed.

Lemma digits_mul_pow10 (n : Z) (j : nat) :
  0 < n -> digits (n * 10 ^ Z.of_nat j) = digits n ++ repeat 0 j.
Proof.
  intros Hn. induction j as [|j IH].
  - simpl. now rewrite Z.mul_1_r, app_nil_r.
  - rewrite Nat2Z.inj_succ, Z.pow_succ_r by lia.
    replace (n * (10 * 10 ^ Z.of_nat j)) with (n * 10 ^ Z.of_nat j * 10) by ring.
    rewrite digits_mul10.
    + rewrite IH, <- app_assoc. f_equal.
      change [0] with (repeat 0 1). rewrite <- repeat_app.
      f_equal. lia.
    + apply Z.mul_pos_pos; [exact Hn|]. apply Z.pow_pos_nonneg; lia.
Qed.

Lemma ndigits_mul_pow10 (n j : Z) :
  0 < n -> 0 <= j -> ndigits (n * 10 ^ j) = ndigits n + j.
Proof.
  intros Hn Hj. unfold ndigits. rewrite <- (Z2Nat.id j) at 1 by exact Hj.
  rewrite digits_mul_pow10 by exact Hn.
  rewrite length_app, repeat_length, Nat2Z.inj_add, Z2Nat.id by exact Hj.
  reflexivity.
Qed.

(** ** Stripping *)

Lemma lstrip_by_head (f : char -> bool) (c : char) (s : str) :
  f c = false -> lstrip_by f (c :: s) = c :: s.
Proof. intros H. cbn [lstrip_by]. now rewrite H. Qed.

Lemma lstrip_by_idem (f : char -> bool) (s : str) :
  lstrip_by f (lstrip_by f s) = lstrip_by f s.
Proof.
  induction s as [|c s IH]; [reflexivity|]. cbn [lstrip_by].
  destruct (f c) eqn:E; [exact IH|]. now apply lstrip_by_head.
Qed.

Lemma rstrip_by_idem (f : char -> bool) (s : str) :
  rstrip_by f (rstrip_by f s) = rstrip_by f s.
Proof.
  unfold rstrip_by. now rewrite rev_involutive, lstrip_by_idem.
Qed.

(** [rstrip] leaves a string alone when its last character stays. *)
Lemma rstrip_by_last (f : char -> bool) (s : str) (c : char) :
  f c = false -> rstrip_by f (s ++ [c]) = s ++ [c].
Proof.
  intros H. unfold rstrip_by. rewrite rev_app_distr. cbn [rev app].
  rewrite lstrip_by_head by exact H. cbn [rev]. now rewrite rev_involutive.
Qed.

Lemma rstrip_by_drop (f : char -> bool) (s : str) (c : char) :
  f c = true -> rstrip_by f (s ++ [c]) = rstrip_by f s.
Proof.
  intros H. unfold rstrip_by. rewrite rev_app_distr. cbn [rev app lstrip_by].
  now rewrite H.
Qed.

(** What [rstrip] returns is empty or ends with a character that stays. *)
Lemma rstrip_by_spec (f : char -> bool) (s : str) :
  rstrip_by f s = []
  \/ exists t c, rstrip_by f s = t ++ [c] /\ f c = false.
Proof.
  induction s as [|c s IH] using rev_ind; [now left|].
  destruct (f c) eqn:E.
  - now rewrite rstrip_by_drop.
  - right. exists s, c. split; [now apply rstrip_by_last | exact E].
Qed.

(** [rstrip] keeps a first character that stays. *)
Lemma rstrip_by_cons (f : char -> bool) (c : char) (s : str) :
  f c = false -> exists t, rstrip_by f (c :: s) = c :: t.
Proof.
  intros H. induction s as [|d s IH] using rev_ind.
  - exists []. apply (rstrip_by_last f [] c H).
  - destruct (f d) eqn:E.
    + change (c :: s ++ [d]) with ((c :: s) ++ [d]).
      now rewrite rstrip_by_drop.
    + exists (s ++ [d]). change (c :: s ++ [d]) with ((c :: s) ++ [d]).
      now apply rstrip_by_last.
Qed.

Lemma lstrip_by_spec (f : char -> bool) (s : str) :
  lstrip_by f s = [] \/ exists c t, lstrip_by f s = c :: t /\ f c = false.
Proof.
  induction s as [|c s IH]; [now left|]. cbn [lstrip_by].
  destruct (f c) eqn:E; [exact IH|]. right. eauto.
Qed.

Lemma strip_by_idem (f : char -> bool) (s : str) :
  strip_by f (strip_by f s) = strip_by f s.
Proof.
  unfold strip_by.
  destruct (lstrip_by_spec f s) as [E | (c & t & E & Hc)]; rewrite E.
  - reflexivity.
  - destruct (rstrip_by_cons f c t Hc) as [t' Ht]. rewrite Ht.
    rewrite lstrip_by_head by exact Hc. rewrite <- Ht.
    apply rstrip_by_idem.
Qed.

(** A string whose first and last characters stay is its own [strip]. *)
Lemma strip_by_id (f : char -> bool) (c d : char) (s : str) :
  f c = false -> f d = false -> strip_by f (c :: s ++ [d]) = c :: s ++ [d].
Proof.
  intros Hc Hd. unfold strip_by. rewrite lstrip_by_head by exact Hc.
  change (c :: s ++ [d]) with ((c :: s) ++ [d]). now apply rstrip_by_last.
Qed.

Lemma strip_by_id1 (f : char -> bool) (c : char) :
  f c = false -> strip_by f [c] = [c].
Proof.
  intros Hc. unfold strip_by. rewrite lstrip_by_head by exact Hc.
  apply (rstrip_by_last f [] c Hc).
Qed.

(** ** Literals under any character database *)

(** The sign of a printed number. *)
Definition minus (s : bool) : str := if s then [45] else [].

Section LiteralFacts.
Context {U : Unicode}.

Lemma todecimal_digit (d : Z) :
  0 <= d <= 9 -> todecimal (digit_char d) = Some d.
Proof.
  intros Hd. unfold digit_char. rewrite todecimal_ascii by (red; lia).
  unfold ascii_isdigit.
  replace (48 <=? 48 + d) with true by (symmetry; apply Z.leb_le; lia).
  replace (48 + d <=? 57) with true by (symmetry; apply Z.leb_le; lia).
  cbn [andb]. f_equal. lia.
Qed.

Lemma isspace_digit (d : Z) : 0 <= d <= 9 -> isspace (digit_char d) = false.
Proof.
  intros Hd. unfold digit_char. rewrite isspace_ascii by (red; lia).
  unfold ascii_isspace.
  replace (48 + d <=? 13) with false by (symmetry; apply Z.leb_gt; lia).
  replace (48 + d <=? 32) with false by (symmetry; apply Z.leb_gt; lia).
  now rewrite !andb_false_r.
Qed.

Lemma isdigit_digit (d : Z) : 0 <= d <= 9 -> isdigit (digit_char d) = true.
Proof.
  intros Hd. unfold digit_char. rewrite isdigit_ascii by (red; lia).
  unfold ascii_isdigit. apply andb_true_iff. split; apply Z.leb_le; lia.
Qed.

Lemma is_sign_digit (d : Z) : 0 <= d <= 9 -> is_sign (digit_char d) = false.
Proof.
  intros Hd. unfold is_sign, digit_char. apply orb_false_iff.
  split; apply Z.eqb_neq; lia.
Qed.

(** The minus sign, the plus sign and the point are neither whitespace nor
    digits. *)
Lemma punct_facts (c : char) :
  c = 45 \/ c = 43 \/ c = 46 ->
  isspace c = false /\ isdigit c = false /\ todecimal c = None.
Proof.
  intros Hc.
  assert (Ha : is_ascii c) by (red; lia).
  rewrite isspace_ascii, isdigit_ascii, todecimal_ascii by exact Ha.
  destruct Hc as [-> | [-> | ->]]; repeat split; reflexivity.
Qed.

(** Where a run of decimal digits ends. *)
Definition stops (rest : str) : Prop :=
  match rest with
  | [] => True
  | c :: _ => todecimal c = None
  end.

Lemma span_digits_chars (ds : list Z) (rest : str) :
  all_digits ds -> stops rest ->
  span_digits (map digit_char ds ++ rest) = (ds, rest).
Proof.
  intros Hds Hrest. induction Hds as [|d ds Hd _ IH]; cbn [map app].
  - destruct rest as [|c rest]; [reflexivity|]. cbn [span_digits].
    now rewrite Hrest.
  - cbn [span_digits]. rewrite (todecimal_digit d Hd), IH. reflexivity.
Qed.

Lemma span_digits_all (ds : list Z) :
  all_digits ds -> span_digits (map digit_char ds) = (ds, []).
Proof.
  intros H. rewrite <- (app_nil_r (map digit_char ds)).
  now apply span_digits_chars.
Qed.

Lemma skip_sign_minus (s : bool) (x : str) :
  match x with
  | [] => True
  | c :: _ => is_sign c = false
  end ->
  skip_sign (minus s ++ x) = x.
Proof.
  intros Hx. destruct s; cbn [minus app skip_sign].
  - reflexivity.
  - destruct x as [|c x]; [reflexivity|]. cbn [skip_sign]. now rewrite Hx.
Qed.

Lemma sign_of_minus (s : bool) (x : str) :
  match x with
  | [] => True
  | c :: _ => c <> 45
  end ->
  match minus s ++ x with 45 :: _ => true | _ => false end = s.
Proof.
  intros Hx. destruct s; cbn [minus app]; [reflexivity|].
  destruct x as [|c x]; [reflexivity|].
  destruct (Z.eq_dec c 45) as [->|Hne]; [contradiction|].
  destruct c as [|p|p]; trivial.
  do 6 (destruct p as [p|p|]; trivial). congruence.
Qed.

(** A printed fraction: sign, integer digits, point, fraction digits. *)
Definition frac_text (s : bool) (ip fp : list Z) : str :=
  minus s ++ map digit_char ip ++ 46 :: map digit_char fp.

(** A printed integer. *)
Definition int_text (s : bool) (ip : list Z) : str :=
  minus s ++ map digit_char ip.

Lemma head_digits_or_point (ip : list Z) (rest : str) :
  all_digits ip ->
  match map digit_char ip ++ 46 :: rest with
  | [] => True
  | c :: _ => is_sign c = false /\ c <> 45 /\ isspace c = false
  end.
Proof.
  intros H. destruct H as [|d ip Hd _]; cbn [map app].
  - repeat split; [lia | apply (punct_facts 46); auto].
  - repeat split.
    + now apply is_sign_digit.
    + unfold digit_char. lia.
    + now apply isspace_digit.
Qed.

Lemma parse_frac_text (s : bool) (ip fp : list Z) :
  all_digits ip -> all_digits fp -> fp <> [] ->
  parse_literal (frac_text s ip fp)
  = Ok (Dec.mk s (digits_value (ip ++ fp)) (- Z.of_nat (List.length fp))).
Proof.
  intros Hi Hf Hne. unfold parse_literal, frac_text.
  pose proof (head_digits_or_point ip (map digit_char fp) Hi) as Hh.
  rewrite sign_of_minus, skip_sign_minus
    by (destruct (map digit_char ip ++ 46 :: map digit_char fp); tauto).
  rewrite span_digits_chars
    by (trivial; cbn [stops]; apply (punct_facts 46); auto).
  rewrite span_digits_all by exact Hf.
  destruct (ip ++ fp) eqn:E; [|reflexivity].
  apply app_eq_nil in E as [_ E]. contradiction.
Qed.

Lemma match_frac_text (s : bool) (ip fp : list Z) :
  all_digits ip -> all_digits fp -> fp <> [] ->
  float_pattern_match (frac_text s ip fp) = true.
Proof.
  intros Hi Hf Hne. unfold float_pattern_match, frac_text.
  pose proof (head_digits_or_point ip (map digit_char fp) Hi) as Hh.
  assert (Hl : lstrip_by isspace
                 (minus s ++ map digit_char ip ++ 46 :: map digit_char fp)
               = minus s ++ map digit_char ip ++ 46 :: map digit_char fp).
  { destruct s; cbn [minus app].
    - apply lstrip_by_head. apply (punct_facts 45). auto.
    - destruct (map digit_char ip ++ 46 :: map digit_char fp);
        [reflexivity|]. apply lstrip_by_head. tauto. }
  rewrite Hl, skip_sign_minus
    by (destruct (map digit_char ip ++ 46 :: map digit_char fp); tauto).
  rewrite span_digits_chars
    by (trivial; cbn [stops]; apply (punct_facts 46); auto).
  rewrite span_digits_all by exact Hf.
  destruct fp; [contradiction | reflexivity].
Qed.

Lemma not_isdigit_with (a b : str) (c : char) :
  isdigit c = false -> str_isdigit (a ++ c :: b) = false.
Proof.
  intros H. unfold str_isdigit. rewrite forallb_app. cbn [forallb].
  rewrite H. cbn [andb]. now rewrite !andb_false_r.
Qed.

Lemma isdigit_frac_text (s : bool) (ip fp : list Z) :
  str_isdigit (frac_text s ip fp) = false.
Proof.
  unfold frac_text. rewrite app_assoc. apply not_isdigit_with.
  apply (punct_facts 46). auto.
Qed.

Lemma truthy_frac_text (s : bool) (ip fp : list Z) :
  truthy (frac_text s ip fp) = true.
Proof. unfold frac_text. destruct s, ip; reflexivity. Qed.

(** A printed fraction with a digit before the point is its own [strip]. *)
Lemma strip_frac_text (s : bool) (ip fp : list Z) :
  all_digits ip -> all_digits fp -> fp <> [] ->
  strip_by isspace (frac_text s ip fp) = frac_text s ip fp.
Proof.
  intros Hi Hf Hne.
  destruct (exists_last Hne) as (fp' & d & ->).
  apply Forall_app in Hf as [_ Hd]. inversion Hd as [|? ? Hd' _]; subst.
  pose proof (head_digits_or_point ip (map digit_char (fp' ++ [d])) Hi) as Hh.
  unfold frac_text. rewrite map_app. cbn [map].
  assert (E : exists c t,
             minus s ++ map digit_char ip ++ 46 :: map digit_char fp'
             = c :: t /\ isspace c = false).
  { destruct s; cbn [minus app].
    - eexists _, _. split; [reflexivity|]. apply (punct_facts 45). auto.
    - rewrite map_app in Hh. cbn [map] in Hh.
      destruct (map digit_char ip) as [|c t]; cbn [app] in Hh |- *.
      + eexists _, _. split; [reflexivity | tauto].
      + eexists _, _. split; [reflexivity | tauto]. }
  destruct E as (c & t & E & Hc).
  replace (minus s ++ map digit_char ip
             ++ 46 :: map digit_char fp' ++ [digit_char d])
    with ((minus s ++ map digit_char ip ++ 46 :: map digit_char fp')
            ++ [digit_char d])
    by (rewrite <- !app_assoc; reflexivity).
  rewrite E. apply strip_by_id; [exact Hc | now apply isspace_digit].
Qed.

Lemma parse_int_text (s : bool) (ip : list Z) :
  all_digits ip -> ip <> [] ->
  parse_literal (int_text s ip) = Ok (Dec.mk s (digits_value ip) 0).
Proof.
  intros Hi Hne. unfold parse_literal, int_text.
  assert (Hh : match map digit_char ip with
               | [] => True
               | c :: _ => is_sign c = false /\ c <> 45
               end).
  { destruct Hi as [|d ip Hd _]; cbn [map]; [trivial|].
    split; [now apply is_sign_digit | unfold digit_char; lia]. }
  rewrite sign_of_minus, skip_sign_minus
    by (destruct (map digit_char ip); tauto).
  rewrite span_digits_all by exact Hi.
  destruct ip; [contradiction | reflexivity].
Qed.

Lemma match_int_text (s : bool) (ip : list Z) :
  all_digits ip -> ip <> [] ->
  float_pattern_match (int_text s ip) = true.
Proof.
  intros Hi Hne. unfold float_pattern_match, int_text.
  assert (Hh : match map digit_char ip with
               | [] => True
               | c :: _ => is_sign c = false /\ isspace c = false
               end).
  { destruct Hi as [|d ip Hd _]; cbn [map]; [trivial|].
    split; [now apply is_sign_digit | now apply isspace_digit]. }
  assert (Hl : lstrip_by isspace (minus s ++ map digit_char ip)
               = minus s ++ map digit_char ip).
  { destruct s; cbn [minus app].
    - apply lstrip_by_head. apply (punct_facts 45). auto.
    - destruct (map digit_char ip); [reflexivity|].
      apply lstrip_by_head. tauto. }
  rewrite Hl, skip_sign_minus by (destruct (map digit_char ip); tauto).
  rewrite span_digits_all by exact Hi.
  destruct ip; [contradiction | reflexivity].
Qed.

Lemma strip_int_text (s : bool) (ip : list Z) :
  all_digits ip -> ip <> [] ->
  strip_by isspace (int_text s ip) = int_text s ip.
Proof.
  intros Hi Hne. unfold int_text.
  destruct (exists_last Hne) as (ip' & d & ->).
  apply Forall_app in Hi as [Hi' Hd]. inversion Hd as [|? ? Hd' _]; subst.
  rewrite map_app. cbn [map].
  destruct s; cbn [minus app].
  - apply strip_by_id; [apply (punct_facts 45); auto | now apply isspace_digit].
  - destruct Hi' as [|d0 ip' Hd0 _]; cbn [map app].
    + apply strip_by_id1. now apply isspace_digit.
    + apply strip_by_id; now apply isspace_digit.
Qed.

Lemma isdigit_int_text (ip : list Z) :
  all_digits ip -> ip <> [] -> str_isdigit (int_text false ip) = true.
Proof.
  intros Hi Hne. unfold str_isdigit, int_text. cbn [minus app].
  apply andb_true_iff. split.
  - destruct ip; [contradiction | reflexivity].
  - apply forallb_forall. intros c Hc. apply in_map_iff in Hc as (d & <- & Hd).
    apply isdigit_digit. unfold all_digits in Hi.
    rewrite Forall_forall in Hi. auto.
Qed.

End LiteralFacts.

(** ** The shape of a printed fixed-point number *)

(** The last [p] decimal digits of [c], zero-padded. *)
Fixpoint frac_digits (c : Z) (p : nat) : list Z :=
  match p with
  | O => []
  | S p' => frac_digits (c / 10) p' ++ [c mod 10]
  end.

Lemma frac_digits_length (p : nat) :
  forall c, List.length (frac_digits c p) = p.
Proof.
  induction p as [|p IH]; intros c; cbn [frac_digits]; [reflexivity|].
  rewrite length_app, IH. cbn [List.length]. lia.
Qed.

Lemma frac_digits_range (p : nat) : forall c, all_digits (frac_digits c p).
Proof.
  unfold all_digits.
  induction p as [|p IH]; intros c; cbn [frac_digits]; [constructor|].
  apply Forall_app. split; [apply IH|].
  pose proof (Z.mod_pos_bound c 10). repeat constructor; lia.
Qed.

Lemma frac_digits_value (p : nat) :
  forall c, digits_value (frac_digits c p) = c mod 10 ^ Z.of_nat p.
Proof.
  induction p as [|p IH]; intros c; cbn [frac_digits].
  - simpl. now rewrite Z.mod_1_r.
  - rewrite digits_value_app, IH. cbn [List.length].
    change (digits_value [c mod 10]) with (10 * 0 + c mod 10).
    change (10 ^ Z.of_nat 1) with 10.
    rewrite Nat2Z.inj_succ, Z.pow_succ_r by lia.
    assert (Hp : 0 < 10 ^ Z.of_nat p) by (apply Z.pow_pos_nonneg; lia).
    rewrite Z.rem_mul_r by lia. lia.
Qed.

(** The digits of [c], zero-padded on the left to [p + 1] digits, are the
    digits of [c / 10^p] followed by the last [p] digits. *)
Lemma padded_digits_split (p : nat) :
  forall c, 0 <= c ->
    repeat 0 (S p - List.length (digits c)) ++ digits c
    = digits (c / 10 ^ Z.of_nat p) ++ frac_digits c p.
Proof.
  induction p as [|p IH]; intros c Hc.
  - cbn [frac_digits]. rewrite Z.div_1_r, app_nil_r.
    pose proof (ndigits_pos c) as H. unfold ndigits in H.
    replace (1 - List.length (digits c))%nat with O by lia. reflexivity.
  - cbn [frac_digits]. rewrite Nat2Z.inj_succ, Z.pow_succ_r by lia.
    rewrite <- Z.div_div by (try apply Z.pow_pos_nonneg; lia).
    rewrite app_assoc, <- IH by (apply Z.div_pos; lia).
    destruct (Z_lt_le_dec c 10) as [Hlt|Hge].
    + rewrite (digits_small c) by lia.
      rewrite Z.div_small, Z.mod_small by lia.
      rewrite (digits_small 0) by lia. cbn [List.length].
      replace (S (S p) - 1)%nat with (S p) by lia.
      replace (S p - 1)%nat with p by lia.
      rewrite <- app_assoc. cbn [app].
      change [0; c] with ([0] ++ [c]). rewrite app_assoc. f_equal.
      change [0] with (repeat 0 1). rewrite <- repeat_app. f_equal. lia.
    + rewrite (digits_step c Hge), length_app, <- app_assoc, app_assoc.
      cbn [List.length]. rewrite <- app_assoc. f_equal. f_equal. lia.
Qed.

Lemma fixed_point_int (s : bool) (c : Z) :
  fixed_point s c 0 = int_text s (digits c).
Proof.
  unfold fixed_point, int_text.
  change (Z.to_nat (0 + 1)) with 1%nat. change (Z.to_nat 0) with 0%nat.
  change (0 >? 0) with false.
  pose proof (ndigits_pos c) as H. unfold ndigits in H.
  replace (1 - List.length (digits c))%nat with O by lia. cbn [repeat app].
  rewrite Nat.sub_0_r, firstn_all, app_nil_r. reflexivity.
Qed.

Lemma fixed_point_frac (s : bool) (c : Z) (p : nat) :
  0 <= c ->
  fixed_point s c (Z.of_nat (S p))
  = frac_text s (digits (c / 10 ^ Z.of_nat (S p))) (frac_digits c (S p)).
Proof.
  intros Hc. unfold fixed_point, frac_text.
  replace (Z.to_nat (Z.of_nat (S p) + 1)) with (S (S p)) by lia.
  rewrite Nat2Z.id, (padded_digits_split (S p) c Hc).
  rewrite length_app, frac_digits_length.
  replace (List.length (digits (c / 10 ^ Z.of_nat (S p))) + S p - S p)%nat
    with (List.length (digits (c / 10 ^ Z.of_nat (S p))) + 0)%nat by lia.
  rewrite firstn_app_2, skipn_app. cbn [firstn]. rewrite app_nil_r.
  rewrite Nat.add_0_r, skipn_all, Nat.sub_diag. cbn [app skipn].
  replace (Z.of_nat (S p) >? 0) with true by (symmetry; apply Z.gtb_lt; lia).
  reflexivity.
Qed.

(** The digit lists that [frac_digits] returns. *)
Lemma frac_digits_of_value (fp : list Z) :
  all_digits fp ->
  forall a, frac_digits (a * 10 ^ Z.of_nat (List.length fp) + digits_value fp)
              (List.length fp) = fp.
Proof.
  unfold all_digits. induction fp as [|d fp IH] using rev_ind; intros H a.
  - reflexivity.
  - apply Forall_app in H as [H1 H2]. inversion H2 as [|? ? Hd _]; subst.
    rewrite length_app. cbn [List.length].
    replace (List.length fp + 1)%nat with (S (List.length fp)) by lia.
    cbn [frac_digits]. rewrite digits_value_app. cbn [List.length].
    change (digits_value [d]) with (10 * 0 + d).
    change (10 ^ Z.of_nat 1) with 10.
    rewrite Nat2Z.inj_succ, Z.pow_succ_r by lia.
    set (q := 10 ^ Z.of_nat (List.length fp)).
    replace (a * (10 * q) + (digits_value fp * 10 + (10 * 0 + d)))
      with (d + (a * q + digits_value fp) * 10) by ring.
    rewrite Z.div_add, Z.mod_add by lia.
    rewrite Z.div_small, Z.mod_small by lia.
    rewrite Z.add_0_l. f_equal. apply IH. exact H1.
Qed.

(** Trailing zeros of a fraction, as digit values. *)
Definition strip_zero_digits (fp : list Z) : list Z := rstrip_by (Z.eqb 0) fp.

Lemma rstrip_zero_chars (a : str) (fp : list Z) :
  all_digits fp ->
  rstrip_char 48 (a ++ 46 :: map digit_char fp)
  = a ++ 46 :: map digit_char (strip_zero_digits fp).
Proof.
  unfold all_digits, strip_zero_digits, rstrip_char.
  induction fp as [|d fp IH] using rev_ind; intros H.
  - cbn [map]. change (a ++ [46]) with (a ++ [46]).
    apply (rstrip_by_last (Z.eqb 48) a 46). reflexivity.
  - apply Forall_app in H as [H1 H2]. inversion H2 as [|? ? Hd _]; subst.
    rewrite map_app. cbn [map].
    replace (a ++ 46 :: map digit_char fp ++ [digit_char d])
      with ((a ++ 46 :: map digit_char fp) ++ [digit_char d])
      by (rewrite <- app_assoc; reflexivity).
    destruct (Z.eq_dec d 0) as [->|Hnz].
    + rewrite rstrip_by_drop by reflexivity.
      rewrite (rstrip_by_drop (Z.eqb 0)) by reflexivity. now apply IH.
    + rewrite rstrip_by_last by (unfold digit_char; apply Z.eqb_neq; lia).
      rewrite (rstrip_by_last (Z.eqb 0)) by (apply Z.eqb_neq; lia).
      rewrite map_app, <- app_assoc. reflexivity.
Qed.

Lemma has_char_point (a b : str) : has_char 46 (a ++ 46 :: b) = true.
Proof.
  unfold has_char. rewrite existsb_app. cbn [existsb].
  rewrite Z.eqb_refl. cbn [orb]. apply orb_true_r.
Qed.

(** [strip_zeros] of a printed fraction: the integer when the fraction is
    all zeros, the fraction without its trailing zeros otherwise. *)
Lemma strip_zeros_frac_text (s : bool) (ip fp : list Z) :
  all_digits ip -> all_digits fp -> ip <> [] ->
  strip_zeros (frac_text s ip fp)
  = if truthy (strip_zero_digits fp)
    then frac_text s ip (strip_zero_digits fp)
    else int_text s ip.
Proof.
  intros Hi Hf Hne. unfold strip_zeros, frac_text.
  rewrite app_assoc, has_char_point, rstrip_zero_chars by exact Hf.
  unfold rstrip_char.
  destruct (rstrip_by_spec (Z.eqb 0) fp) as [E | (t & d & E & Hd)];
    unfold strip_zero_digits; rewrite E.
  - cbn [map]. rewrite rstrip_by_drop by reflexivity. unfold int_text.
    destruct (exists_last Hne) as (ip' & d & ->).
    apply Forall_app in Hi as [_ Hd]. inversion Hd as [|? ? Hd' _]; subst.
    rewrite map_app, app_assoc. cbn [map].
    apply rstrip_by_last. unfold digit_char. apply Z.eqb_neq. lia.
  - assert (Hin : 0 <= d <= 9).
    { assert (Hall : all_digits (rstrip_by (Z.eqb 0) fp)).
      { unfold rstrip_by. apply Forall_rev.
        assert (G : forall l, all_digits l -> all_digits (lstrip_by (Z.eqb 0) l)).
        { induction l as [|x l IH]; intros Hl; [exact Hl|].
          inversion Hl; subst. cbn [lstrip_by].
          destruct (0 =? x); [now apply IH | exact Hl]. }
        apply G. now apply Forall_rev. }
      rewrite E in Hall. apply Forall_app in Hall as [_ Hall].
      now inversion Hall. }
    replace (truthy (t ++ [d])) with true by (destruct t; reflexivity).
    rewrite map_app. cbn [map].
    change (46 :: map digit_char t ++ [digit_char d])
      with ((46 :: map digit_char t) ++ [digit_char d]).
    rewrite (app_assoc (minus s ++ map digit_char ip)).
    rewrite rstrip_by_last by (unfold digit_char; apply Z.eqb_neq; lia).
    rewrite <- !app_assoc. reflexivity.
Qed.

(** ** Canonical fractions *)

(** A canonical fraction is printed from a non-negative integer part [ip] and
    a non-empty list [fp] of fraction digits that does not end in zero:
    [canon_text] is its text and [canon_coef] the coefficient of the decimal
    that the text denotes, at the exponent [- length fp]. *)
Definition canon_text (s : bool) (ip : Z) (fp : list Z) : str :=
  frac_text s (digits ip) fp.

Definition canon_coef (ip : Z) (fp : list Z) : Z :=
  ip * 10 ^ Z.of_nat (List.length fp) + digits_value fp.

Definition canon_dec (s : bool) (ip : Z) (fp : list Z) : Dec.t :=
  Dec.mk s (canon_coef ip fp) (- Z.of_nat (List.length fp)).

Record canonical (ip : Z) (fp : list Z) : Prop := {
  canon_ip : 0 <= ip;
  canon_digits : all_digits fp;
  canon_nonempty : fp <> [];
  canon_last : strip_zero_digits fp = fp
}.

Lemma split_no_sep (sep : char) (b : str) :
  existsb (Z.eqb sep) b = false -> split sep b = [b].
Proof.
  induction b as [|c b IH]; cbn [existsb split]; [reflexivity|].
  intros H. apply orb_false_elim in H as [H1 H2].
  rewrite Z.eqb_sym, H1, (IH H2). reflexivity.
Qed.

Lemma split_at_sep (sep : char) (a b : str) :
  existsb (Z.eqb sep) a = false ->
  split sep (a ++ sep :: b) = a :: split sep b.
Proof.
  induction a as [|c a IH]; cbn [existsb app split].
  - intros _. now rewrite Z.eqb_refl.
  - intros H. apply orb_false_elim in H as [H1 H2].
    rewrite Z.eqb_sym, H1, (IH H2). reflexivity.
Qed.

Lemma no_point_in_digits (ds : list Z) :
  all_digits ds -> existsb (Z.eqb 46) (map digit_char ds) = false.
Proof.
  intros H. induction H as [|d ds Hd _ IH]; cbn [map existsb]; [reflexivity|].
  rewrite IH, orb_false_r. unfold digit_char. apply Z.eqb_neq. lia.
Qed.

Lemma no_point_in_minus (s : bool) (ds : list Z) :
  all_digits ds -> existsb (Z.eqb 46) (minus s ++ map digit_char ds) = false.
Proof.
  intros H. rewrite existsb_app, (no_point_in_digits ds H).
  now destruct s.
Qed.

Lemma rstrip_zero_digit_chars (fp : list Z) :
  all_digits fp ->
  rstrip_char 48 (map digit_char fp) = map digit_char (strip_zero_digits fp).
Proof.
  unfold all_digits, strip_zero_digits, rstrip_char.
  induction fp as [|d fp IH] using rev_ind; intros H; [reflexivity|].
  apply Forall_app in H as [H1 H2]. inversion H2 as [|? ? Hd _]; subst.
  rewrite map_app. cbn [map].
  destruct (Z.eq_dec d 0) as [->|Hnz].
  - rewrite rstrip_by_drop by reflexivity.
    rewrite (rstrip_by_drop (Z.eqb 0)) by reflexivity. now apply IH.
  - rewrite rstrip_by_last by (unfold digit_char; apply Z.eqb_neq; lia).
    rewrite (rstrip_by_last (Z.eqb 0)) by (apply Z.eqb_neq; lia).
    now rewrite map_app.
Qed.

Lemma canon_coef_value (ip : Z) (fp : list Z) :
  0 <= ip -> digits_value (digits ip ++ fp) = canon_coef ip fp.
Proof.
  intros H. unfold canon_coef. now rewrite digits_value_app, digits_value_digits.
Qed.

Lemma canon_coef_pos (ip : Z) (fp : list Z) :
  canonical ip fp -> 0 < canon_coef ip fp /\ canon_coef ip fp mod 10 <> 0.
Proof.
  intros [Hi Hd Hne Hl]. unfold canon_coef.
  destruct (rstrip_by_spec (Z.eqb 0) fp) as [E | (t & d & E & Hz)];
    unfold strip_zero_digits in Hl; rewrite Hl in E; [contradiction|].
  subst fp. apply Forall_app in Hd as [Ht Hd].
  inversion Hd as [|? ? Hd' _]; subst. apply Z.eqb_neq in Hz.
  pose proof (digits_value_bound t Ht) as Hb.
  rewrite digits_value_app, length_app. cbn [List.length].
  change (digits_value [d]) with (10 * 0 + d).
  change (10 ^ Z.of_nat 1) with 10.
  replace (Z.of_nat (List.length t + 1)) with (Z.succ (Z.of_nat (List.length t)))
    by lia.
  rewrite Z.pow_succ_r by lia.
  assert (Hp : 0 < 10 ^ Z.of_nat (List.length t))
    by (apply Z.pow_pos_nonneg; lia).
  split; [nia|].
  replace (ip * (10 * 10 ^ Z.of_nat (List.length t))
           + (digits_value t * 10 + (10 * 0 + d)))
    with (d + (ip * 10 ^ Z.of_nat (List.length t) + digits_value t) * 10)
    by ring.
  rewrite Z.mod_add, Z.mod_small by lia. lia.
Qed.

(** Printing the decimal of a canonical fraction at its own number of places
    gives its text back. *)
Lemma fixed_point_canon (s : bool) (ip : Z) (fp : list Z) :
  canonical ip fp ->
  fixed_point s (canon_coef ip fp) (Z.of_nat (List.length fp))
  = canon_text s ip fp.
Proof.
  intros [Hi Hd Hne Hl].
  destruct (List.length fp) as [|k] eqn:Ek; [now destruct fp|].
  pose proof (digits_value_bound fp Hd) as Hb.
  assert (Hp : 0 < 10 ^ Z.of_nat (List.length fp))
    by (apply Z.pow_pos_nonneg; lia).
  rewrite fixed_point_frac by (unfold canon_coef; rewrite Ek in *; nia).
  unfold canon_text. f_equal.
  - f_equal. unfold canon_coef. rewrite <- Ek.
    rewrite Z.div_add_l, Z.div_small by lia. lia.
  - rewrite <- Ek. unfold canon_coef. now apply frac_digits_of_value.
Qed.

(** The same with [j] more places, once the trailing zeros are off. *)
Lemma fixed_point_canon_padded (s : bool) (ip : Z) (fp : list Z) (j : nat) :
  canonical ip fp ->
  strip_zeros
    (fixed_point s (canon_coef ip fp * 10 ^ Z.of_nat j)
       (Z.of_nat (List.length fp + j)))
  = canon_text s ip fp.
Proof.
  intros Hc. pose proof Hc as [Hi Hd Hne Hl].
  assert (Hfp : all_digits (fp ++ repeat 0 j)).
  { apply Forall_app. split; [exact Hd|]. apply Forall_forall.
    intros x Hx. apply repeat_spec in Hx. lia. }
  assert (Hlen : List.length (fp ++ repeat 0 j) = (List.length fp + j)%nat)
    by now rewrite length_app, repeat_length.
  assert (Hv : canon_coef ip fp * 10 ^ Z.of_nat j
               = ip * 10 ^ Z.of_nat (List.length (fp ++ repeat 0 j))
                 + digits_value (fp ++ repeat 0 j)).
  { unfold canon_coef. rewrite Hlen, digits_value_app, repeat_length.
    rewrite Nat2Z.inj_add, Z.pow_add_r by lia.
    assert (Hz : digits_value (repeat 0 j) = 0).
    { rewrite <- (app_nil_r (repeat 0 j)). apply digits_value_zeros. }
    rewrite Hz. ring. }
  pose proof (digits_value_bound _ Hfp) as Hb.
  assert (Hp : 0 < 10 ^ Z.of_nat (List.length (fp ++ repeat 0 j)))
    by (apply Z.pow_pos_nonneg; lia).
  destruct (List.length fp + j)%nat as [|k] eqn:Ek;
    [destruct fp; [contradiction | discriminate]|].
  rewrite fixed_point_frac by (rewrite Hv; nia).
  rewrite <- Hlen, Hv.
  rewrite Z.div_add_l, Z.div_small, Z.add_0_r by lia.
  rewrite frac_digits_of_value by exact Hfp.
  rewrite strip_zeros_frac_text.
  - assert (Hs : strip_zero_digits (fp ++ repeat 0 j) = fp).
    { unfold strip_zero_digits in *. clear - Hl.
      induction j as [|j IH]; [now rewrite app_nil_r|].
      replace (fp ++ repeat 0 (S j)) with ((fp ++ repeat 0 j) ++ [0]).
      - now rewrite rstrip_by_drop.
      - rewrite <- app_assoc. f_equal.
        change [0] with (repeat 0 1). rewrite <- repeat_app. f_equal. lia. }
    rewrite Hs. destruct fp; [contradiction | reflexivity].
  - now apply digits_range.
  - exact Hfp.
  - pose proof (ndigits_pos ip) as H1. unfold ndigits in H1.
    destruct (digits ip); [simpl in H1; lia | discriminate].
Qed.

(** ** The normalizer on canonical fractions *)

Lemma ndigits_mono (a b : Z) : 0 <= a <= b -> ndigits a <= ndigits b.
Proof.
  intros H. destruct (Z.eq_dec b 0) as [->|Hb].
  - replace a with 0 by lia. lia.
  - apply ndigits_le; [|apply ndigits_pos].
    pose proof (ndigits_bounds b ltac:(lia)). lia.
Qed.

Lemma gtb_false (a b : Z) : a <= b -> (a >? b) = false.
Proof. intros H. rewrite Z.gtb_ltb. apply Z.ltb_ge. exact H. Qed.

(** When [quantize] does not raise. *)
Lemma quantize_ok (a : Dec.t) (p : Z) :
  Dec.Etiny <= - p <= Dec.Emax ->
  Dec.coef a <> 0 ->
  Dec.adjusted a <= Dec.Emax ->
  Dec.adjusted a + p + 1 <= Dec.prec ->
  Dec.adjusted (Dec.rescale_half_up a (- p)) <= Dec.Emax ->
  ndigits (Dec.coef (Dec.rescale_half_up a (- p))) <= Dec.prec ->
  Dec.quantize a p = Ok (Dec.rescale_half_up a (- p)).
Proof.
  intros He Hc Ha Hd Ha' Hn. unfold Dec.quantize. cbv zeta.
  replace (Dec.Etiny <=? - p) with true by (symmetry; apply Z.leb_le; lia).
  replace (- p <=? Dec.Emax) with true by (symmetry; apply Z.leb_le; lia).
  replace (Dec.coef a =? 0) with false by (symmetry; apply Z.eqb_neq; lia).
  cbn [negb andb].
  rewrite !gtb_false by lia. reflexivity.
Qed.

(** Quantizing to at least as many places as the decimal has appends zeros,
    provided the result has at most 28 digits. *)
Lemma quantize_pad (s : bool) (c k p : Z) :
  0 < c -> 0 <= k <= p -> p <= 1000026 -> ndigits c + (p - k) <= 28 ->
  Dec.quantize (Dec.mk s c (- k)) p = Ok (Dec.mk s (c * 10 ^ (p - k)) (- p)).
Proof.
  intros Hc Hk Hp Hn. pose proof (ndigits_pos c) as H1.
  assert (Hr : Dec.rescale_half_up (Dec.mk s c (- k)) (- p)
               = Dec.mk s (c * 10 ^ (p - k)) (- p)).
  { unfold Dec.rescale_half_up. cbn [Dec.coef Dec.exp Dec.sign].
    replace (- p <=? - k) with true by (symmetry; apply Z.leb_le; lia).
    replace (- k - - p) with (p - k) by lia. reflexivity. }
  rewrite <- Hr. apply quantize_ok; rewrite ?Hr;
    unfold Dec.adjusted, Dec.Etiny, Dec.Emin, Dec.Emax, Dec.prec;
    cbn [Dec.coef Dec.exp]; rewrite ?ndigits_mul_pow10 by lia; lia.
Qed.

Lemma format_exact (s : bool) (c p : Z) :
  Dec.format_f (Dec.mk s c (- p)) p = fixed_point s c p.
Proof.
  unfold Dec.format_f, Dec.rescale_half_even. cbn [Dec.coef Dec.exp Dec.sign].
  rewrite Z.leb_refl. cbn [Dec.coef Dec.sign].
  now rewrite Z.sub_diag, Z.mul_1_r.
Qed.

Section CanonNormalize.
Context {U : Unicode}.
Variables (s : bool) (ip : Z) (fp : list Z).
Hypothesis Hcanon : canonical ip fp.

Local Abbreviation x := (canon_text s ip fp).
Local Abbreviation k := (Z.of_nat (List.length fp)).
Local Abbreviation coef := (canon_coef ip fp).

Lemma canon_ip_digits : all_digits (digits ip) /\ digits ip <> [].
Proof.
  destruct Hcanon as [Hi _ _ _]. split; [now apply digits_range|].
  pose proof (ndigits_pos ip) as H1. unfold ndigits in H1.
  destruct (digits ip); [simpl in H1; lia | discriminate].
Qed.

Lemma canon_places_pos : 1 <= k.
Proof. destruct Hcanon as [_ _ Hne _]. destruct fp; [contradiction|]. simpl. lia. Qed.

Lemma Decimal_canon : Decimal x = Ok (canon_dec s ip fp).
Proof.
  destruct Hcanon as [Hi Hd Hne Hl]. destruct canon_ip_digits as [Ha _].
  unfold Decimal, canon_text. rewrite parse_frac_text by assumption.
  now rewrite canon_coef_value.
Qed.

Lemma float_of_str_canon :
  float_of_str x = Ok (Dec.to_float (canon_dec s ip fp)).
Proof.
  destruct Hcanon as [Hi Hd Hne Hl]. destruct canon_ip_digits as [Ha _].
  unfold float_of_str, canon_text. rewrite parse_frac_text by assumption.
  cbn [bind]. now rewrite canon_coef_value.
Qed.

(** The guards of [fix_float_precision] let a canonical fraction through to
    the [try]. *)
Lemma fix_float_precision_canon (column_name : option str) :
  fix_float_precision x column_name
  = match fix_body x column_name with
    | Ok r => r
    | Raise _ => fix_fallback x
    end.
Proof.
  destruct Hcanon as [Hi Hd Hne Hl]. destruct canon_ip_digits as [Ha _].
  unfold fix_float_precision, canon_text.
  rewrite truthy_frac_text. cbn [negb].
  rewrite strip_frac_text, truthy_frac_text by assumption. cbn [negb].
  rewrite isdigit_frac_text, match_frac_text by assumption.
  reflexivity.
Qed.

Lemma strip_zeros_canon : strip_zeros x = x.
Proof.
  destruct Hcanon as [Hi Hd Hne Hl]. destruct canon_ip_digits as [Ha Hn].
  unfold canon_text. rewrite strip_zeros_frac_text by assumption.
  rewrite Hl. destruct fp; [contradiction | reflexivity].
Qed.

(** Method 1 on a canonical fraction quantizes to its own places. *)
Lemma by_original_places_canon (d : Dec.t) :
  by_original_places x d
  = (quantized <- Dec.quantize d k ;;
     Ok (Some (strip_zeros (Dec.format_f quantized k)))).
Proof.
  destruct Hcanon as [Hi Hd Hne Hl]. destruct canon_ip_digits as [Ha _].
  unfold by_original_places, canon_text, frac_text.
  rewrite app_assoc, has_char_point.
  rewrite split_at_sep by now apply no_point_in_minus.
  rewrite split_no_sep by now apply no_point_in_digits.
  cbn [nth_error]. rewrite rstrip_zero_digit_chars, Hl, length_map by exact Hd.
  pose proof canon_places_pos as Hk.
  replace (k >? 0) with true by (symmetry; apply Z.gtb_lt; lia).
  reflexivity.
Qed.

Lemma quantize_canon (p : Z) :
  k <= p -> p <= 1000026 -> ndigits coef + (p - k) <= 28 ->
  Dec.quantize (canon_dec s ip fp) p
  = Ok (Dec.mk s (coef * 10 ^ (p - k)) (- p)).
Proof.
  intros Hp Hb Hn. destruct (canon_coef_pos ip fp Hcanon) as [Hpos _].
  apply quantize_pad; lia.
Qed.

Lemma format_canon_padded (p : Z) :
  k <= p ->
  strip_zeros (Dec.format_f (Dec.mk s (coef * 10 ^ (p - k)) (- p)) p) = x.
Proof.
  intros Hp. rewrite format_exact.
  replace p with (Z.of_nat (List.length fp + Z.to_nat (p - k))) at 2 by lia.
  replace (p - k) with (Z.of_nat (Z.to_nat (p - k))) at 1 by lia.
  now apply fixed_point_canon_padded.
Qed.

(** Outside a total column a canonical fraction of at most 28 digits is
    returned as it is, whatever the float looks like. *)
Lemma fix_body_canon_plain (column_name : option str) :
  is_total_column column_name = false ->
  ndigits coef <= 28 -> k <= 1000026 ->
  fix_body x column_name = Ok x.
Proof.
  intros Hcol Hn Hk. unfold fix_body. rewrite Decimal_canon. cbn [bind].
  pose proof canon_places_pos as Hk1.
  unfold canon_dec at 1. cbn [Dec.exp].
  replace (- k >=? 0) with false
    by (symmetry; rewrite Z.geb_leb; apply Z.leb_gt; lia).
  rewrite Hcol. cbn [bind].
  destruct (has_artifact _); [|reflexivity].
  rewrite by_original_places_canon.
  unfold canon_dec. rewrite quantize_canon by lia.
  cbn [bind]. now rewrite format_canon_padded by lia.
Qed.

Lemma canon_stable_plain (column_name : option str) :
  is_total_column column_name = false ->
  ndigits coef <= 28 -> k <= 1000026 ->
  fix_float_precision x column_name = x.
Proof.
  intros Hcol Hn Hk.
  now rewrite fix_float_precision_canon, fix_body_canon_plain.
Qed.

End CanonNormalize.

(** C1 (what the code does).  Without a column name the text
    0.48729999999999996 comes back unchanged, under every character database:
    method 1 quantizes to the 17 fraction digits of the text itself. *)
Theorem artifact_text_unchanged `{Unicode} :
  fix_float_precision (py "0.48729999999999996") None
  = py "0.48729999999999996".
Proof.
  change (py "0.48729999999999996")
    with (canon_text false 0 [4; 8; 7; 2; 9; 9; 9; 9; 9; 9; 9; 9; 9; 9; 9; 9; 6]).
  apply canon_stable_plain.
  - constructor; [lia | repeat constructor; lia | discriminate | reflexivity].
  - reflexivity.
  - vm_compute. discriminate.
  - vm_compute. discriminate.
Qed.

(** ** The guards and the fallback of the normalizer *)

Section NormalizerFacts.
Context {U : Unicode}.

(** The tests that lead [fix_float_precision] into its [try]. *)
Definition guards (x : str) : bool :=
  truthy x
  && truthy (strip_by isspace x)
  && negb (str_isdigit (strip_by isspace x))
  && float_pattern_match (strip_by isspace x).

Lemma fix_float_precision_unfold (x : str) (column_name : option str) :
  fix_float_precision x column_name
  = if guards x then
      match fix_body (strip_by isspace x) column_name with
      | Ok r => r
      | Raise _ => fix_fallback (strip_by isspace x)
      end
    else strip_by isspace x.
Proof.
  unfold fix_float_precision, guards.
  destruct x as [|c x]; [reflexivity|]. cbn [truthy negb andb].
  destruct (strip_by isspace (c :: x)) eqn:E; [reflexivity|].
  cbn [truthy negb andb]. rewrite <- E.
  destruct (str_isdigit _); [reflexivity|]. cbn [negb andb].
  destruct (float_pattern_match _); reflexivity.
Qed.

(** What [span_digits] splits off is a run of decimal digits. *)
Lemma span_digits_inv :
  forall (s : str) (ds : list Z) (rest : str),
    span_digits s = (ds, rest) ->
    exists pre,
      s = pre ++ rest
      /\ Forall2 (fun c d => todecimal c = Some d) pre ds
      /\ stops rest.
Proof.
  induction s as [|c s IH]; intros ds rest H; cbn [span_digits] in H.
  - injection H as <- <-. exists []. repeat split. constructor.
  - destruct (todecimal c) as [d|] eqn:Ec.
    + destruct (span_digits s) as [ds' rest'] eqn:Es. injection H as <- <-.
      destruct (IH _ _ eq_refl) as (pre & -> & Hf & Hs).
      exists (c :: pre). repeat split; trivial. now constructor.
    + injection H as <- <-. exists []. repeat split; [constructor | exact Ec].
Qed.

Lemma lstrip_by_nil (f : char -> bool) (t : str) :
  lstrip_by f t = [] -> forallb f t = true.
Proof.
  induction t as [|c t IH]; cbn [lstrip_by forallb]; [reflexivity|].
  destruct (f c); [exact IH | discriminate].
Qed.

(** A stripped string has no whitespace suffix. *)
Lemma stripped_suffix (x pre rest : str) :
  strip_by isspace x = pre ++ rest ->
  lstrip_by isspace rest = [] -> rest = [].
Proof.
  intros E Hr. apply lstrip_by_nil in Hr.
  destruct rest as [|c rest] using rev_ind; [reflexivity|]. exfalso.
  rewrite forallb_app in Hr. apply andb_prop in Hr as [_ Hc].
  cbn [forallb] in Hc. rewrite andb_true_r in Hc.
  unfold strip_by in E.
  destruct (rstrip_by_spec isspace (lstrip_by isspace x))
    as [E' | (t & d & E' & Hd)]; rewrite E' in E.
  - symmetry in E. apply app_eq_nil in E as [_ E].
    now apply app_eq_nil in E as [_ E].
  - rewrite app_assoc in E. apply app_inj_tail in E as [_ ->]. congruence.
Qed.

Lemma stripped_head (x : str) (c : char) (t : str) :
  strip_by isspace x = c :: t -> isspace c = false.
Proof.
  unfold strip_by. intros E.
  destruct (lstrip_by_spec isspace x) as [E' | (c' & t' & E' & Hc)];
    rewrite E' in E; [discriminate|].
  destruct (rstrip_by_cons isspace c' t' Hc) as [t'' Ht]. rewrite Ht in E.
  now injection E as <- _.
Qed.

Lemma skip_sign_suffix (s : str) : exists pre, s = pre ++ skip_sign s.
Proof.
  destruct s as [|c s]; [exists []; reflexivity|]. cbn [skip_sign].
  destruct (is_sign c); [exists [c] | exists []]; reflexivity.
Qed.

(** The shape of a stripped text that passes the pattern. *)
Definition literal_shape (x : str) (ip : list Z) (fp : option (str * list Z))
  : Prop :=
  match fp with
  | None => span_digits (skip_sign x) = (ip, []) /\ ip <> []
  | Some (fchars, fvals) =>
      span_digits (skip_sign x) = (ip, 46 :: fchars)
      /\ span_digits fchars = (fvals, []) /\ fvals <> []
  end.

Lemma pattern_shape (x : str) :
  float_pattern_match (strip_by isspace x) = true ->
  exists ip fp, literal_shape (strip_by isspace x) ip fp.
Proof.
  set (x' := strip_by isspace x). intros H. unfold float_pattern_match in H.
  assert (Hl : lstrip_by isspace x' = x').
  { destruct x' as [|c t] eqn:E; [reflexivity|].
    apply lstrip_by_head. eapply stripped_head. exact E. }
  rewrite Hl in H.
  destruct (skip_sign_suffix x') as [sg Hsg].
  destruct (span_digits (skip_sign x')) as [ip rest] eqn:Es.
  destruct (span_digits_inv _ _ _ Es) as (pre & Hpre & _ & _).
  assert (Hend : forall t pre', x' = pre' ++ t ->
            negb (truthy (lstrip_by isspace t)) = true -> t = []).
  { intros t pre' E Ht. apply (stripped_suffix x pre' t E).
    destruct (lstrip_by isspace t); [reflexivity | discriminate]. }
  assert (Hplain : match ip with [] => None | _ :: _ => Some rest end
                   = Some rest ->
                   negb (truthy (lstrip_by isspace rest)) = true ->
                   exists ip fp, literal_shape x' ip fp).
  { intros Hip Ht. exists ip, None. cbn [literal_shape].
    rewrite Es. rewrite (Hend rest (sg ++ pre)); trivial.
    - split; [reflexivity|]. destruct ip; [discriminate | discriminate].
    - rewrite <- app_assoc, <- Hpre. exact Hsg. }
  destruct rest as [|c rest'].
  { destruct ip; [discriminate H | apply Hplain; trivial]. }
  destruct (Z.eq_dec c 46) as [->|Hne].
  - destruct (span_digits rest') as [fp rest''] eqn:Ef.
    destruct (span_digits_inv _ _ _ Ef) as (pre2 & Hpre2 & _ & _).
    destruct fp as [|f fp].
    + exfalso. destruct ip; [discriminate H|].
      cbn [lstrip_by] in H.
      replace (isspace 46) with false in H
        by (symmetry; apply (punct_facts 46); auto).
      discriminate H.
    + assert (Hr : rest'' = []).
      { apply (Hend rest'' (sg ++ pre ++ 46 :: pre2)); [|exact H].
        rewrite Hsg at 1. rewrite Hpre, Hpre2, <- !app_assoc. reflexivity. }
      subst rest''. exists ip, (Some (rest', f :: fp)). cbn [literal_shape].
      rewrite Es, Ef. repeat split. discriminate.
  - assert (H' : match ip with
                 | [] => None
                 | _ :: _ => Some (c :: rest')
                 end = Some (c :: rest')
                 /\ negb (truthy (lstrip_by isspace (c :: rest'))) = true).
    { destruct c as [|p|p]; try (destruct ip; [discriminate H | auto]).
      do 6 (destruct p as [p|p|]; try (destruct ip; [discriminate H | auto])).
      congruence. }
    destruct H' as [H1 H2]. now apply Hplain.
Qed.

(** A text of that shape parses. *)
Lemma parse_shape (x : str) (ip : list Z) (fp : option (str * list Z)) :
  literal_shape x ip fp ->
  parse_literal x
  = Ok (Dec.mk match x with 45 :: _ => true | _ => false end
          (digits_value (ip ++ match fp with Some (_, v) => v | None => [] end))
          (- Z.of_nat (List.length
                match fp with Some (_, v) => v | None => [] end))).
Proof.
  unfold literal_shape, parse_literal. destruct fp as [[fc fv]|].
  - intros (-> & -> & Hne). destruct (ip ++ fv) eqn:E; [|reflexivity].
    apply app_eq_nil in E as [_ E]. contradiction.
  - intros (-> & Hne). rewrite app_nil_r. destruct ip; [contradiction|].
    reflexivity.
Qed.

(** [float()] in the handler cannot fail: the text has passed the pattern. *)
Lemma float_of_str_guarded (x : str) :
  guards x = true -> exists f, float_of_str (strip_by isspace x) = Ok f.
Proof.
  unfold guards. intros H. apply andb_prop in H as [_ H].
  destruct (pattern_shape x H) as (ip & fp & Hs).
  unfold float_of_str. rewrite (parse_shape _ _ _ Hs). cbn [bind]. eauto.
Qed.

(** C5. [fix_float_precision] returns a text for every text and column name.
    A text that fails a guard is returned stripped.  Otherwise the result is
    what the [try] returns; and when the [try] raises, whatever the exception,
    the result is the float of the stripped text printed with six places and
    relieved of trailing zeros and point: that [float()] call succeeds on
    every text that has passed the guards, so the innermost handler, which
    would return the stripped text, is never reached. *)
Theorem normalizer_total (x : str) (column_name : option str) :
  let x' := strip_by isspace x in
  exists r : str,
    fix_float_precision x column_name = r
    /\ (guards x = false -> r = x')
    /\ (guards x = true ->
        (forall t, fix_body x' column_name = Ok t -> r = t)
        /\ (forall e, fix_body x' column_name = Raise e ->
            exists f, float_of_str x' = Ok f
                      /\ r = strip_zeros (Flt.format_f f 6))).
Proof.
  intros x'. subst x'. eexists. split; [reflexivity|].
  rewrite fix_float_precision_unfold. split.
  - intros ->. reflexivity.
  - intros Hg. rewrite Hg. split.
    + intros t ->. reflexivity.
    + intros e ->. destruct (float_of_str_guarded x Hg) as [f Hf].
      exists f. split; [exact Hf|]. unfold fix_fallback. now rewrite Hf.
Qed.

End NormalizerFacts.

(** The input whose [try] raises: 32 fraction digits exceed the 28 digits of
    the decimal context in method 1. *)
Lemma normalizer_total_witness :
  @fix_float_precision basic_unicode
    (py "0.48729999999999996000000000000001") None
  = py "0.4873".
Proof.
  destruct (@normalizer_total basic_unicode
              (py "0.48729999999999996000000000000001") None)
    as (r & Hr & _ & H).
  rewrite Hr.
  assert (Hg : @guards basic_unicode
                 (py "0.48729999999999996000000000000001") = true)
    by (vm_compute; reflexivity).
  destruct (H Hg) as [_ H2].
  assert (Hb : @fix_body basic_unicode
                 (strip_by isspace (py "0.48729999999999996000000000000001"))
                 None = Raise InvalidOperation)
    by (vm_compute; reflexivity).
  destruct (H2 _ Hb) as (f & Hf & ->).
  vm_compute in Hf. injection Hf as <-. vm_compute. reflexivity.
Defined.

(** ** Integer texts *)

Section IntegerFacts.
Context {U : Unicode}.

Lemma span_digits_decimal :
  forall ds : str,
    forallb is_decimal ds = true ->
    exists vals,
      span_digits ds = (vals, [])
      /\ List.length vals = List.length ds.
Proof.
  induction ds as [|c ds IH]; cbn [forallb span_digits]; intros H.
  - exists []. auto.
  - apply andb_prop in H as [Hc Hds]. unfold is_decimal in Hc.
    destruct (todecimal c) as [d|]; [|discriminate].
    destruct (IH Hds) as (vals & -> & Hl). exists (d :: vals).
    cbn [List.length]. auto.
Qed.

(** A text of digits ([str.isdigit]) is returned stripped and otherwise
    unchanged. *)
Lemma digits_unchanged (x : str) (column_name : option str) :
  str_isdigit (strip_by isspace x) = true ->
  fix_float_precision x column_name = strip_by isspace x.
Proof.
  intros H. rewrite fix_float_precision_unfold. unfold guards.
  rewrite H. cbn [negb andb]. now rewrite andb_false_r.
Qed.

Lemma span_digits_range :
  forall (s : str) (ds : list Z) (rest : str),
    span_digits s = (ds, rest) -> all_digits ds.
Proof.
  unfold all_digits.
  induction s as [|c s IH]; intros ds rest H; cbn [span_digits] in H.
  - injection H as <- <-. constructor.
  - destruct (todecimal c) as [d|] eqn:Ec.
    + destruct (span_digits s) as [ds' rest'] eqn:Es. injection H as <- <-.
      constructor; [now apply (todecimal_range c) | now apply (IH _ rest')].
    + injection H as <- <-. constructor.
Qed.

(** An integer of [2^1024] or more is beyond the largest float. *)
Lemma of_ratio_overflow (s : bool) (n : Z) :
  2 ^ 1024 <= n -> Flt.of_ratio s n 1 = Flt.Inf s.
Proof.
  intros Hn.
  assert (Hp : 0 < n).
  { assert (0 < 2 ^ 1024) by (apply Z.pow_pos_nonneg; lia). lia. }
  assert (Hk : 1024 <= Z.log2 n).
  { rewrite <- (Z.log2_pow2 1024) by lia. apply Z.log2_le_mono. exact Hn. }
  unfold Flt.of_ratio.
  replace (n =? 0) with false by (symmetry; apply Z.eqb_neq; lia).
  assert (Ek : Flt.ilog2_ratio n 1 = Z.log2 n).
  { unfold Flt.ilog2_ratio. change (Z.log2 1) with 0. rewrite Z.sub_0_r.
    unfold pow_pos. rewrite (Z.max_r 0 (Z.log2 n)) by lia.
    rewrite (Z.max_l 0 (- Z.log2 n)) by lia.
    rewrite Z.pow_0_r, Z.mul_1_l, Z.mul_1_r.
    pose proof (Z.log2_spec n Hp) as [Hl _].
    now replace (2 ^ Z.log2 n <=? n) with true
      by (symmetry; apply Z.leb_le; exact Hl). }
  rewrite Ek. cbv zeta.
  rewrite (Z.max_l (Z.log2 n - 52) (-1074)) by lia.
  destruct (div_half_even _ _ =? 2 ^ 53).
  - now replace (Z.log2 n - 52 + 1 >? 971) with true
      by (symmetry; apply Z.gtb_lt; lia).
  - now replace (Z.log2 n - 52 >? 971) with true
      by (symmetry; apply Z.gtb_lt; lia).
Qed.

(** What [fix_float_precision] does with a sign followed by decimal digits:
    the guards pass, [Decimal] reads the integer, and the result is that of
    [str] or, when [str] refuses, that of the handler. *)
Lemma signed_digits_body (x : str) (column_name : option str)
    (sg : char) (ds : str) :
  strip_by isspace x = sg :: ds ->
  is_sign sg = true -> ds <> [] -> forallb is_decimal ds = true ->
  let v := digits_value (fst (span_digits ds)) in
  0 <= v
  /\ parse_literal (sg :: ds) = Ok (Dec.mk (sg =? 45) v 0)
  /\ fix_float_precision x column_name
     = match str_int ((if sg =? 45 then -1 else 1) * v) with
       | Ok r => r
       | Raise _ => fix_fallback (sg :: ds)
       end.
Proof.
  intros Ex Hsg Hne Hds v.
  assert (Hsg' : sg = 45 \/ sg = 43 \/ sg = 46).
  { unfold is_sign in Hsg. apply orb_prop in Hsg as [H | H];
      apply Z.eqb_eq in H; auto. }
  destruct (punct_facts sg Hsg') as (Hsp & Hdg & _).
  destruct (span_digits_decimal ds Hds) as (vals & Hspan & Hlen).
  assert (Hv : vals <> []) by (destruct vals, ds; simpl in *; congruence).
  assert (Hshape : literal_shape (sg :: ds) vals None).
  { cbn [literal_shape skip_sign]. now rewrite Hsg, Hspan. }
  assert (Hparse : parse_literal (sg :: ds) = Ok (Dec.mk (sg =? 45) v 0)).
  { rewrite (parse_shape _ _ _ Hshape). unfold v.
    rewrite app_nil_r, Hspan. cbn [fst List.length Z.of_nat Z.opp].
    destruct Hsg' as [-> | [-> | ->]]; reflexivity. }
  split; [|split; [exact Hparse|]].
  - unfold v. rewrite Hspan. cbn [fst].
    apply digits_value_bound, (span_digits_range ds vals []), Hspan.
  - rewrite fix_float_precision_unfold, Ex.
    assert (Hg : guards x = true).
    { unfold guards. rewrite Ex.
      destruct x as [|c x]; [discriminate Ex|]. cbn [truthy andb].
      unfold str_isdigit. cbn [truthy forallb]. rewrite Hdg. cbn [andb negb].
      unfold float_pattern_match. rewrite lstrip_by_head by exact Hsp.
      cbn [skip_sign]. rewrite Hsg, Hspan.
      destruct vals; [contradiction | reflexivity]. }
    rewrite Hg. unfold fix_body, Decimal. rewrite Hparse.
    cbn [bind Dec.exp]. change (0 >=? 0) with true. cbv iota.
    unfold Dec.to_int. cbn [Dec.sign Dec.coef Dec.exp].
    change (0 <=? 0) with true. cbv iota. rewrite Z.pow_0_r, Z.mul_1_r.
    reflexivity.
Qed.

(** A sign followed by decimal digits is returned as the integer it
    denotes, when [str] prints that integer. *)
Lemma signed_digits_value (x : str) (column_name : option str)
    (sg : char) (ds : str) :
  strip_by isspace x = sg :: ds ->
  is_sign sg = true -> ds <> [] -> forallb is_decimal ds = true ->
  ndigits (digits_value (fst (span_digits ds))) <= int_max_str_digits ->
  fix_float_precision x column_name
  = str_of_int ((if sg =? 45 then -1 else 1)
                * digits_value (fst (span_digits ds))).
Proof.
  intros Ex Hsg Hne Hds Hn.
  destruct (signed_digits_body x column_name sg ds Ex Hsg Hne Hds)
    as (Hv & _ & ->).
  unfold str_int.
  replace (Z.abs ((if sg =? 45 then -1 else 1)
                  * digits_value (fst (span_digits ds))))
    with (digits_value (fst (span_digits ds)))
    by (destruct (sg =? 45); lia).
  now rewrite gtb_false by exact Hn.
Qed.

(** An integer of more than [int_max_str_digits] digits is not printed: the
    handler reads the text as a float, which is an infinity. *)
Lemma signed_digits_overflow (x : str) (column_name : option str)
    (sg : char) (ds : str) :
  strip_by isspace x = sg :: ds ->
  is_sign sg = true -> ds <> [] -> forallb is_decimal ds = true ->
  int_max_str_digits < ndigits (digits_value (fst (span_digits ds))) ->
  fix_float_precision x column_name
  = (if sg =? 45 then [45] else []) ++ py "inf".
Proof.
  intros Ex Hsg Hne Hds Hn.
  destruct (signed_digits_body x column_name sg ds Ex Hsg Hne Hds)
    as (Hv & Hparse & ->).
  set (v := digits_value (fst (span_digits ds))) in *.
  unfold str_int.
  replace (Z.abs ((if sg =? 45 then -1 else 1) * v)) with v
    by (destruct (sg =? 45); lia).
  replace (ndigits v >? int_max_str_digits) with true
    by (symmetry; apply Z.gtb_lt; exact Hn).
  unfold fix_fallback, float_of_str. rewrite Hparse. cbn [bind].
  unfold Dec.to_float. cbn [Dec.sign Dec.coef Dec.exp].
  change (pow_pos 10 0) with 1. change (pow_pos 10 (- 0)) with 1.
  rewrite Z.mul_1_r, of_ratio_overflow.
  - destruct (sg =? 45); reflexivity.
  - assert (Hp : 0 < v).
    { destruct (Z.eq_dec v 0) as [E|]; [|lia]. rewrite E in Hn.
      change (ndigits 0) with 1 in Hn. unfold int_max_str_digits in Hn. lia. }
    pose proof (ndigits_bounds v Hp) as [Hb _].
    assert (H1 : 2 ^ 1024 <= 10 ^ 1024)
      by (apply Z.pow_le_mono_l; lia).
    assert (H2 : 10 ^ 1024 <= 10 ^ (ndigits v - 1))
      by (apply Z.pow_le_mono_r; unfold int_max_str_digits in Hn; lia).
    lia.
Qed.

(** The amended C4. A text that is all digits once stripped is returned
    stripped and otherwise unchanged.  A sign followed by decimal digits is
    returned as the integer written in the shortest way (without a plus sign,
    without leading zeros, and without the minus sign of zero) when that
    integer has at most [int_max_str_digits] digits; for a longer one [str]
    refuses the conversion and the handler returns inf or -inf. *)
Theorem integer_texts (x : str) (column_name : option str) :
  (str_isdigit (strip_by isspace x) = true ->
   fix_float_precision x column_name = strip_by isspace x)
  /\ (forall (sg : char) (ds : str),
        strip_by isspace x = sg :: ds ->
        is_sign sg = true -> ds <> [] -> forallb is_decimal ds = true ->
        let v := digits_value (fst (span_digits ds)) in
        (ndigits v <= int_max_str_digits ->
         fix_float_precision x column_name
         = str_of_int ((if sg =? 45 then -1 else 1) * v))
        /\ (int_max_str_digits < ndigits v ->
            fix_float_precision x column_name
            = (if sg =? 45 then [45] else []) ++ py "inf")).
Proof.
  split; [apply digits_unchanged|].
  intros sg ds Ex Hsg Hne Hds v. split; intros Hn.
  - now apply (signed_digits_value x column_name sg ds).
  - now apply (signed_digits_overflow x column_name sg ds).
Qed.

(** A minus sign and [n] nines, an integer of [n] digits. *)
Lemma nines_digits (n : nat) : all_digits (repeat 9 n).
Proof.
  apply Forall_forall. intros d Hd. apply repeat_spec in Hd. lia.
Qed.

Lemma nines_chars (n : nat) : repeat 57 n = map digit_char (repeat 9 n).
Proof. now rewrite map_repeat. Qed.

Lemma nines_strip (n : nat) :
  (1 <= n)%nat -> strip_by isspace (45 :: repeat 57 n) = 45 :: repeat 57 n.
Proof.
  intros Hn. rewrite nines_chars.
  apply (strip_int_text true (repeat 9 n) (nines_digits n)).
  destruct n; [lia | discriminate].
Qed.

Lemma nines_decimal (n : nat) : forallb is_decimal (repeat 57 n) = true.
Proof.
  induction n as [|n IH]; [reflexivity|]. cbn [repeat forallb].
  rewrite IH, andb_true_r. unfold is_decimal.
  change 57 with (digit_char 9). now rewrite todecimal_digit by lia.
Qed.

Lemma nines_value (n : nat) :
  digits_value (fst (span_digits (repeat 57 n))) = 10 ^ Z.of_nat n - 1.
Proof.
  rewrite nines_chars, span_digits_all by apply nines_digits. cbn [fst].
  induction n as [|n IH]; [reflexivity|].
  cbn [repeat]. rewrite repeat_cons, digits_value_app, IH.
  cbn [List.length]. change (digits_value [9]) with 9.
  change (Z.of_nat 1) with 1. rewrite Z.pow_1_r, Nat2Z.inj_succ.
  rewrite Z.pow_succ_r by lia. ring.
Qed.

Lemma nines_ndigits (n : nat) :
  (1 <= n)%nat ->
  ndigits (digits_value (fst (span_digits (repeat 57 n)))) = Z.of_nat n.
Proof.
  intros Hn. rewrite nines_value. apply ndigits_unique; [|lia].
  assert (Hp : 0 < 10 ^ (Z.of_nat n - 1)) by (apply Z.pow_pos_nonneg; lia).
  assert (E : 10 ^ Z.of_nat n = 10 * 10 ^ (Z.of_nat n - 1)).
  { rewrite <- Z.pow_succ_r by lia. f_equal. lia. }
  lia.
Qed.

End IntegerFacts.

(** The texts of C4: the stripped text is all digits, or a sign and then all
    digits. *)
Definition signed_digit_text `{Unicode} (x : str) : bool :=
  match x with
  | [] => false
  | c :: ds => if is_sign c then str_isdigit ds else str_isdigit x
  end.

(** C4 as it is stated: such texts come back stripped and unchanged. *)
Definition signed_digits_claim : Prop :=
  forall (U : Unicode) (x : str) (column_name : option str),
    signed_digit_text (strip_by isspace x) = true ->
    fix_float_precision x column_name = strip_by isspace x.

(** -007 comes back as -7. *)
Lemma signed_digits_claim_fails : ~ signed_digits_claim.
Proof.
  intros H. specialize (H basic_unicode (py "-007") None eq_refl).
  vm_compute in H. discriminate H.
Qed.

Lemma integer_texts_witness :
  @fix_float_precision basic_unicode (py " 100 ") None = py "100"
  /\ @fix_float_precision basic_unicode (py "-007") None = py "-7"
  /\ @fix_float_precision basic_unicode (45 :: repeat 57 4301) None
     = py "-inf".
Proof.
  assert (Hne : forall (c : char) (l : str), c :: l <> [])
    by (intros c l E; discriminate E).
  assert (Hn : (1 <= 4301)%nat) by apply le_n_S, Nat.le_0_l.
  split; [|split].
  - exact (proj1 (@integer_texts basic_unicode (py " 100 ") None) eq_refl).
  - destruct (proj2 (@integer_texts basic_unicode (py "-007") None)
                45 (py "007") eq_refl eq_refl (Hne _ _) eq_refl) as [H _].
    apply H. vm_compute. discriminate.
  - destruct (proj2 (@integer_texts basic_unicode (45 :: repeat 57 4301) None)
                45 (repeat 57 4301) (nines_strip 4301 Hn) eq_refl (Hne _ _)
                (nines_decimal 4301)) as [_ H].
    apply H. rewrite (nines_ndigits 4301 Hn). reflexivity.
Defined.

(** ** Rounding and scaling *)

Lemma pow10_pos (z : Z) : 0 <= z -> 0 < 10 ^ z.
Proof. intros H. apply Z.pow_pos_nonneg; lia. Qed.

Lemma div_half_up_scale (n d m : Z) :
  0 < d -> 0 < m -> div_half_up (n * m) (d * m) = div_half_up n d.
Proof.
  intros Hd Hm. unfold div_half_up.
  rewrite Z.div_mul_cancel_r, Z.mul_mod_distr_r by lia.
  replace (2 * (n mod d * m) <? d * m) with (2 * (n mod d) <? d);
    [reflexivity|].
  destruct (Z.ltb_spec (2 * (n mod d)) d), (Z.ltb_spec (2 * (n mod d * m)) (d * m));
    trivial; nia.
Qed.

Lemma div_half_even_scale (n d m : Z) :
  0 < d -> 0 < m -> div_half_even (n * m) (d * m) = div_half_even n d.
Proof.
  intros Hd Hm. unfold div_half_even.
  rewrite Z.div_mul_cancel_r, Z.mul_mod_distr_r by lia.
  replace (2 * (n mod d * m) <? d * m) with (2 * (n mod d) <? d).
  - replace (d * m <? 2 * (n mod d * m)) with (d <? 2 * (n mod d));
      [reflexivity|].
    destruct (Z.ltb_spec d (2 * (n mod d))),
             (Z.ltb_spec (d * m) (2 * (n mod d * m))); trivial; nia.
  - destruct (Z.ltb_spec (2 * (n mod d)) d),
             (Z.ltb_spec (2 * (n mod d * m)) (d * m)); trivial; nia.
Qed.

Lemma div_half_up_exact (q d : Z) : 0 < d -> div_half_up (q * d) d = q.
Proof.
  intros Hd. unfold div_half_up. rewrite Z.div_mul, Z.mod_mul by lia.
  now replace (2 * 0 <? d) with true by (symmetry; apply Z.ltb_lt; lia).
Qed.

Lemma div_half_even_exact (q d : Z) : 0 < d -> div_half_even (q * d) d = q.
Proof.
  intros Hd. unfold div_half_even. rewrite Z.div_mul, Z.mod_mul by lia.
  now replace (2 * 0 <? d) with true by (symmetry; apply Z.ltb_lt; lia).
Qed.

Lemma div_half_up_bounds (n d : Z) :
  0 <= n -> 0 < d ->
  0 <= div_half_up n d
  /\ 2 * Z.abs (div_half_up n d * d - n) <= d
  /\ div_half_up n d <= n / d + 1.
Proof.
  intros Hn Hd. unfold div_half_up.
  pose proof (Z.div_mod n d ltac:(lia)) as Hdm.
  pose proof (Z.mod_pos_bound n d Hd) as Hr.
  assert (Hq : 0 <= n / d) by (apply Z.div_pos; lia).
  destruct (Z.ltb_spec (2 * (n mod d)) d); repeat split; try lia.
Qed.

Lemma div_half_even_bounds (n d : Z) :
  0 <= n -> 0 < d ->
  0 <= div_half_even n d <= n / d + 1.
Proof.
  intros Hn Hd. unfold div_half_even.
  assert (Hq : 0 <= n / d) by (apply Z.div_pos; lia).
  destruct (2 * (n mod d) <? d), (d <? 2 * (n mod d)), (Z.even (n / d)); lia.
Qed.

(** ** Decimals that denote the same number *)

(** [scaled a b]: [b] is [a] written with [t] more trailing zeros. *)
Definition scaled (a b : Dec.t) : Prop :=
  exists t, 0 <= t
            /\ Dec.sign b = Dec.sign a
            /\ Dec.coef b = Dec.coef a * 10 ^ t
            /\ Dec.exp b = Dec.exp a - t.

Definition scaled_result (ra rb : result Dec.t) : Prop :=
  match ra, rb with
  | Ok a, Ok b => 0 <= Dec.coef a /\ scaled a b
  | Raise e, Raise e' => e = e'
  | _, _ => False
  end.

Lemma adjusted_scaled (a b : Dec.t) :
  0 < Dec.coef a -> scaled a b -> Dec.adjusted b = Dec.adjusted a.
Proof.
  intros Hc (t & Ht & _ & Hcoef & Hexp). unfold Dec.adjusted.
  rewrite Hcoef, Hexp, ndigits_mul_pow10 by lia. lia.
Qed.

Lemma rescale_half_up_scaled (a b : Dec.t) (e : Z) :
  0 < Dec.coef a -> scaled a b ->
  Dec.rescale_half_up b e = Dec.rescale_half_up a e.
Proof.
  intros Hc (t & Ht & Hs & Hcoef & Hexp). unfold Dec.rescale_half_up.
  rewrite Hs, Hcoef, Hexp.
  destruct (Z.leb_spec e (Dec.exp a - t)) as [H1|H1];
    destruct (Z.leb_spec e (Dec.exp a)) as [H2|H2]; try lia.
  - f_equal. rewrite <- Z.mul_assoc, <- Z.pow_add_r by lia. f_equal. f_equal.
    lia.
  - f_equal.
    replace (Dec.coef a * 10 ^ t)
      with (Dec.coef a * 10 ^ (Dec.exp a - e) * 10 ^ (e - (Dec.exp a - t)))
      by (rewrite <- Z.mul_assoc, <- Z.pow_add_r by lia; f_equal; f_equal; lia).
    apply div_half_up_exact. apply pow10_pos. lia.
  - f_equal.
    replace (10 ^ (e - (Dec.exp a - t))) with (10 ^ (e - Dec.exp a) * 10 ^ t)
      by (rewrite <- Z.pow_add_r by lia; f_equal; lia).
    apply div_half_up_scale; apply pow10_pos; lia.
Qed.

Lemma quantize_scaled (a b : Dec.t) (p : Z) :
  0 < Dec.coef a -> scaled a b -> Dec.quantize b p = Dec.quantize a p.
Proof.
  intros Hc Hs. unfold Dec.quantize. cbv zeta.
  rewrite (rescale_half_up_scaled a b _ Hc Hs), (adjusted_scaled a b Hc Hs).
  destruct Hs as (t & Ht & Hs & Hcoef & Hexp).
  assert (Hp : 0 < 10 ^ t) by now apply pow10_pos.
  replace (Dec.coef b =? 0) with false by (symmetry; apply Z.eqb_neq; nia).
  replace (Dec.coef a =? 0) with false by (symmetry; apply Z.eqb_neq; lia).
  reflexivity.
Qed.

Lemma fix_context_zero (s : bool) (e : Z) :
  Dec.fix_context (Dec.mk s 0 e)
  = Ok (Dec.mk s 0 (Z.min (Z.max e Dec.Etiny) Dec.Emax)).
Proof. reflexivity. Qed.

(** A coefficient of at most 28 digits at an exponent inside the range of the
    context is left alone. *)
Lemma fix_context_fits (a : Dec.t) :
  0 < Dec.coef a -> ndigits (Dec.coef a) <= Dec.prec ->
  Dec.Etiny <= Dec.exp a <= Dec.Etop ->
  Dec.fix_context a = Ok a.
Proof.
  intros Hc Hn He. unfold Dec.fix_context. cbv zeta.
  replace (Dec.coef a =? 0) with false by (symmetry; apply Z.eqb_neq; lia).
  rewrite gtb_false by lia.
  replace (Dec.exp a <? _) with false by (symmetry; apply Z.ltb_ge; lia).
  reflexivity.
Qed.

Lemma fix_context_scaled (a b : Dec.t) :
  0 <= Dec.coef a -> scaled a b ->
  scaled_result (Dec.fix_context a) (Dec.fix_context b).
Proof.
  intros Hc (t & Ht & Hs & Hcoef & Hexp).
  assert (Hp : 0 < 10 ^ t) by now apply pow10_pos.
  destruct (Z.eq_dec (Dec.coef a) 0) as [Hz|Hnz].
  - destruct a as [sa ca ea], b as [sb cb eb]. cbn [Dec.coef Dec.exp Dec.sign] in *.
    subst ca. rewrite Z.mul_0_l in Hcoef. subst cb sb eb.
    rewrite !fix_context_zero. cbn [scaled_result Dec.coef]. split; [lia|].
    exists (Z.min (Z.max ea Dec.Etiny) Dec.Emax
            - Z.min (Z.max (ea - t) Dec.Etiny) Dec.Emax).
    cbn [Dec.coef Dec.exp Dec.sign]. repeat split; lia.
  - assert (Hpos : 0 < Dec.coef a) by lia.
    unfold Dec.fix_context. cbv zeta.
    replace (Dec.coef a =? 0) with false by (symmetry; apply Z.eqb_neq; lia).
    replace (Dec.coef b =? 0) with false by (symmetry; apply Z.eqb_neq; nia).
    rewrite Hcoef, Hexp, Hs, ndigits_mul_pow10 by lia.
    replace (ndigits (Dec.coef a) + t + (Dec.exp a - t) - Dec.prec)
      with (ndigits (Dec.coef a) + Dec.exp a - Dec.prec) by lia.
    set (M := Z.max (ndigits (Dec.coef a) + Dec.exp a - Dec.prec) Dec.Etiny).
    rewrite (Z.gtb_ltb M). destruct (Z.ltb_spec Dec.Etop M) as [Hov|Hov];
      [reflexivity|].
    destruct (Z.ltb_spec (Dec.exp a) M) as [H1|H1].
    + (* both round *)
      replace (Dec.exp a - t <? M) with true by (symmetry; apply Z.ltb_lt; lia).
      replace (10 ^ (M - (Dec.exp a - t)))
        with (10 ^ (M - Dec.exp a) * 10 ^ t)
        by (rewrite <- Z.pow_add_r by lia; f_equal; lia).
      rewrite div_half_even_scale by (try apply pow10_pos; lia).
      pose proof (div_half_even_bounds (Dec.coef a) (10 ^ (M - Dec.exp a))
                    ltac:(lia) ltac:(apply pow10_pos; lia)) as Hb.
      set (c := div_half_even (Dec.coef a) (10 ^ (M - Dec.exp a))) in *.
      assert (Hc10 : 0 <= c / 10) by (apply Z.div_pos; lia).
      destruct (ndigits c >? Dec.prec);
        match goal with
        | |- context [?x >? Dec.Etop] => destruct (x >? Dec.Etop)
        end; cbn [scaled_result Dec.coef]; trivial;
        (split; [lia|]); exists 0; cbn [Dec.coef Dec.exp Dec.sign];
        repeat split; lia.
    + destruct (Z.ltb_spec (Dec.exp a - t) M) as [H2|H2].
      * (* only the longer form rounds, exactly *)
        replace (Dec.coef a * 10 ^ t)
          with (Dec.coef a * 10 ^ (Dec.exp a - M)
                * 10 ^ (M - (Dec.exp a - t)))
          by (rewrite <- Z.mul_assoc, <- Z.pow_add_r by lia;
              f_equal; f_equal; lia).
        rewrite div_half_even_exact by (apply pow10_pos; lia).
        rewrite ndigits_mul_pow10 by lia.
        rewrite (gtb_false (ndigits (Dec.coef a) + (Dec.exp a - M)))
          by (unfold M; lia).
        rewrite (gtb_false M) by lia.
        cbn [scaled_result]. split; [lia|].
        exists (Dec.exp a - M). cbn [Dec.coef Dec.exp Dec.sign].
        repeat split; lia.
      * cbn [scaled_result]. split; [lia|]. exists t. auto.
Qed.

Lemma sub_scaled (q a b : Dec.t) :
  0 <= Dec.coef a -> scaled a b ->
  scaled_result (Dec.sub q a) (Dec.sub q b).
Proof.
  intros Hc (t & Ht & Hs & Hcoef & Hexp). unfold Dec.sub. cbv zeta.
  set (ea := Z.min (Dec.exp q) (Dec.exp a)).
  set (eb := Z.min (Dec.exp q) (Dec.exp b)).
  assert (He : 0 <= ea - eb) by (unfold ea, eb; lia).
  assert (Hp : 0 < 10 ^ t) by now apply pow10_pos.
  assert (Hp' : 0 < 10 ^ (ea - eb)) by now apply pow10_pos.
  set (va := (if Dec.sign q then -1 else 1) * Dec.coef q
             * 10 ^ (Dec.exp q - ea)
             - (if Dec.sign a then -1 else 1) * Dec.coef a
               * 10 ^ (Dec.exp a - ea)).
  assert (Hv : (if Dec.sign q then -1 else 1) * Dec.coef q
               * 10 ^ (Dec.exp q - eb)
               - (if Dec.sign b then -1 else 1) * Dec.coef b
                 * 10 ^ (Dec.exp b - eb)
               = va * 10 ^ (ea - eb)).
  { unfold va. rewrite Hs, Hcoef, Hexp, Z.mul_sub_distr_r.
    rewrite <- !Z.mul_assoc, <- !Z.pow_add_r by (unfold ea, eb in *; lia).
    f_equal; do 3 f_equal; unfold ea, eb in *; lia. }
  rewrite Hv. apply fix_context_scaled; cbn [Dec.coef]; [lia|].
  exists (ea - eb). cbn [Dec.coef Dec.exp Dec.sign].
  split; [lia|]. split; [|split; [|lia]].
  - replace (va * 10 ^ (ea - eb) =? 0) with (va =? 0)
      by (destruct (Z.eqb_spec va 0), (Z.eqb_spec (va * 10 ^ (ea - eb)) 0);
          trivial; nia).
    replace (va * 10 ^ (ea - eb) <? 0) with (va <? 0)
      by (destruct (Z.ltb_spec va 0), (Z.ltb_spec (va * 10 ^ (ea - eb)) 0);
          trivial; nia).
    replace (Dec.coef b =? 0) with (Dec.coef a =? 0)
      by (destruct (Z.eqb_spec (Dec.coef a) 0), (Z.eqb_spec (Dec.coef b) 0);
          trivial; nia).
    now rewrite Hs.
  - rewrite Z.abs_mul, (Z.abs_eq (10 ^ (ea - eb))) by lia. reflexivity.
Qed.

Lemma abs_scaled (a b : Dec.t) :
  0 <= Dec.coef a -> scaled a b -> scaled_result (Dec.abs a) (Dec.abs b).
Proof.
  intros Hc (t & Ht & Hs & Hcoef & Hexp). unfold Dec.abs.
  apply fix_context_scaled; [exact Hc|]. exists t.
  cbn [Dec.coef Dec.exp Dec.sign]. auto.
Qed.

Lemma lt_float_scaled (a b : Dec.t) (f : Flt.t) :
  scaled a b -> Dec.lt_float b f = Dec.lt_float a f.
Proof.
  intros (t & Ht & Hs & Hcoef & Hexp). unfold Dec.lt_float.
  destruct f as [sf m e| |]; trivial. cbv zeta.
  rewrite Hs, Hcoef, Hexp.
  set (ka := Z.max 0 (- Dec.exp a)). set (kb := Z.max 0 (- (Dec.exp a - t))).
  set (j := Z.max 0 (- e)).
  assert (Hk : 0 <= kb - ka) by (unfold ka, kb; lia).
  assert (Hp : 0 < 10 ^ (kb - ka)) by now apply pow10_pos.
  replace ((if Dec.sign a then -1 else 1) * (Dec.coef a * 10 ^ t)
           * 10 ^ (Dec.exp a - t + kb) * 2 ^ j)
    with ((if Dec.sign a then -1 else 1) * Dec.coef a
          * 10 ^ (Dec.exp a + ka) * 2 ^ j * 10 ^ (kb - ka)).
  - replace ((if sf then -1 else 1) * m * 2 ^ (e + j) * 10 ^ kb)
      with ((if sf then -1 else 1) * m * 2 ^ (e + j) * 10 ^ ka * 10 ^ (kb - ka)).
    + destruct (Z.ltb_spec
                  ((if Dec.sign a then -1 else 1) * Dec.coef a
                   * 10 ^ (Dec.exp a + ka) * 2 ^ j)
                  ((if sf then -1 else 1) * m * 2 ^ (e + j) * 10 ^ ka));
        [apply Z.ltb_lt | apply Z.ltb_ge]; nia.
    + rewrite <- !Z.mul_assoc, <- Z.pow_add_r by (unfold ka, kb in *; lia).
      do 4 f_equal. lia.
  - rewrite <- !Z.mul_assoc. f_equal. f_equal.
    rewrite (Z.mul_comm (2 ^ j) (10 ^ (kb - ka))), !Z.mul_assoc.
    f_equal. rewrite <- !Z.pow_add_r by (unfold ka, kb in *; lia).
    f_equal. unfold ka, kb in *. lia.
Qed.

(** ** The test of the total loop *)

(** [abs(quantized - dec_value) < 1e-9] *)
Definition near (q d : Dec.t) : result bool :=
  diff <- Dec.sub q d ;;
  diff <- Dec.abs diff ;;
  Ok (Dec.lt_float diff eps).

Lemma total_loop_cons (d : Dec.t) (p : Z) (rest : list Z) :
  total_loop d (p :: rest)
  = (q <- Dec.quantize d p ;;
     b <- near q d ;;
     if b then Ok (Some (strip_zeros (Dec.format_f q p)))
     else total_loop d rest).
Proof.
  cbn [total_loop]. unfold near.
  destruct (Dec.quantize d p) as [q|]; [|reflexivity]. cbn [bind].
  destruct (Dec.sub q d) as [x|]; [|reflexivity]. cbn [bind].
  destruct (Dec.abs x); reflexivity.
Qed.

Lemma eps_value : eps = Flt.Fin false 4835703278458517 (-82).
Proof. vm_compute. reflexivity. Qed.

Lemma near_scaled (q a b : Dec.t) :
  0 <= Dec.coef a -> scaled a b -> near q b = near q a.
Proof.
  intros Hc Hs. unfold near.
  pose proof (sub_scaled q a b Hc Hs) as H1.
  destruct (Dec.sub q a) as [x|e], (Dec.sub q b) as [y|e'];
    cbn [scaled_result] in H1; try contradiction; cbn [bind];
    [|now subst].
  destruct H1 as [Hx Hxy]. pose proof (abs_scaled x y Hx Hxy) as H2.
  destruct (Dec.abs x) as [x'|e], (Dec.abs y) as [y'|e'];
    cbn [scaled_result] in H2; try contradiction; cbn [bind];
    [|now subst].
  destruct H2 as [_ H2]. now rewrite (lt_float_scaled x' y' eps H2).
Qed.

(** The loop does not see trailing zeros of the coefficient. *)
Lemma total_loop_scaled (a b : Dec.t) :
  0 < Dec.coef a -> scaled a b ->
  forall places, total_loop b places = total_loop a places.
Proof.
  intros Hc Hs. induction places as [|p places IH]; [reflexivity|].
  rewrite !total_loop_cons, (quantize_scaled a b p Hc Hs).
  destruct (Dec.quantize a p) as [q|]; [|reflexivity]. cbn [bind].
  rewrite (near_scaled q a b ltac:(lia) Hs), IH. reflexivity.
Qed.

(** The signed coefficients of two decimals at their common exponent. *)
Definition aligned (q d : Dec.t) : Z * Z :=
  let e := Z.min (Dec.exp q) (Dec.exp d) in
  ((if Dec.sign q then -1 else 1) * Dec.coef q * 10 ^ (Dec.exp q - e),
   (if Dec.sign d then -1 else 1) * Dec.coef d * 10 ^ (Dec.exp d - e)).

(** Equal numbers are near. *)
Lemma near_exact (q d : Dec.t) :
  fst (aligned q d) = snd (aligned q d) -> near q d = Ok true.
Proof.
  unfold aligned. cbn [fst snd]. intros H. unfold near, Dec.sub. cbv zeta.
  rewrite H, Z.sub_diag. change (Z.abs 0) with 0.
  rewrite fix_context_zero. cbn [bind]. unfold Dec.abs. cbn [Dec.coef Dec.exp].
  rewrite fix_context_zero. cbn [bind]. f_equal.
  rewrite eps_value. unfold Dec.lt_float. cbv zeta.
  cbn [Dec.sign Dec.coef Dec.exp].
  apply Z.ltb_lt. rewrite Z.mul_0_r, !Z.mul_0_l.
  change (-82 + Z.max 0 (- (-82))) with 0. rewrite Z.pow_0_r.
  match goal with
  | |- context [10 ^ ?k] =>
      assert (0 < 10 ^ k) by (apply pow10_pos; lia);
      generalize dependent (10 ^ k)
  end.
  intros; lia.
Qed.

(** Numbers that differ by at least [10^-6], with a short difference, are
    not near. *)
Lemma near_far (q d : Dec.t) :
  let e := Z.min (Dec.exp q) (Dec.exp d) in
  let v := fst (aligned q d) - snd (aligned q d) in
  v <> 0 -> ndigits (Z.abs v) <= 28 -> -6 <= e <= 0 ->
  near q d = Ok false.
Proof.
  intros e v Hv Hn He. unfold near, Dec.sub. cbv zeta.
  unfold aligned in v. cbn [fst snd] in v. fold v. fold e.
  replace (v =? 0) with false by (symmetry; apply Z.eqb_neq; exact Hv).
  rewrite fix_context_fits;
    [|cbn [Dec.coef Dec.exp]; unfold Dec.Etiny, Dec.Etop, Dec.Emin,
        Dec.Emax, Dec.prec; lia ..].
  cbn [bind]. unfold Dec.abs. cbn [Dec.coef Dec.exp].
  rewrite fix_context_fits;
    [|cbn [Dec.coef Dec.exp]; unfold Dec.Etiny, Dec.Etop, Dec.Emin,
        Dec.Emax, Dec.prec; lia ..].
  cbn [bind]. f_equal. rewrite eps_value. unfold Dec.lt_float. cbv zeta.
  cbn [Dec.sign Dec.coef Dec.exp]. apply Z.ltb_ge.
  replace (Z.max 0 (- e)) with (- e) by lia.
  replace (e + - e) with 0 by lia.
  change (Z.max 0 (- -82)) with 82. change (-82 + 82) with 0.
  rewrite !Z.pow_0_r, !Z.mul_1_l, !Z.mul_1_r.
  assert (Hp : 10 ^ (- e) <= 10 ^ 6) by (apply Z.pow_le_mono_r; lia).
  assert (H1 : 1 <= Z.abs v) by lia.
  change (10 ^ 6) with 1000000 in Hp.
  change (2 ^ 82) with 4835703278458516698824704.
  assert (0 < 10 ^ (- e)) by (apply pow10_pos; lia). nia.
Qed.

(** ** The total loop on canonical fractions *)

Section CanonTotal.
Context {U : Unicode}.
Variables (s : bool) (ip : Z) (fp : list Z).
Hypothesis Hcanon : canonical ip fp.

Local Abbreviation x := (canon_text s ip fp).
Local Abbreviation k := (Z.of_nat (List.length fp)).
Local Abbreviation coef := (canon_coef ip fp).
Local Abbreviation d := (canon_dec s ip fp).

(** Fewer places than the fraction has: the rounded value is at least
    [10^-k] away and the loop goes on. *)
Lemma total_step_reject (p : Z) (rest : list Z) :
  1 <= p < k -> k <= 6 -> ndigits coef <= 28 ->
  total_loop d (p :: rest) = total_loop d rest.
Proof.
  intros Hp Hk Hn. destruct (canon_coef_pos ip fp Hcanon) as [Hpos Hmod].
  set (T := 10 ^ (k - p)).
  assert (HT : 0 < T) by (apply pow10_pos; lia).
  assert (HT10 : T mod 10 = 0).
  { unfold T. replace (k - p) with (Z.succ (k - p - 1)) by lia.
    rewrite Z.pow_succ_r by lia. rewrite Z.mul_comm. apply Z.mod_mul. lia. }
  assert (HTle : T <= 10 ^ 5) by (apply Z.pow_le_mono_r; lia).
  destruct (div_half_up_bounds coef T ltac:(lia) HT) as (HA0 & HAd & HAq).
  set (A := div_half_up coef T) in *.
  assert (HAle : A <= coef).
  { pose proof (Z.div_mod coef T ltac:(lia)).
    pose proof (Z.mod_pos_bound coef T HT).
    assert (0 <= coef / T) by (apply Z.div_pos; lia).
    assert (T >= 10).
    { pose proof (Z.div_mod T 10 ltac:(lia)). lia. }
    unfold A, div_half_up in *.
    destruct (Z.ltb_spec (2 * (coef mod T)) T); nia. }
  assert (Hr : Dec.rescale_half_up d (- p) = Dec.mk s A (- p)).
  { unfold Dec.rescale_half_up, canon_dec. cbn [Dec.coef Dec.exp Dec.sign].
    replace (- p <=? - k) with false by (symmetry; apply Z.leb_gt; lia).
    replace (- p - - k) with (k - p) by lia. reflexivity. }
  assert (HnA : ndigits A <= 28).
  { pose proof (ndigits_mono A coef ltac:(lia)). lia. }
  rewrite total_loop_cons.
  rewrite quantize_ok; rewrite ?Hr;
    unfold canon_dec, Dec.adjusted, Dec.Etiny, Dec.Emin, Dec.Emax, Dec.prec;
    cbn [Dec.coef Dec.exp]; try lia.
  cbn [bind].
  assert (Hne : A * T <> coef).
  { intros E. apply Hmod. rewrite <- E.
    pose proof (Z.div_mod T 10 ltac:(lia)) as HT'.
    rewrite HT10, Z.add_0_r in HT'. rewrite HT'.
    replace (A * (10 * (T / 10))) with (A * (T / 10) * 10) by ring.
    apply Z.mod_mul. lia. }
  rewrite near_far; [reflexivity | ..];
    unfold aligned; cbn [fst snd Dec.sign Dec.coef Dec.exp];
    replace (Z.min (- p) (- k)) with (- k) by lia;
    replace (- p - - k) with (k - p) by lia;
    replace (- k - - k) with 0 by lia; fold T;
    rewrite ?Z.pow_0_r, ?Z.mul_1_r; try lia.
  - destruct s; nia.
  - apply Z.le_trans with 6; [|lia]. apply ndigits_le; [|lia].
    change (10 ^ 6) with 1000000. change (10 ^ 5) with 100000 in HTle.
    destruct s; lia.
Qed.

(** At least as many places as the fraction has: the quantized value is the
    same number and the loop returns the text. *)
Lemma total_step_accept (p : Z) (rest : list Z) :
  k <= p -> p <= 1000026 -> ndigits coef + (p - k) <= 28 ->
  total_loop d (p :: rest) = Ok (Some x).
Proof.
  intros Hp Hb Hn. rewrite total_loop_cons.
  rewrite (quantize_canon s ip fp Hcanon p Hp Hb Hn). cbn [bind].
  rewrite near_exact.
  - cbn [bind]. now rewrite (format_canon_padded s ip fp Hcanon p Hp).
  - unfold aligned, canon_dec. cbn [fst snd Dec.sign Dec.coef Dec.exp].
    replace (Z.min (- p) (- k)) with (- p) by lia.
    replace (- p - - p) with 0 by lia.
    replace (- k - - p) with (p - k) by lia.
    rewrite Z.pow_0_r. ring.
Qed.

Lemma total_loop_canon :
  k <= 6 -> ndigits coef + (Z.max k 2 - k) <= 28 ->
  total_loop d (zrange 2 7) = Ok (Some x).
Proof.
  intros Hk Hn. pose proof (canon_places_pos ip fp Hcanon) as Hk1.
  change (zrange 2 7) with [2; 3; 4; 5; 6].
  assert (Hcases : k = 1 \/ k = 2 \/ k = 3 \/ k = 4 \/ k = 5 \/ k = 6) by lia.
  destruct Hcases as [E | [E | [E | [E | [E | E]]]]];
    repeat (rewrite total_step_reject by lia);
    apply total_step_accept; lia.
Qed.

(** In a total column a canonical fraction of at most six places, whose
    coefficient leaves room for two places, is returned as it is. *)
Lemma canon_stable_total (column_name : option str) :
  is_total_column column_name = true ->
  k <= 6 -> ndigits coef + (Z.max k 2 - k) <= 28 ->
  fix_float_precision x column_name = x.
Proof.
  intros Hcol Hk Hn.
  rewrite (fix_float_precision_canon s ip fp Hcanon). unfold fix_body.
  rewrite (Decimal_canon s ip fp Hcanon). cbn [bind].
  pose proof (canon_places_pos ip fp Hcanon) as Hk1.
  unfold canon_dec at 1. cbn [Dec.exp].
  replace (- k >=? 0) with false
    by (symmetry; rewrite Z.geb_leb; apply Z.leb_gt; lia).
  rewrite Hcol, (total_loop_canon Hk Hn). reflexivity.
Qed.

(** In a total column a canonical fraction that is the shorter writing of a
    decimal on which the loop finds nothing is returned as it is. *)
Lemma canon_stable_scaled (column_name : option str) (d0 : Dec.t) :
  is_total_column column_name = true ->
  scaled d d0 -> total_loop d0 (zrange 2 7) = Ok None ->
  ndigits coef <= 28 -> k <= 1000026 ->
  fix_float_precision x column_name = x.
Proof.
  intros Hcol Hs Hloop Hn Hk.
  destruct (canon_coef_pos ip fp Hcanon) as [Hpos _].
  rewrite (fix_float_precision_canon s ip fp Hcanon). unfold fix_body.
  rewrite (Decimal_canon s ip fp Hcanon). cbn [bind].
  pose proof (canon_places_pos ip fp Hcanon) as Hk1.
  unfold canon_dec at 1. cbn [Dec.exp].
  replace (- k >=? 0) with false
    by (symmetry; rewrite Z.geb_leb; apply Z.leb_gt; lia).
  rewrite Hcol, <- (total_loop_scaled d d0 Hpos Hs), Hloop. cbn [bind].
  destruct (has_artifact _); [|reflexivity].
  rewrite (by_original_places_canon s ip fp Hcanon).
  rewrite (quantize_canon s ip fp Hcanon) by lia.
  cbn [bind]. now rewrite (format_canon_padded s ip fp Hcanon) by lia.
Qed.

End CanonTotal.

(** ** The texts the normalizer prints *)

Lemma rstrip_by_split (f : char -> bool) (s : str) :
  exists t, s = rstrip_by f s ++ t /\ forallb f t = true.
Proof.
  induction s as [|c s IH] using rev_ind.
  - exists []. split; reflexivity.
  - destruct (f c) eqn:Ec.
    + rewrite rstrip_by_drop by exact Ec. destruct IH as (t & E & Ht).
      exists (t ++ [c]). split.
      * rewrite app_assoc, <- E. reflexivity.
      * rewrite forallb_app, Ht. cbn [forallb]. now rewrite Ec.
    + rewrite rstrip_by_last by exact Ec. exists []. split;
        [now rewrite app_nil_r | reflexivity].
Qed.

Lemma all_eqb_repeat (c : Z) (t : list Z) :
  forallb (Z.eqb c) t = true -> t = repeat c (List.length t).
Proof.
  induction t as [|a t IH]; cbn [forallb List.length repeat]; [reflexivity|].
  intros H. apply andb_prop in H as [Ha Ht]. apply Z.eqb_eq in Ha.
  subst a. f_equal. now apply IH.
Qed.

Lemma strip_zero_digits_split (fp : list Z) :
  exists j : nat, fp = strip_zero_digits fp ++ repeat 0 j.
Proof.
  destruct (rstrip_by_split (Z.eqb 0) fp) as (t & E & Ht).
  exists (List.length t). rewrite <- (all_eqb_repeat 0 t Ht). exact E.
Qed.

Lemma digits_value_pad (ds : list Z) (j : nat) :
  digits_value (ds ++ repeat 0 j) = digits_value ds * 10 ^ Z.of_nat j.
Proof.
  rewrite digits_value_app, repeat_length.
  replace (digits_value (repeat 0 j)) with 0; [lia|].
  rewrite <- (app_nil_r (repeat 0 j)), digits_value_zeros. reflexivity.
Qed.

(** A printed fixed-point number, once its trailing zeros and point are
    off, is an integer text or a canonical fraction of the same value. *)
Lemma strip_fixed_point (s : bool) (c p : Z) :
  0 <= c -> 1 <= p ->
  let ip := c / 10 ^ p in
  let r := strip_zeros (fixed_point s c p) in
  0 <= ip
  /\ ((c mod 10 ^ p = 0 /\ r = int_text s (digits ip))
      \/ (exists (fp : list Z) (j : nat),
            canonical ip fp
            /\ Z.of_nat (List.length fp) + Z.of_nat j = p
            /\ canon_coef ip fp * 10 ^ Z.of_nat j = c
            /\ c mod 10 ^ p <> 0
            /\ r = canon_text s ip fp)).
Proof.
  intros Hc Hp ip r.
  assert (Hpp : 0 < 10 ^ p) by (apply pow10_pos; lia).
  assert (Hip : 0 <= ip) by (apply Z.div_pos; lia).
  pose proof (Z.div_mod c (10 ^ p) ltac:(lia)) as Hdm.
  split; [exact Hip|].
  destruct (Z.to_nat p) as [|p'] eqn:Ep; [lia|].
  assert (E : p = Z.of_nat (S p')) by lia.
  pose proof (frac_digits_length (S p') c) as Hlen.
  pose proof (frac_digits_range (S p') c) as Hrange.
  pose proof (frac_digits_value (S p') c) as Hval.
  assert (Hia : all_digits (digits ip)) by now apply digits_range.
  assert (Hin : digits ip <> []).
  { pose proof (ndigits_pos ip) as H1. unfold ndigits in H1.
    destruct (digits ip); [simpl in H1; lia | discriminate]. }
  subst r.
  replace (fixed_point s c p) with (fixed_point s c (Z.of_nat (S p')))
    by now rewrite <- E.
  rewrite fixed_point_frac by exact Hc.
  rewrite <- E. fold ip.
  rewrite strip_zeros_frac_text by assumption.
  set (F := frac_digits c (S p')) in *.
  destruct (strip_zero_digits_split F) as [j Hj].
  set (F' := strip_zero_digits F) in *.
  assert (Hv : digits_value F = digits_value F' * 10 ^ Z.of_nat j)
    by (rewrite Hj at 1; apply digits_value_pad).
  assert (Hl : (List.length F' + j = S p')%nat).
  { rewrite <- Hlen, Hj at 1. now rewrite length_app, repeat_length. }
  destruct F' as [|f F''] eqn:EF; cbn [truthy].
  - left. split; [|reflexivity]. rewrite E, <- Hval, Hv.
    unfold digits_value. simpl. reflexivity.
  - right. rewrite <- EF in *. exists F', j.
    assert (Hcan : canonical ip F').
    { constructor; trivial.
      - unfold all_digits in *. rewrite Hj in Hrange.
        now apply Forall_app in Hrange as [H1 _].
      - rewrite EF. discriminate.
      - unfold F', strip_zero_digits. apply rstrip_by_idem. }
    assert (Hcoef : canon_coef ip F' * 10 ^ Z.of_nat j = c).
    { unfold canon_coef.
      rewrite Z.mul_add_distr_r, <- Z.mul_assoc, <- Z.pow_add_r by lia.
      rewrite <- Hv, Hval, <- Nat2Z.inj_add, Hl, <- E.
      unfold ip.
      rewrite (Z.mul_comm (c / 10 ^ p)). symmetry. exact Hdm. }
    split; [exact Hcan|]. split; [lia|]. split; [exact Hcoef|].
    split; [|reflexivity].
    destruct (canon_coef_pos ip F' Hcan) as [Hpos Hmod].
    intros Hz. apply Hmod. unfold canon_coef.
    assert (HF0 : digits_value F' = 0).
    { rewrite E, <- Hval, Hv in Hz.
      pose proof (pow10_pos (Z.of_nat j) ltac:(lia)). nia. }
    rewrite HF0, Z.add_0_r.
    assert (Hk : (1 <= List.length F')%nat) by (rewrite EF; simpl; lia).
    replace (Z.of_nat (List.length F'))
      with (Z.succ (Z.of_nat (List.length F' - 1))) by lia.
    rewrite Z.pow_succ_r by lia.
    replace (ip * (10 * 10 ^ Z.of_nat (List.length F' - 1)))
      with (ip * 10 ^ Z.of_nat (List.length F' - 1) * 10) by ring.
    apply Z.mod_mul. lia.
Qed.

Lemma scaled_trans (a b c : Dec.t) : scaled a b -> scaled b c -> scaled a c.
Proof.
  intros (t & Ht & Hs & Hc & He) (u & Hu & Hs' & Hc' & He').
  exists (t + u). repeat split; [lia | congruence | | lia].
  rewrite Hc', Hc, Z.pow_add_r by lia. ring.
Qed.

(** The digits before the point of a decimal of at most 28 digits are few
    enough for [str]. *)
Lemma limit_of_28 (c p : Z) :
  0 <= c -> 0 <= p -> ndigits c <= 28 ->
  ndigits (c / 10 ^ p) <= int_max_str_digits.
Proof.
  intros Hc Hp H28. pose proof (pow10_pos p Hp) as H10.
  apply Z.le_trans with (ndigits c); [|unfold int_max_str_digits; lia].
  apply ndigits_mono. split; [apply Z.div_pos; lia|].
  apply Z.div_le_upper_bound; [lia|]. nia.
Qed.

Section PrintedFacts.
Context {U : Unicode}.

Lemma digits_nonempty (n : Z) : digits n <> [].
Proof.
  pose proof (ndigits_pos n) as H1. unfold ndigits in H1.
  destruct (digits n); [simpl in H1; lia | discriminate].
Qed.

Lemma digit_chars_decimal (ds : list Z) :
  all_digits ds -> forallb is_decimal (map digit_char ds) = true.
Proof.
  unfold all_digits. induction 1 as [|d ds Hd _ IH]; [reflexivity|].
  cbn [map forallb]. unfold is_decimal at 1.
  now rewrite todecimal_digit, IH by exact Hd.
Qed.

(** A printed integer other than the negative zero is returned as it
    is. *)
Lemma int_text_stable (s : bool) (n : Z) (column_name : option str) :
  0 <= n -> (s = true -> 0 < n) ->
  (s = true -> ndigits n <= int_max_str_digits) ->
  fix_float_precision (int_text s (digits n)) column_name
  = int_text s (digits n).
Proof.
  intros Hn Hs Hlim.
  pose proof (digits_range n Hn) as Ha. pose proof (digits_nonempty n) as He.
  destruct s.
  - specialize (Hs eq_refl). specialize (Hlim eq_refl).
    unfold int_text, minus. cbn [app].
    rewrite (signed_digits_value _ column_name 45 (map digit_char (digits n))).
    + rewrite span_digits_all by exact Ha. cbn [fst].
      rewrite digits_value_digits by exact Hn.
      change (45 =? 45) with true. cbv iota. unfold str_of_int.
      replace (-1 * n <? 0) with true by (symmetry; apply Z.ltb_lt; lia).
      replace (Z.abs (-1 * n)) with n by lia. reflexivity.
    + exact (strip_int_text true (digits n) Ha He).
    + reflexivity.
    + destruct (digits n); [contradiction | discriminate].
    + now apply digit_chars_decimal.
    + rewrite span_digits_all by exact Ha. cbn [fst].
      now rewrite digits_value_digits by exact Hn.
  - rewrite digits_unchanged; rewrite strip_int_text by assumption;
      [reflexivity | now apply isdigit_int_text].
Qed.

Lemma str_of_int_stable (z : Z) (column_name : option str) :
  ndigits (Z.abs z) <= int_max_str_digits ->
  fix_float_precision (str_of_int z) column_name = str_of_int z.
Proof.
  intros Hlim. unfold str_of_int.
  change ((if z <? 0 then [45] else []) ++ map digit_char (digits (Z.abs z)))
    with (int_text (z <? 0) (digits (Z.abs z))).
  apply int_text_stable; [lia| |intros _; exact Hlim].
  intros H. apply Z.ltb_lt in H. lia.
Qed.

Lemma negative_zero_text : int_text true (digits 0) = py "-0".
Proof. reflexivity. Qed.

Section Printed.
Variables (s : bool) (c p : Z) (column_name : option str).
Hypothesis Hc : 0 <= c.
Hypothesis Hdigits : c mod 10 ^ p <> 0 -> ndigits c <= 28.
Hypothesis Hlimit : ndigits (c / 10 ^ p) <= int_max_str_digits.

Local Abbreviation r := (strip_zeros (fixed_point s c p)).

Lemma printed_integer :
  1 <= p -> c mod 10 ^ p = 0 -> r = int_text s (digits (c / 10 ^ p)) ->
  r <> py "-0" -> fix_float_precision r column_name = r.
Proof.
  intros Hp Hz -> Hne. apply int_text_stable.
  - apply Z.div_pos; [lia | apply pow10_pos; lia].
  - intros ->. destruct (Z.eq_dec (c / 10 ^ p) 0) as [E|E].
    + rewrite E in Hne. now contradiction Hne.
    + pose proof (Z.div_pos c (10 ^ p) Hc (pow10_pos p ltac:(lia))). lia.
  - intros _. exact Hlimit.
Qed.

Lemma canon_digits_le (ip : Z) (fp : list Z) (j : nat) :
  canonical ip fp -> canon_coef ip fp * 10 ^ Z.of_nat j = c ->
  ndigits (canon_coef ip fp) + Z.of_nat j = ndigits c.
Proof.
  intros Hcan <-. destruct (canon_coef_pos ip fp Hcan) as [Hpos _].
  rewrite ndigits_mul_pow10; lia.
Qed.

(** Outside a total column. *)
Lemma printed_stable_plain :
  is_total_column column_name = false ->
  1 <= p <= 1000026 ->
  r <> py "-0" -> fix_float_precision r column_name = r.
Proof.
  intros Hcol Hp Hne.
  destruct (strip_fixed_point s c p Hc ltac:(lia))
    as (Hip & [(Hz & E) | (fp & j & Hcan & Hl & Hco & Hnz & E)]).
  - now apply printed_integer.
  - rewrite E. pose proof (canon_digits_le _ _ _ Hcan Hco).
    specialize (Hdigits Hnz). apply canon_stable_plain; trivial; lia.
Qed.

(** In a total column, for two to six places. *)
Lemma printed_stable_total :
  is_total_column column_name = true ->
  2 <= p <= 6 ->
  r <> py "-0" -> fix_float_precision r column_name = r.
Proof.
  intros Hcol Hp Hne.
  destruct (strip_fixed_point s c p Hc ltac:(lia))
    as (Hip & [(Hz & E) | (fp & j & Hcan & Hl & Hco & Hnz & E)]).
  - apply printed_integer; trivial. lia.
  - rewrite E. pose proof (canon_digits_le _ _ _ Hcan Hco).
    specialize (Hdigits Hnz). apply canon_stable_total; trivial; lia.
Qed.

(** In a total column, for a decimal on which the loop finds nothing. *)
Lemma printed_stable_scaled (d0 : Dec.t) :
  is_total_column column_name = true ->
  1 <= p <= 1000026 ->
  scaled (Dec.mk s c (- p)) d0 -> total_loop d0 (zrange 2 7) = Ok None ->
  r <> py "-0" -> fix_float_precision r column_name = r.
Proof.
  intros Hcol Hp Hsc Hloop Hne.
  destruct (strip_fixed_point s c p Hc ltac:(lia))
    as (Hip & [(Hz & E) | (fp & j & Hcan & Hl & Hco & Hnz & E)]).
  - apply printed_integer; trivial. lia.
  - rewrite E. pose proof (canon_digits_le _ _ _ Hcan Hco).
    specialize (Hdigits Hnz).
    apply (canon_stable_scaled s _ fp Hcan column_name d0); trivial; [|lia|lia].
    apply scaled_trans with (Dec.mk s c (- p)); [|exact Hsc].
    exists (Z.of_nat j). unfold canon_dec. cbn [Dec.sign Dec.coef Dec.exp].
    repeat split; [lia | now rewrite Hco | lia].
Qed.

End Printed.
End PrintedFacts.

(** ** The floats of decimals and their printed form *)

Lemma pow2_pos (z : Z) : 0 < 2 ^ z \/ 2 ^ z = 0.
Proof.
  destruct (Z_lt_le_dec z 0) as [H|H].
  - right. now apply Z.pow_neg_r.
  - left. apply Z.pow_pos_nonneg; lia.
Qed.

Lemma pow_pos_pos (b k : Z) : 0 < b -> 0 < pow_pos b k.
Proof. intros Hb. unfold pow_pos. apply Z.pow_pos_nonneg; lia. Qed.

(** [n / d < 2 ^ (ilog2_ratio n d + 1)] *)
Lemma ilog2_ratio_upper (n d : Z) :
  0 < n -> 0 < d ->
  let k := Flt.ilog2_ratio n d + 1 in
  n * pow_pos 2 (- k) < d * pow_pos 2 k.
Proof.
  intros Hn Hd. unfold Flt.ilog2_ratio.
  destruct (Z.log2_spec n Hn) as [Ha1 Ha2].
  destruct (Z.log2_spec d Hd) as [Hb1 Hb2].
  pose proof (Z.log2_nonneg n) as Ha0. pose proof (Z.log2_nonneg d) as Hb0.
  set (a := Z.log2 n) in *. set (b := Z.log2 d) in *.
  destruct (Z.leb_spec (d * pow_pos 2 (a - b)) (n * pow_pos 2 (- (a - b))))
    as [_ | Hlt]; cbv zeta.
  - unfold pow_pos. destruct (Z_lt_le_dec (a - b + 1) 0) as [Hs | Hs].
    + replace (Z.max 0 (a - b + 1)) with 0 by lia.
      replace (Z.max 0 (- (a - b + 1))) with (b - a - 1) by lia.
      rewrite Z.pow_0_r, Z.mul_1_r.
      assert (E : 2 ^ b = 2 ^ Z.succ a * 2 ^ (b - a - 1)).
      { rewrite <- Z.pow_add_r by lia. f_equal. lia. }
      assert (0 < 2 ^ (b - a - 1)) by (apply Z.pow_pos_nonneg; lia).
      nia.
    + replace (Z.max 0 (a - b + 1)) with (a - b + 1) by lia.
      replace (Z.max 0 (- (a - b + 1))) with 0 by lia.
      rewrite Z.pow_0_r, Z.mul_1_r.
      assert (E : 2 ^ Z.succ a = 2 ^ b * 2 ^ (a - b + 1)).
      { rewrite <- Z.pow_add_r by lia. f_equal. lia. }
      assert (0 < 2 ^ (a - b + 1)) by (apply Z.pow_pos_nonneg; lia).
      nia.
  - replace (a - b - 1 + 1) with (a - b) by lia. exact Hlt.
Qed.

Lemma ratio_bound_shift (n d j i : Z) :
  0 < n -> 0 < d -> j <= i + 53 ->
  n * pow_pos 2 (- j) < d * pow_pos 2 j ->
  n * pow_pos 2 (- i) <= 2 ^ 53 * (d * pow_pos 2 i).
Proof.
  intros Hn Hd Hji. unfold pow_pos.
  destruct (Z_lt_le_dec j 0) as [Hj | Hj];
    destruct (Z_lt_le_dec i 0) as [Hi | Hi].
  - replace (Z.max 0 (- j)) with (- j) by lia.
    replace (Z.max 0 j) with 0 by lia.
    replace (Z.max 0 (- i)) with (- i) by lia.
    replace (Z.max 0 i) with 0 by lia.
    rewrite !Z.pow_0_r, !Z.mul_1_r. intros H.
    assert (E : 2 ^ (- i) <= 2 ^ (- j) * 2 ^ 53).
    { rewrite <- Z.pow_add_r by lia. apply Z.pow_le_mono_r; lia. }
    assert (0 < 2 ^ (- i)) by (apply Z.pow_pos_nonneg; lia).
    assert (0 < 2 ^ (- j)) by (apply Z.pow_pos_nonneg; lia).
    generalize dependent (2 ^ (- i)). generalize dependent (2 ^ (- j)).
    generalize (2 ^ 53). intros. nia.
  - replace (Z.max 0 (- j)) with (- j) by lia.
    replace (Z.max 0 j) with 0 by lia.
    replace (Z.max 0 (- i)) with 0 by lia.
    replace (Z.max 0 i) with i by lia.
    rewrite !Z.pow_0_r, !Z.mul_1_r. intros H.
    assert (0 < 2 ^ i) by (apply Z.pow_pos_nonneg; lia).
    assert (0 < 2 ^ (- j)) by (apply Z.pow_pos_nonneg; lia).
    assert (0 < 2 ^ 53) by (apply Z.pow_pos_nonneg; lia).
    generalize dependent (2 ^ i). generalize dependent (2 ^ (- j)).
    generalize dependent (2 ^ 53). intros R HR Q HQ H P HP.
    assert (n <= n * Q) by nia. assert (1 <= R * P) by nia.
    assert (d * 1 <= d * (R * P)) by (apply Z.mul_le_mono_nonneg_l; lia).
    lia.
  - replace (Z.max 0 (- j)) with 0 by lia.
    replace (Z.max 0 j) with j by lia.
    replace (Z.max 0 (- i)) with (- i) by lia.
    replace (Z.max 0 i) with 0 by lia.
    rewrite !Z.pow_0_r, !Z.mul_1_r. intros H.
    assert (E : 2 ^ j * 2 ^ (- i) <= 2 ^ 53).
    { rewrite <- Z.pow_add_r by lia. apply Z.pow_le_mono_r; lia. }
    assert (0 < 2 ^ (- i)) by (apply Z.pow_pos_nonneg; lia).
    assert (0 < 2 ^ j) by (apply Z.pow_pos_nonneg; lia).
    generalize dependent (2 ^ (- i)). generalize dependent (2 ^ j).
    generalize (2 ^ 53). intros. nia.
  - replace (Z.max 0 (- j)) with 0 by lia.
    replace (Z.max 0 j) with j by lia.
    replace (Z.max 0 (- i)) with 0 by lia.
    replace (Z.max 0 i) with i by lia.
    rewrite !Z.pow_0_r, !Z.mul_1_r. intros H.
    assert (E : 2 ^ j <= 2 ^ 53 * 2 ^ i).
    { rewrite <- Z.pow_add_r by lia. apply Z.pow_le_mono_r; lia. }
    generalize dependent (2 ^ i). generalize dependent (2 ^ j).
    generalize (2 ^ 53). intros. nia.
Qed.

Lemma div_half_even_le (n d m : Z) :
  0 <= n -> 0 < d -> 0 <= m -> n <= m * d -> div_half_even n d <= m.
Proof.
  intros Hn Hd Hm H. unfold div_half_even.
  pose proof (Z.div_mod n d ltac:(lia)) as E.
  pose proof (Z.mod_pos_bound n d Hd) as Hr.
  set (q := n / d) in *. set (r := n mod d) in *.
  destruct (Z.ltb_spec (2 * r) d); [nia|].
  destruct (Z.ltb_spec d (2 * r)); [nia|].
  destruct (Z.even q); nia.
Qed.

(** A float made from a ratio is infinite or has a significand of at most
    53 bits. *)
Lemma of_ratio_shape (s : bool) (n d : Z) :
  0 <= n -> 0 < d ->
  Flt.of_ratio s n d = Flt.Inf s
  \/ exists m e,
       Flt.of_ratio s n d = Flt.Fin s m e /\ 0 <= m <= 2 ^ 53 /\ e <= 971.
Proof.
  intros Hn Hd. unfold Flt.of_ratio.
  destruct (Z.eqb_spec n 0) as [E | E].
  { right. exists 0, 0. split; [reflexivity | lia]. }
  set (k := Flt.ilog2_ratio n d).
  set (e := Z.max (k - 52) (-1074)).
  set (m := div_half_even (n * pow_pos 2 (- e)) (d * pow_pos 2 e)).
  assert (Hm : 0 <= m <= 2 ^ 53).
  { pose proof (pow_pos_pos 2 e ltac:(lia)).
    pose proof (pow_pos_pos 2 (- e) ltac:(lia)).
    split.
    - apply div_half_even_bounds; nia.
    - apply div_half_even_le; try nia.
      apply ratio_bound_shift with (j := k + 1); try lia.
      apply (ilog2_ratio_upper n d); lia. }
  cbv zeta.
  destruct (Z.eqb_spec m (2 ^ 53)) as [Em | Em].
  - destruct (e + 1 >? 971) eqn:Ee; [now left|].
    rewrite Z.gtb_ltb in Ee. apply Z.ltb_ge in Ee.
    right. exists (2 ^ 52), (e + 1). split; [reflexivity | lia].
  - destruct (e >? 971) eqn:Ee; [now left|].
    rewrite Z.gtb_ltb in Ee. apply Z.ltb_ge in Ee.
    right. exists m, e. split; [reflexivity | lia].
Qed.

(** The integer that [format_f] prints for a finite float either ends in
    [places] zeros or has at most 28 digits; before the point it has 309
    digits at most, which [str] prints. *)
Lemma float_format_digits (m e p : Z) :
  0 <= m <= 2 ^ 53 -> e <= 971 -> 1 <= p <= 9 ->
  let c := div_half_even (m * pow_pos 2 e * 10 ^ p) (pow_pos 2 (- e)) in
  0 <= c
  /\ (c mod 10 ^ p <> 0 -> ndigits c <= 28)
  /\ ndigits (c / 10 ^ p) <= int_max_str_digits.
Proof.
  intros Hm He971 Hp c.
  pose proof (pow_pos_pos 2 e ltac:(lia)) as H1.
  pose proof (pow_pos_pos 2 (- e) ltac:(lia)) as H2.
  pose proof (pow10_pos p ltac:(lia)) as H3.
  assert (Hc : 0 <= c) by (apply div_half_even_bounds; nia).
  split; [exact Hc|].
  destruct (Z_lt_le_dec e 0) as [He | He].
  - assert (H28 : 0 <= c < 10 ^ 28).
    { split; [exact Hc|].
      assert (Hle : c <= m * 10 ^ p).
      { subst c. unfold pow_pos in *. replace (Z.max 0 e) with 0 in * by lia.
        rewrite Z.pow_0_r, Z.mul_1_r.
        apply div_half_even_le; try nia. }
      assert (H10 : 10 ^ p <= 10 ^ 9) by (apply Z.pow_le_mono_r; lia).
      apply Z.le_lt_trans with (2 ^ 53 * 10 ^ 9); [nia | reflexivity]. }
    split; [intros _; apply ndigits_le; [exact H28 | lia]|].
    apply Z.le_trans with 28; [|unfold int_max_str_digits; lia].
    apply ndigits_le; [|lia].
    pose proof (Z.div_pos c (10 ^ p) Hc H3).
    pose proof (Z.div_le_upper_bound c (10 ^ p) c H3 ltac:(nia)). lia.
  - assert (Ec : c = m * 2 ^ e * 10 ^ p).
    { subst c. unfold pow_pos.
      replace (Z.max 0 (- e)) with 0 by lia. rewrite Z.pow_0_r.
      replace (Z.max 0 e) with e by lia.
      replace (m * 2 ^ e * 10 ^ p) with (m * 2 ^ e * 10 ^ p * 1) at 1 by ring.
      now rewrite div_half_even_exact by lia. }
    split.
    + intros Hnz. exfalso. apply Hnz. rewrite Ec. apply Z.mod_mul. lia.
    + rewrite Ec, Z.div_mul by lia.
      apply Z.le_trans with 309; [|unfold int_max_str_digits; lia].
      assert (H2e : 0 < 2 ^ e <= 2 ^ 971).
      { split; [apply Z.pow_pos_nonneg; lia | apply Z.pow_le_mono_r; lia]. }
      assert (Hb : m * 2 ^ e <= 2 ^ 53 * 2 ^ 971).
      { apply Z.mul_le_mono_nonneg; lia. }
      assert (Hlt : 2 ^ 53 * 2 ^ 971 < 10 ^ 309) by (vm_compute; reflexivity).
      apply ndigits_le; [|lia]. split; [|exact (Z.le_lt_trans _ _ _ Hb Hlt)].
      apply Z.mul_nonneg_nonneg; lia.
Qed.

Section FloatTexts.
Context {U : Unicode}.

(** The text of an infinity is no number for the pattern and is returned
    as it is. *)
Lemma inf_text_stable (s : bool) (column_name : option str) :
  fix_float_precision (minus s ++ py "inf") column_name = minus s ++ py "inf".
Proof.
  assert (Hl : forall c, c = 105 \/ c = 110 \/ c = 102 ->
            isspace c = false /\ isdigit c = false /\ todecimal c = None).
  { intros c Hc. assert (Ha : is_ascii c) by (red; lia).
    rewrite isspace_ascii, isdigit_ascii, todecimal_ascii by exact Ha.
    destruct Hc as [-> | [-> | ->]]; repeat split; reflexivity. }
  destruct (Hl 105 ltac:(lia)) as (Hs1 & Hd1 & Ht1).
  destruct (Hl 102 ltac:(lia)) as (Hs2 & _ & _).
  destruct (punct_facts 45 ltac:(lia)) as (Hs3 & Hd3 & _).
  rewrite fix_float_precision_unfold.
  assert (Hstrip : strip_by isspace (minus s ++ py "inf") = minus s ++ py "inf").
  { destruct s.
    - exact (strip_by_id isspace 45 102 [105; 110] Hs3 Hs2).
    - exact (strip_by_id isspace 105 102 [110] Hs1 Hs2). }
  replace (guards (minus s ++ py "inf")) with false; [exact Hstrip|].
  unfold guards. rewrite Hstrip. unfold float_pattern_match.
  destruct s.
  - change (minus true ++ py "inf") with [45; 105; 110; 102].
    rewrite lstrip_by_head by exact Hs3.
    cbn [skip_sign is_sign Z.eqb Pos.eqb orb span_digits]. rewrite Ht1.
    now rewrite andb_false_r.
  - change (minus false ++ py "inf") with [105; 110; 102].
    rewrite lstrip_by_head by exact Hs1.
    cbn [skip_sign is_sign Z.eqb Pos.eqb orb span_digits]. rewrite Ht1.
    now rewrite andb_false_r.
Qed.

(** What [format_f] prints for the float of a decimal, relieved of trailing
    zeros and point, is returned as it is: outside a total column for one to
    nine places, in a total column for two to six. *)
Lemma float_text_stable (d : Dec.t) (p : Z) (column_name : option str) :
  0 <= Dec.coef d -> 1 <= p <= 9 ->
  (is_total_column column_name = true -> 2 <= p <= 6) ->
  let r := strip_zeros (Flt.format_f (Dec.to_float d) p) in
  r <> py "-0" -> fix_float_precision r column_name = r.
Proof.
  intros Hc Hp Htot r. subst r. unfold Dec.to_float.
  pose proof (pow_pos_pos 10 (Dec.exp d) ltac:(lia)) as H1.
  pose proof (pow_pos_pos 10 (- Dec.exp d) ltac:(lia)) as H2.
  destruct (of_ratio_shape (Dec.sign d)
              (Dec.coef d * pow_pos 10 (Dec.exp d))
              (pow_pos 10 (- Dec.exp d)) ltac:(nia) H2)
    as [E | (m & e & E & Hm & He)]; rewrite E.
  - intros _. unfold Flt.format_f.
    change (if Dec.sign d then [45] else []) with (minus (Dec.sign d)).
    replace (strip_zeros (minus (Dec.sign d) ++ py "inf"))
      with (minus (Dec.sign d) ++ py "inf")
      by (destruct (Dec.sign d); reflexivity).
    apply inf_text_stable.
  - unfold Flt.format_f.
    destruct (float_format_digits m e p Hm He Hp) as (H0 & Hd & Hl).
    destruct (is_total_column column_name) eqn:Hcol.
    + apply printed_stable_total; trivial. now apply Htot.
    + apply printed_stable_plain; trivial. lia.
Qed.

End FloatTexts.

(** ** What the loops and [quantize] return *)

Lemma quantize_inv (a q : Dec.t) (p : Z) :
  0 <= Dec.coef a -> Dec.quantize a p = Ok q ->
  q = Dec.mk (Dec.sign a) (Dec.coef (Dec.rescale_half_up a (- p))) (- p)
  /\ 0 <= Dec.coef q /\ ndigits (Dec.coef q) <= 28 /\ p <= 1000026.
Proof.
  intros Hc. unfold Dec.quantize.
  destruct (Z.leb_spec Dec.Etiny (- p)) as [Ht | Ht];
    [|cbn [andb negb]; discriminate].
  destruct (- p <=? Dec.Emax); cbn [andb negb]; [|discriminate].
  assert (Hp : p <= 1000026)
    by (unfold Dec.Etiny, Dec.Emin, Dec.prec in Ht; lia).
  assert (Hr : Dec.rescale_half_up a (- p)
               = Dec.mk (Dec.sign a)
                   (Dec.coef (Dec.rescale_half_up a (- p))) (- p)).
  { unfold Dec.rescale_half_up. destruct (- p <=? Dec.exp a); reflexivity. }
  assert (H0 : 0 <= Dec.coef (Dec.rescale_half_up a (- p))).
  { unfold Dec.rescale_half_up.
    destruct (Z.leb_spec (- p) (Dec.exp a)); cbn [Dec.coef].
    - pose proof (pow10_pos (Dec.exp a - - p) ltac:(lia)). nia.
    - apply div_half_up_bounds; [exact Hc | apply pow10_pos; lia]. }
  destruct (Z.eqb_spec (Dec.coef a) 0) as [Ez | Ez].
  - intros [= <-]. cbn [Dec.coef].
    split; [|split; [lia | split; [change (ndigits 0) with 1; lia | exact Hp]]].
    f_equal. unfold Dec.rescale_half_up. rewrite Ez.
    destruct (Z.leb_spec (- p) (Dec.exp a)); cbn [Dec.coef]; [lia|].
    unfold div_half_up. rewrite Z.div_0_l, Z.mod_0_l
      by (pose proof (pow10_pos (- p - Dec.exp a) ltac:(lia)); lia).
    pose proof (pow10_pos (- p - Dec.exp a) ltac:(lia)).
    destruct (Z.ltb_spec (2 * 0) (10 ^ (- p - Dec.exp a))); lia.
  - destruct (Dec.adjusted a >? Dec.Emax); [discriminate|].
    destruct (Dec.adjusted a - - p + 1 >? Dec.prec); [discriminate|].
    cbv zeta.
    destruct (Dec.adjusted (Dec.rescale_half_up a (- p)) >? Dec.Emax);
      [discriminate|].
    destruct (Z.gtb_spec (ndigits (Dec.coef (Dec.rescale_half_up a (- p))))
                Dec.prec) as [Hg | Hg]; [discriminate|].
    intros [= <-]. unfold Dec.prec in Hg. repeat split; trivial.
Qed.

Section LoopFacts.
Context {U : Unicode}.

Lemma total_loop_inv (d : Dec.t) (places : list Z) (t : str) :
  total_loop d places = Ok (Some t) ->
  exists dp q,
    In dp places /\ Dec.quantize d dp = Ok q
    /\ t = strip_zeros (Dec.format_f q dp).
Proof.
  induction places as [|dp places IH]; [discriminate|].
  cbn [total_loop]. destruct (Dec.quantize d dp) as [q|] eqn:Eq;
    cbn [bind]; [|discriminate].
  destruct (Dec.sub q d) as [diff|]; cbn [bind]; [|discriminate].
  destruct (Dec.abs diff) as [diff'|]; cbn [bind]; [|discriminate].
  destruct (Dec.lt_float diff' eps).
  - intros [= <-]. exists dp, q. cbn [In]. auto.
  - intros H. destruct (IH H) as (dp' & q' & Hin & Hq & Ht).
    exists dp', q'. cbn [In]. auto.
Qed.

Lemma float_loop_inv (f : Flt.t) (places : list Z) (t : str) :
  float_loop f places = Ok (Some t) ->
  exists dp, In dp places /\ t = strip_zeros (Flt.format_f f dp).
Proof.
  induction places as [|dp places IH]; [discriminate|].
  cbn [float_loop]. cbv zeta.
  destruct (float_of_str (Flt.format_f f dp)) as [back|]; cbn [bind];
    [|discriminate].
  destruct (Flt.ltb _ eps).
  - intros [= <-]. exists dp. cbn [In]. auto.
  - intros H. destruct (IH H) as (dp' & Hin & Ht).
    exists dp'. cbn [In]. auto.
Qed.

(** On a decimal whose value is an integer the loop of a total column stops
    at its first step. *)
Lemma total_loop_integer (d : Dec.t) (p : Z) (rest : list Z) :
  0 <= Dec.coef d -> Dec.exp d < 0 -> 0 <= p ->
  Dec.coef d mod 10 ^ (- Dec.exp d) = 0 ->
  total_loop d (p :: rest) <> Ok None.
Proof.
  intros Hc He Hp Hz. rewrite total_loop_cons.
  destruct (Dec.quantize d p) as [q|] eqn:Eq; cbn [bind]; [|discriminate].
  destruct (quantize_inv d q p Hc Eq) as (-> & _).
  rewrite near_exact; [cbn [bind]; discriminate|].
  unfold aligned, Dec.rescale_half_up.
  cbn [fst snd Dec.sign Dec.coef Dec.exp].
  pose proof (pow10_pos (- Dec.exp d) ltac:(lia)) as Hpos.
  destruct (Z.leb_spec (- p) (Dec.exp d)) as [Hle | Hgt]; cbn [Dec.coef].
  - replace (Z.min (- p) (Dec.exp d)) with (- p) by lia.
    replace (- p - - p) with 0 by lia. rewrite Z.pow_0_r. ring.
  - replace (Z.min (- p) (Dec.exp d)) with (Dec.exp d) by lia.
    replace (Dec.exp d - Dec.exp d) with 0 by lia. rewrite Z.pow_0_r.
    apply Z.mod_divide in Hz; [|lia]. destruct Hz as [w Hw].
    assert (E : 10 ^ (- Dec.exp d) = 10 ^ p * 10 ^ (- p - Dec.exp d)).
    { rewrite <- Z.pow_add_r by lia. f_equal. lia. }
    rewrite Hw, E.
    replace (w * (10 ^ p * 10 ^ (- p - Dec.exp d)))
      with (w * 10 ^ p * 10 ^ (- p - Dec.exp d)) by ring.
    rewrite div_half_up_exact by (apply pow10_pos; lia). ring.
Qed.

End LoopFacts.

(** ** Method 1 on any text that passes the pattern *)

Section OriginalPlaces.
Context {U : Unicode}.

Local Abbreviation reads := (Forall2 (fun c d => todecimal c = Some d)).

Lemma reads_range (cs : str) (ds : list Z) : reads cs ds -> all_digits ds.
Proof.
  unfold all_digits. induction 1 as [|c d cs ds Hc _ IH]; constructor;
    [now apply (todecimal_range c) | exact IH].
Qed.

Lemma reads_no_point (cs : str) (ds : list Z) :
  reads cs ds -> existsb (Z.eqb 46) cs = false.
Proof.
  induction 1 as [|c d cs ds Hc _ IH]; [reflexivity|].
  cbn [existsb]. rewrite IH, orb_false_r. apply Z.eqb_neq. intros <-.
  destruct (punct_facts 46 ltac:(lia)) as (_ & _ & Hn). congruence.
Qed.

Lemma reads_zeros (j : nat) (ds : list Z) :
  reads (repeat 48 j) ds -> ds = repeat 0 j.
Proof.
  revert ds. induction j as [|j IH]; cbn [repeat]; intros ds H;
    inversion H as [|c d cs ds' Hc Hrest]; subst; [reflexivity|].
  change 48 with (digit_char 0) in Hc.
  rewrite todecimal_digit in Hc by lia. injection Hc as <-.
  f_equal. now apply IH.
Qed.

Lemma zeros_read (j : nat) : reads (repeat 48 j) (repeat 0 j).
Proof.
  induction j as [|j IH]; cbn [repeat]; constructor; trivial.
  change 48 with (digit_char 0). apply todecimal_digit. lia.
Qed.

Lemma skip_sign_split (x : str) :
  exists sg, x = sg ++ skip_sign x /\ existsb (Z.eqb 46) sg = false.
Proof.
  destruct x as [|c x]; [exists []; split; reflexivity|]. cbn [skip_sign].
  destruct (is_sign c) eqn:Ec; [|exists []; split; reflexivity].
  exists [c]. split; [reflexivity|]. cbn [existsb]. rewrite orb_false_r.
  unfold is_sign in Ec. apply Z.eqb_neq. intros <-. discriminate Ec.
Qed.

(** The digits of a text in the shape of the pattern. *)
Lemma shape_digits (x : str) (ip : list Z) (fp : option (str * list Z)) :
  literal_shape x ip fp ->
  all_digits (ip ++ match fp with Some (_, v) => v | None => [] end).
Proof.
  unfold literal_shape. destruct fp as [[fc fv]|].
  - intros (H1 & H2 & _).
    destruct (span_digits_inv _ _ _ H1) as (pre & _ & Hr1 & _).
    destruct (span_digits_inv _ _ _ H2) as (pre2 & _ & Hr2 & _).
    apply Forall_app. split; eapply reads_range; eassumption.
  - intros (H1 & _).
    destruct (span_digits_inv _ _ _ H1) as (pre & _ & Hr1 & _).
    rewrite app_nil_r. eapply reads_range; eassumption.
Qed.

(** Method 1 counts the characters after the point up to the last one that
    is not the ASCII zero; what it leaves out are zeros of the value. *)
Lemma by_original_places_shape (x : str) (ip : list Z)
    (fchars : str) (fvals : list Z) :
  literal_shape x ip (Some (fchars, fvals)) ->
  exists (n j : nat) (v : Z),
    (n + j = List.length fvals)%nat
    /\ 0 <= v
    /\ digits_value (ip ++ fvals) = v * 10 ^ Z.of_nat j
    /\ forall d : Dec.t,
        by_original_places x d
        = if Z.of_nat n >? 0 then
            quantized <- Dec.quantize d (Z.of_nat n) ;;
            Ok (Some (strip_zeros (Dec.format_f quantized (Z.of_nat n))))
          else Ok None.
Proof.
  intros (H1 & H2 & Hne).
  destruct (span_digits_inv _ _ _ H1) as (pre & Hx & Hr1 & _).
  destruct (span_digits_inv _ _ _ H2) as (pre2 & Hf & Hr2 & _).
  rewrite app_nil_r in Hf. subst pre2.
  destruct (skip_sign_split x) as (sg & Hsg & Hsg46).
  destruct (rstrip_by_split (Z.eqb 48) fchars) as (t & Et & Ht).
  apply all_eqb_repeat in Ht.
  set (kept := rstrip_by (Z.eqb 48) fchars) in *.
  set (j := List.length t) in *.
  rewrite Et in Hr2. apply Forall2_app_inv_l in Hr2
    as (va & vz & Hva & Hvz & Efv).
  rewrite Ht in Hvz. apply reads_zeros in Hvz. subst vz.
  exists (List.length kept), j, (digits_value (ip ++ va)).
  split; [|split; [|split]].
  - rewrite Efv, length_app, repeat_length.
    now rewrite (Forall2_length Hva).
  - apply digits_value_bound. apply Forall_app.
    split; eapply reads_range; eassumption.
  - rewrite Efv, app_assoc. apply digits_value_pad.
  - intros d. unfold by_original_places.
    assert (Ex : x = (sg ++ pre) ++ 46 :: fchars).
    { rewrite Hsg at 1. rewrite Hx, app_assoc. reflexivity. }
    rewrite Ex, has_char_point.
    rewrite split_at_sep
      by (rewrite existsb_app, Hsg46; eapply reads_no_point; eassumption).
    assert (Hfc : existsb (Z.eqb 46) fchars = false).
    { eapply reads_no_point. rewrite Et, Ht.
      apply Forall2_app; [exact Hva | apply zeros_read]. }
    rewrite split_no_sep by exact Hfc.
    cbn [nth_error]. reflexivity.
Qed.

End OriginalPlaces.

(** ** Normalizing twice *)

Definition negative_zero : str := py "-0".

Section Idempotence.
Context {U : Unicode}.

(** The normalizer sees its argument only through the stripped text. *)
Lemma fix_float_precision_strip (x : str) (column_name : option str) :
  fix_float_precision (strip_by isspace x) column_name
  = fix_float_precision x column_name.
Proof.
  rewrite !fix_float_precision_unfold, strip_by_idem.
  replace (guards (strip_by isspace x)) with (guards x); [reflexivity|].
  unfold guards. rewrite strip_by_idem.
  destruct x as [|c x]; [reflexivity|]. cbn [truthy andb].
  now destruct (truthy (strip_by isspace (c :: x))).
Qed.

Lemma negative_zero_renormalized (column_name : option str) :
  fix_float_precision negative_zero column_name = py "0".
Proof.
  assert (Ha : all_digits [0]) by (repeat constructor; lia).
  rewrite (signed_digits_value _ column_name 45 [48]).
  - change [48] with (map digit_char [0]).
    now rewrite span_digits_all by exact Ha.
  - exact (strip_int_text true [0] Ha ltac:(discriminate)).
  - reflexivity.
  - discriminate.
  - exact (digit_chars_decimal [0] Ha).
  - change [48] with (map digit_char [0]).
    rewrite span_digits_all by exact Ha. cbn [fst].
    change (ndigits (digits_value [0])) with 1.
    unfold int_max_str_digits. lia.
Qed.

Section Body.
Variables (x : str) (column_name : option str).
Variables (ip : list Z) (fp : option (str * list Z)).
Hypothesis Hshape : literal_shape x ip fp.

Local Abbreviation vals := (match fp with Some (_, v) => v | None => [] end).
Local Abbreviation d :=
  (Dec.mk match x with 45 :: _ => true | _ => false end
     (digits_value (ip ++ vals)) (- Z.of_nat (List.length vals))).

Lemma shape_coef : 0 <= Dec.coef d.
Proof.
  cbn [Dec.coef]. apply digits_value_bound. exact (shape_digits _ _ _ Hshape).
Qed.

(** What the handler returns is stable. *)
Lemma fallback_stable :
  fix_fallback x <> negative_zero ->
  fix_float_precision (fix_fallback x) column_name = fix_fallback x.
Proof.
  unfold fix_fallback, float_of_str. rewrite (parse_shape _ _ _ Hshape).
  cbn [bind]. apply float_text_stable; [exact shape_coef | lia | lia].
Qed.

(** What the [try] returns is stable, the text itself apart. *)
Lemma body_stable (t : str) :
  fix_body x column_name = Ok t ->
  t = x
  \/ (t <> negative_zero -> fix_float_precision t column_name = t).
Proof.
  pose proof shape_coef as Hc.
  unfold fix_body, Decimal. rewrite (parse_shape _ _ _ Hshape).
  cbn [bind Dec.exp]. set (dv := d) in *.
  destruct fp as [[fchars fvals]|] eqn:Efp.
  - (* a fraction *)
    assert (Hk : 1 <= Z.of_nat (List.length fvals)).
    { destruct Hshape as (_ & _ & Hne). destruct fvals; [contradiction|].
      cbn [List.length]. lia. }
    replace (- Z.of_nat (List.length fvals) >=? 0) with false
      by (symmetry; rewrite Z.geb_leb; apply Z.leb_gt; lia).
    destruct (by_original_places_shape _ _ _ _ Hshape)
      as (n & j & v & Hnj & Hv & Hval & Hby).
    assert (Hexact : forall q,
              Dec.quantize dv (Z.of_nat n) = Ok q ->
              exists cq,
                q = Dec.mk (Dec.sign dv) cq (- Z.of_nat n)
                /\ 0 <= cq /\ ndigits cq <= 28 /\ Z.of_nat n <= 1000026
                /\ scaled (Dec.mk (Dec.sign dv) cq (- Z.of_nat n)) dv).
    { intros q Hq. destruct (quantize_inv dv q _ Hc Hq) as (Eq & H0 & H28 & Hb).
      exists (Dec.coef q). rewrite Eq at 1. cbn [Dec.coef].
      split; [rewrite Eq; reflexivity|]. repeat split; trivial.
      exists (Z.of_nat j). cbn [Dec.sign Dec.coef Dec.exp].
      repeat split; [lia | | subst dv; cbn [Dec.exp]; lia].
      rewrite Eq. subst dv. unfold Dec.rescale_half_up. cbn [Dec.coef Dec.exp].
      rewrite Hval.
      destruct (Z.leb_spec (- Z.of_nat n) (- Z.of_nat (List.length fvals)));
        cbn [Dec.coef].
      - replace j with 0%nat by lia.
        replace (- Z.of_nat (List.length fvals) - - Z.of_nat n) with 0 by lia.
        change (Z.of_nat 0) with 0. rewrite !Z.pow_0_r. ring.
      - replace (- Z.of_nat n - - Z.of_nat (List.length fvals))
          with (Z.of_nat j) by lia.
        now rewrite div_half_up_exact by (apply pow10_pos; lia). }
    destruct (is_total_column column_name) eqn:Hcol.
    + (* a total column *)
      destruct (total_loop dv (zrange 2 7)) as [[s|]|e] eqn:Hloop;
        cbn [bind]; [| |discriminate].
      * intros [= <-]. right.
        destruct (total_loop_inv _ _ _ Hloop) as (dp & q & Hin & Hq & ->).
        destruct (quantize_inv dv q dp Hc Hq) as (Eq & H0 & H28 & Hb).
        rewrite Eq, format_exact. rewrite Eq in H0, H28. cbn [Dec.coef] in *.
        assert (Hdp : 2 <= dp <= 6).
        { change (zrange 2 7) with [2; 3; 4; 5; 6] in Hin. cbn [In] in Hin.
          lia. }
        apply printed_stable_total; trivial. apply limit_of_28; trivial. lia.
      * destruct (has_artifact _); [|intros [= <-]; now left].
        rewrite Hby. destruct (Z.gtb_spec (Z.of_nat n) 0) as [Hn | Hn].
        -- destruct (Dec.quantize dv (Z.of_nat n)) as [q|] eqn:Hq;
             cbn [bind]; [|discriminate].
           intros [= <-]. right.
           destruct (Hexact q eq_refl) as (cq & -> & H0 & H28 & Hb & Hsc).
           rewrite format_exact.
           apply (printed_stable_scaled _ _ _ _ H0 (fun _ => H28)
                    (limit_of_28 cq _ H0 (Nat2Z.is_nonneg n) H28) dv);
             trivial. lia.
        -- exfalso. change (zrange 2 7) with (2 :: [3; 4; 5; 6]) in Hloop.
           revert Hloop. apply total_loop_integer; trivial.
           ++ subst dv. cbn [Dec.exp]. lia.
           ++ lia.
           ++ subst dv. cbn [Dec.coef Dec.exp]. rewrite Hval, Z.opp_involutive.
              replace (List.length fvals) with j by lia.
              apply Z.mod_mul. pose proof (pow10_pos (Z.of_nat j)). lia.
    + (* any other column *)
      cbn [bind]. destruct (has_artifact _); [|intros [= <-]; now left].
      rewrite Hby. destruct (Z.gtb_spec (Z.of_nat n) 0) as [Hn | Hn].
      * destruct (Dec.quantize dv (Z.of_nat n)) as [q|] eqn:Hq;
          cbn [bind]; [|discriminate].
        intros [= <-]. right.
        destruct (Hexact q eq_refl) as (cq & -> & H0 & H28 & Hb & Hsc).
        rewrite format_exact.
        apply (printed_stable_plain _ _ _ _ H0 (fun _ => H28)
                 (limit_of_28 cq _ H0 (Nat2Z.is_nonneg n) H28)); trivial. lia.
      * cbn [bind].
        destruct (float_loop (Dec.to_float dv) (zrange 1 10)) as [[s|]|e]
          eqn:Hfl; cbn [bind]; [| |discriminate].
        -- intros [= <-]. right.
           destruct (float_loop_inv _ _ _ Hfl) as (dp & Hin & ->).
           apply float_text_stable; trivial; [|congruence].
           change (zrange 1 10) with [1; 2; 3; 4; 5; 6; 7; 8; 9] in Hin.
           cbn [In] in Hin. lia.
        -- intros [= <-]. now left.
  - (* an integer *)
    cbn [List.length Z.of_nat Z.opp]. change (0 >=? 0) with true. cbv iota.
    unfold str_int. destruct (ndigits _ >? _) eqn:El; [discriminate|].
    rewrite Z.gtb_ltb in El. apply Z.ltb_ge in El.
    intros [= <-]. right. intros _. now apply str_of_int_stable.
Qed.

End Body.

(** The amended C6. Normalizing a second time, with the same column name,
    changes nothing, for every text and every column name, but for one
    result: the negative zero [-0], which a second pass turns into [0]. *)
Theorem normalizer_idempotent (x : str) (column_name : option str) :
  let y := fix_float_precision x column_name in
  (y <> negative_zero -> fix_float_precision y column_name = y)
  /\ (y = negative_zero -> fix_float_precision y column_name = py "0").
Proof.
  intros y. split; [|intros ->; apply negative_zero_renormalized].
  subst y.
  pose proof (fix_float_precision_strip x column_name) as Hstrip.
  rewrite (fix_float_precision_unfold x column_name) in Hstrip |- *.
  destruct (guards x) eqn:Hg; [|intros _; exact Hstrip].
  assert (Hm : float_pattern_match (strip_by isspace x) = true).
  { unfold guards in Hg. now apply andb_prop in Hg as [_ Hg]. }
  destruct (pattern_shape x Hm) as (ip & fp & Hshape).
  destruct (fix_body (strip_by isspace x) column_name) as [t|e] eqn:Hb.
  - intros Hne.
    destruct (body_stable _ _ _ _ Hshape t Hb) as [E | H];
      [subst t; rewrite E; exact E | now apply H].
  - intros Hne. now apply (fallback_stable _ _ _ _ Hshape).
Qed.

End Idempotence.

(** C6 as it is stated: on a numeric text, one that passes the pattern of
    the normalizer, a second pass never changes the result. *)
Definition idempotence_claim : Prop :=
  forall (U : Unicode) (x : str) (column_name : option str),
    float_pattern_match (strip_by isspace x) = true ->
    fix_float_precision (fix_float_precision x column_name) column_name
    = fix_float_precision x column_name.

(** In a total column -0.0 comes back as -0, and -0 comes back as 0. *)
Lemma idempotence_claim_fails : ~ idempotence_claim.
Proof.
  intros H.
  specialize (H basic_unicode (py "-0.0") (Some (py "total")) eq_refl).
  vm_compute in H. discriminate H.
Qed.

Lemma normalizer_idempotent_witness :
  @fix_float_precision basic_unicode
    (@fix_float_precision basic_unicode (py " 1.0050 ") (Some (py "total")))
    (Some (py "total"))
  = @fix_float_precision basic_unicode (py " 1.0050 ") (Some (py "total"))
  /\ @fix_float_precision basic_unicode
       (@fix_float_precision basic_unicode (py "-0.0") (Some (py "total")))
       (Some (py "total"))
     = py "0".
Proof.
  split.
  - apply (proj1 (@normalizer_idempotent basic_unicode (py " 1.0050 ")
                    (Some (py "total")))).
    vm_compute. discriminate.
  - apply (proj2 (@normalizer_idempotent basic_unicode (py "-0.0")
                    (Some (py "total")))).
    vm_compute. reflexivity.
Defined.

(** * Further properties of the code *)

(** ** File names *)

Definition legal_name (name : str) : Prop :=
  Forall (fun c => is_illegal_filename_char c = false) name.

Lemma clean_char_legal (c : char) :
  is_illegal_filename_char (if is_illegal_filename_char c then 95 else c)
  = false.
Proof. destruct (is_illegal_filename_char c) eqn:E; [reflexivity | exact E]. Qed.

Lemma clean_filename_is_legal (filename : str) :
  legal_name (clean_filename filename).
Proof.
  unfold legal_name, clean_filename.
  apply Forall_map. apply Forall_forall. intros c _. apply clean_char_legal.
Qed.

(** X1. [clean_filename] returns a name of the same length in which none of the
    nine forbidden characters is left. *)
Theorem clean_filename_legal (filename : str) :
  legal_name (clean_filename filename)
  /\ List.length (clean_filename filename) = List.length filename.
Proof.
  split; [apply clean_filename_is_legal | apply length_map].
Qed.

Lemma clean_filename_id (name : str) :
  legal_name name -> clean_filename name = name.
Proof.
  unfold legal_name, clean_filename.
  induction 1 as [|c name Hc _ IH]; [reflexivity|].
  cbn [map]. now rewrite Hc, IH.
Qed.

(** X2. [clean_filename] leaves a name alone exactly when the name has none of
    the forbidden characters, and cleaning twice is cleaning once. *)
Theorem clean_filename_fixpoint (filename : str) :
  (clean_filename filename = filename <-> legal_name filename)
  /\ clean_filename (clean_filename filename) = clean_filename filename.
Proof.
  split; [split|].
  - intros E. rewrite <- E. apply clean_filename_is_legal.
  - apply clean_filename_id.
  - apply clean_filename_id. apply clean_filename_is_legal.
Qed.

Lemma clean_filename_app (a b : str) :
  clean_filename (a ++ b) = clean_filename a ++ clean_filename b.
Proof. apply map_app. Qed.

Lemma endswith_app (p s : str) : endswith p (s ++ p) = true.
Proof. unfold endswith. rewrite rev_app_distr. apply startswith_app. Qed.

Section FileNames.
Context {U : Unicode}.

(** The branches on prefix and suffix of the row loop all build the same
    concatenation: an empty prefix or suffix adds nothing. *)
Definition base_name (excel_row : Series) (row_idx : Z) (file_name_col : str)
  : str :=
  if truthy file_name_col then
    match series_find file_name_col excel_row with
    | Some v => clean_text v
    | None => py "替换结果_" ++ str_of_int (row_idx + 1)
    end
  else py "替换结果_" ++ str_of_int (row_idx + 1).

Lemma make_filename_concat (excel_row : Series) (row_idx : Z)
    (file_name_col file_prefix file_suffix : str) :
  make_filename excel_row row_idx file_name_col file_prefix file_suffix
  = Ok (file_prefix ++ base_name excel_row row_idx file_name_col
          ++ file_suffix ++ py ".docx").
Proof.
  unfold make_filename, base_name, series_has, series_get.
  destruct (truthy file_name_col); cbn [andb];
    [destruct (series_find file_name_col excel_row); cbn [bind]|];
    destruct file_prefix, file_suffix; cbn [truthy andb app];
    rewrite <- ?app_assoc; reflexivity.
Qed.

(** X3. The file name of a row: prefix, then the cleaned cell of the name column
    or, when no column is chosen or the row lacks it, 替换结果_ and the
    one-based row number, then suffix and extension; the forbidden characters
    replaced by underscores.  The name ends in .docx and has none of the
    forbidden characters. *)
Theorem row_filename (excel_row : Series) (row_idx : Z)
    (file_name_col file_prefix file_suffix : str) :
  exists name,
    make_filename excel_row row_idx file_name_col file_prefix file_suffix
    = Ok name
    /\ clean_filename name
       = clean_filename
           (file_prefix ++ base_name excel_row row_idx file_name_col
              ++ file_suffix) ++ py ".docx"
    /\ endswith (py ".docx") (clean_filename name) = true
    /\ legal_name (clean_filename name).
Proof.
  eexists. split; [apply make_filename_concat|].
  assert (E : clean_filename
                (file_prefix ++ base_name excel_row row_idx file_name_col
                   ++ file_suffix ++ py ".docx")
              = clean_filename
                  (file_prefix ++ base_name excel_row row_idx file_name_col
                     ++ file_suffix) ++ py ".docx").
  { rewrite !clean_filename_app, <- !app_assoc. reflexivity. }
  split; [exact E|]. split; [|apply clean_filename_is_legal].
  rewrite E. apply endswith_app.
Qed.

End FileNames.

Lemma digit_chars_legal (ds : list Z) :
  all_digits ds -> legal_name (map digit_char ds).
Proof.
  unfold all_digits, legal_name. intros H. apply Forall_map.
  eapply Forall_impl; [|exact H]. intros d Hd. cbn beta in Hd.
  unfold digit_char.
  assert (Hc : d = 0 \/ d = 1 \/ d = 2 \/ d = 3 \/ d = 4 \/ d = 5 \/ d = 6
               \/ d = 7 \/ d = 8 \/ d = 9) by lia.
  repeat (destruct Hc as [-> | Hc]; [reflexivity|]). now subst d.
Qed.

Lemma str_of_int_digits (n : Z) :
  0 <= n -> str_of_int n = map digit_char (digits n).
Proof.
  intros Hn. unfold str_of_int.
  replace (n <? 0) with false by (symmetry; apply Z.ltb_ge; lia).
  now replace (Z.abs n) with n by lia.
Qed.

Lemma str_of_int_inj (a b : Z) :
  0 <= a -> 0 <= b -> str_of_int a = str_of_int b -> a = b.
Proof.
  intros Ha Hb. rewrite !str_of_int_digits by assumption. intros E.
  apply (f_equal (map (fun c => c - 48))) in E. rewrite !map_map in E.
  assert (Hid : forall l : list Z,
            map (fun d => digit_char d - 48) l = l).
  { intros l. rewrite <- (map_id l) at 2. apply map_ext.
    intros d. unfold digit_char. lia. }
  rewrite !Hid in E.
  rewrite <- (digits_value_digits a Ha), <- (digits_value_digits b Hb).
  now rewrite E.
Qed.

Lemma zrange_NoDup (a b : Z) : NoDup (zrange a b).
Proof.
  unfold zrange. apply NoDup_map_NoDup_ForallPairs; [|apply seq_NoDup].
  intros j k _ _ E. lia.
Qed.

Section BatchNames.
Context {U : Unicode}.
Variable Style : Type.
Variable open_document : bytes -> result (Document Style).
Variable save_document : Document Style -> bytes.
Variable exn_text : exn -> str.
Variable hash_rules : list rule -> Z.
Variable word_file : UploadedFile.
Variable excel_df : DataFrame.
Variables file_name_col file_prefix file_suffix : str.

Local Abbreviation run :=
  (run_replace Style open_document save_document exn_text hash_rules).

Lemma artifact_filename (st : session_state) (i : Z) (row : Series) :
  filename (artifact Style open_document save_document exn_text st word_file
              file_name_col file_prefix file_suffix i row)
  = clean_filename
      (file_prefix ++ base_name row i file_name_col ++ file_suffix)
    ++ py ".docx".
Proof.
  unfold artifact. cbn [filename]. rewrite make_filename_concat.
  rewrite !clean_filename_app, <- !app_assoc. reflexivity.
Qed.

(** X4. Every file of a batch has a name that ends in .docx and is free of the
    forbidden characters. *)
Theorem batch_names_legal (st : session_state) (start_row end_row : Z)
    (f : ReplacedFile) :
  is_replacing st = false ->
  1 <= start_row ->
  In f (replaced_files
          (run st word_file excel_df start_row end_row file_name_col
             file_prefix file_suffix)) ->
  endswith (py ".docx") (filename f) = true /\ legal_name (filename f).
Proof.
  intros Hr Hs Hin.
  rewrite (run_replace_files Style open_document save_document exn_text
             hash_rules word_file excel_df file_name_col file_prefix
             file_suffix st _ _ Hr Hs) in Hin.
  apply in_map_iff in Hin as (i & <- & _). rewrite artifact_filename. split.
  - apply endswith_app.
  - unfold legal_name. apply Forall_app. split; [apply clean_filename_is_legal|].
    now vm_compute; repeat constructor.
Qed.

(** X5. When no name column is chosen, or no row of the sheet has it, the files
    of a batch are named after their row numbers and no two files share a
    name. *)
Theorem default_names_distinct (st : session_state) (start_row end_row : Z) :
  is_replacing st = false ->
  1 <= start_row ->
  (forall row, In row excel_df ->
     truthy file_name_col && series_has row file_name_col = false) ->
  let files :=
    replaced_files
      (run st word_file excel_df start_row end_row file_name_col file_prefix
         file_suffix) in
  map filename files
  = map (fun i =>
           clean_filename (file_prefix ++ py "替换结果_") ++ str_of_int (i + 1)
           ++ clean_filename file_suffix ++ py ".docx")
      (zrange (start_row - 1)
         (Z.min end_row (Z.of_nat (List.length excel_df))))
  /\ NoDup (map filename files).
Proof.
  intros Hr Hs Hcol files.
  assert (E : map filename files
              = map (fun i =>
                       clean_filename (file_prefix ++ py "替换结果_")
                       ++ str_of_int (i + 1)
                       ++ clean_filename file_suffix ++ py ".docx")
                  (zrange (start_row - 1)
                     (Z.min end_row (Z.of_nat (List.length excel_df))))).
  { unfold files.
    rewrite (run_replace_files Style open_document save_document exn_text
               hash_rules word_file excel_df file_name_col file_prefix
               file_suffix st _ _ Hr Hs), map_map.
    apply map_ext_in. intros i Hi.
    pose proof (proj1 (Forall_forall _ _) (zrange_bounds _ _) i Hi) as Hb.
    cbn beta in Hb. rewrite artifact_filename.
    assert (Hrow : In (row_at excel_df i) excel_df).
    { unfold row_at. apply nth_In. lia. }
    specialize (Hcol _ Hrow). unfold base_name, series_has in *.
    replace (if truthy file_name_col
             then match series_find file_name_col (row_at excel_df i) with
                  | Some v => clean_text v
                  | None => py "替换结果_" ++ str_of_int (i + 1)
                  end
             else py "替换结果_" ++ str_of_int (i + 1))
      with (py "替换结果_" ++ str_of_int (i + 1)).
    2: { destruct (truthy file_name_col); [|reflexivity].
         destruct (series_find file_name_col (row_at excel_df i));
           [discriminate Hcol | reflexivity]. }
    rewrite !clean_filename_app, <- !app_assoc.
    rewrite (clean_filename_id (str_of_int (i + 1))); [reflexivity|].
    rewrite str_of_int_digits by lia.
    apply digit_chars_legal, digits_range. lia. }
  split; [exact E|]. rewrite E.
  apply NoDup_map_NoDup_ForallPairs; [|apply zrange_NoDup].
  intros i j Hi Hj Eq.
  pose proof (proj1 (Forall_forall _ _) (zrange_bounds _ _) i Hi) as Hbi.
  pose proof (proj1 (Forall_forall _ _) (zrange_bounds _ _) j Hj) as Hbj.
  cbn beta in Hbi, Hbj.
  apply app_inv_head in Eq.
  assert (El : List.length (str_of_int (i + 1))
               = List.length (str_of_int (j + 1))).
  { apply (f_equal (@List.length Z)) in Eq. rewrite !length_app in Eq. lia. }
  assert (En : str_of_int (i + 1) = str_of_int (j + 1)).
  { revert Eq El. generalize (str_of_int (i + 1)), (str_of_int (j + 1)).
    intros a. induction a as [|x a IH]; intros [|y b] Eq El;
      try discriminate El; [reflexivity|].
    cbn [app] in Eq. injection Eq as -> Eq. f_equal. apply IH; trivial.
    cbn [List.length] in El. lia. }
  apply str_of_int_inj in En; lia.
Qed.

End BatchNames.

Lemma batch_names_legal_witness :
  exists f,
    nth_error (replaced_files (Demo.run 1 3)) 0 = Some f
    /\ filename f = py "张三.docx"
    /\ endswith (py ".docx") (filename f) = true
    /\ legal_name (filename f).
Proof.
  eexists. split; [vm_compute; reflexivity|]. split; [reflexivity|].
  apply (@batch_names_legal basic_unicode bool Demo.open_document
           Demo.save_document Demo.exn_text Demo.hash_rules Demo.word_file
           Demo.excel_df (py "姓名") [] [] Demo.st 1 3 _ eq_refl
           (Z.le_refl 1)).
  vm_compute. left. reflexivity.
Defined.

Lemma default_names_distinct_witness :
  map filename
    (replaced_files
       (@run_replace basic_unicode bool Demo.open_document Demo.save_document
          Demo.exn_text Demo.hash_rules Demo.st Demo.word_file Demo.excel_df
          1 3 [] (py "A/") []))
  = [py "A_替换结果_1.docx"; py "A_替换结果_2.docx"; py "A_替换结果_3.docx"]
  /\ NoDup
       (map filename
          (replaced_files
             (@run_replace basic_unicode bool Demo.open_document
                Demo.save_document Demo.exn_text Demo.hash_rules Demo.st
                Demo.word_file Demo.excel_df 1 3 [] (py "A/") []))).
Proof.
  destruct (@default_names_distinct basic_unicode bool Demo.open_document
              Demo.save_document Demo.exn_text Demo.hash_rules Demo.word_file
              Demo.excel_df [] (py "A/") [] Demo.st 1 3 eq_refl (Z.le_refl 1)
              (fun _ _ => eq_refl)) as [E N].
  split; [rewrite E; vm_compute; reflexivity | exact N].
Defined.

(** ** Cleaned text *)

Section CleanTextFacts.
Context {U : Unicode}.

Lemma isspace_space : isspace 32 = true.
Proof. rewrite isspace_ascii by (red; lia). reflexivity. Qed.

Lemma collapse_spaces_shape :
  forall (s : str) (in_run : bool),
    let r := collapse_spaces in_run s in
    Forall (fun c => isspace c = true -> c = 32) r
    /\ (in_run = true ->
        match r with [] => True | c :: _ => isspace c = false end)
    /\ (forall l1 a b l2,
          r = l1 ++ a :: b :: l2 -> isspace a = true -> isspace b = false).
Proof.
  induction s as [|c s IH]; intros in_run r; subst r.
  - cbn [collapse_spaces]. repeat split; trivial.
    intros [|? ?] ? ? ? E; discriminate E.
  - cbn [collapse_spaces]. destruct (isspace c) eqn:Ec.
    + destruct (IH true) as (H1 & H2 & H3). specialize (H2 eq_refl).
      destruct in_run.
      * repeat split; trivial.
      * split; [constructor; [reflexivity | exact H1]|].
        split; [discriminate|].
        intros [|x l1] a b l2 E Ha; cbn [app] in E; injection E as <- E.
        -- rewrite E in H2. exact H2.
        -- now apply (H3 l1 a b l2).
    + destruct (IH false) as (H1 & _ & H3).
      split; [constructor; [congruence | exact H1]|].
      split; [intros _; exact Ec|].
      intros [|x l1] a b l2 E Ha; cbn [app] in E; injection E as <- E.
      * congruence.
      * now apply (H3 l1 a b l2).
Qed.

Lemma collapse_spaces_keeps (Q : char -> Prop) :
  Q 32 ->
  forall (s : str) (in_run : bool),
    Forall Q s -> Forall Q (collapse_spaces in_run s).
Proof.
  intros Q32. induction s as [|c s IH]; intros in_run H; [constructor|].
  inversion H as [|? ? Hc Hs]; subst. cbn [collapse_spaces].
  destruct (isspace c); [destruct in_run|]; try constructor; auto.
Qed.

(** The characters that are not whitespace pass through the last step. *)
Lemma collapse_spaces_others :
  forall (s : str) (in_run : bool),
    filter (fun c => negb (isspace c)) (collapse_spaces in_run s)
    = filter (fun c => negb (isspace c)) s.
Proof.
  induction s as [|c s IH]; intros in_run; [reflexivity|].
  cbn [collapse_spaces filter]. destruct (isspace c) eqn:Ec; cbn [negb].
  - destruct in_run; [apply IH|]. cbn [filter]. rewrite isspace_space.
    cbn [negb]. apply IH.
  - cbn [filter]. rewrite Ec. cbn [negb]. f_equal. apply IH.
Qed.

(** X6. Whatever the text, [clean_text] returns a text whose only whitespace
    character is the plain space, never two in a row, and without any of the
    special spaces U+00A0 and U+2002 to U+200B. *)
Theorem clean_text_spacing (text : str) :
  Forall (fun c => isspace c = true -> c = 32) (clean_text text)
  /\ (forall l1 a b l2,
        clean_text text = l1 ++ a :: b :: l2 ->
        isspace a = true -> isspace b = false)
  /\ Forall (fun c => is_special_space c = false) (clean_text text).
Proof.
  unfold clean_text.
  destruct (collapse_spaces_shape
              (map (fun c => if is_special_space c then 32 else c)
                 (nfkc (strip_by isspace text))) false) as (H1 & _ & H3).
  split; [exact H1|]. split; [exact H3|].
  apply collapse_spaces_keeps; [reflexivity|].
  apply Forall_map. apply Forall_forall. intros c _.
  destruct (is_special_space c) eqn:E; [reflexivity | exact E].
Qed.

End CleanTextFacts.

(** ** What the mutator leaves alone *)

(** The formatting of a document: the styles of the runs, paragraph by
    paragraph, in the body and in the cells of the tables. *)
Definition paragraph_styles {Style : Type} (para : list (Run Style))
  : list Style :=
  map run_style para.

Definition document_styles {Style : Type} (doc : Document Style)
  : list (list Style) * list (list (list (list (list Style)))) :=
  (map paragraph_styles (paragraphs Style doc),
   map (map (map (map paragraph_styles))) (tables Style doc)).

(** Every paragraph the tool visits: the body, then the cells of the tables
    row by row. *)
Definition all_paragraphs {Style : Type} (doc : Document Style)
  : list (list (Run Style)) :=
  paragraphs Style doc
  ++ List.concat (List.concat (List.concat (tables Style doc))).

(** No key of [pats] occurs in the cleaned text of the paragraph. *)
Definition untouched {U : Unicode} {Style : Type} (pats : list pattern)
    (para : list (Run Style)) : Prop :=
  existsb (fun p => contains (pat_key p) (clean_text (paragraph_text para)))
    pats = false.

Section MutatorFacts.
Context {U : Unicode}.
Variable Style : Type.
Variable pats : list pattern.

Lemma process_paragraph_styles (para : Paragraph Style) :
  paragraph_styles (fst (process_paragraph para pats)) = paragraph_styles para.
Proof.
  unfold process_paragraph, paragraph_styles.
  destruct (existsb _ pats); [|reflexivity].
  destruct (apply_patterns _ pats _ []) as [t n].
  destruct para as [|first others]; [reflexivity|].
  cbn [fst map set_text run_style]. f_equal.
  rewrite map_map. apply map_ext. reflexivity.
Qed.

Lemma process_paragraphs_styles :
  forall (ps : list (Paragraph Style)) (n : counts),
    map paragraph_styles (fst (process_paragraphs Style ps pats n))
    = map paragraph_styles ps.
Proof.
  induction ps as [|p ps IH]; intros n; [reflexivity|].
  cbn [process_paragraphs].
  pose proof (process_paragraph_styles p) as Hp.
  destruct (process_paragraph p pats) as [p' c]. cbn [fst] in Hp.
  specialize (IH (counts_merge n c)).
  destruct (process_paragraphs Style ps pats (counts_merge n c)) as [ps' m].
  cbn [fst map] in *. now rewrite Hp, IH.
Qed.

Lemma process_cells_styles :
  forall (cs : list (Cell Style)) (n : counts),
    map (map paragraph_styles) (fst (process_cells Style cs pats n))
    = map (map paragraph_styles) cs.
Proof.
  induction cs as [|c cs IH]; intros n; [reflexivity|].
  cbn [process_cells].
  pose proof (process_paragraphs_styles c n) as Hc.
  destruct (process_paragraphs Style c pats n) as [c' m]. cbn [fst] in Hc.
  specialize (IH m). destruct (process_cells Style cs pats m) as [cs' m'].
  cbn [fst map] in *. now rewrite Hc, IH.
Qed.

Lemma process_rows_styles :
  forall (rs : list (TableRow Style)) (n : counts),
    map (map (map paragraph_styles)) (fst (process_rows Style rs pats n))
    = map (map (map paragraph_styles)) rs.
Proof.
  induction rs as [|r rs IH]; intros n; [reflexivity|].
  cbn [process_rows].
  pose proof (process_cells_styles r n) as Hr.
  destruct (process_cells Style r pats n) as [r' m]. cbn [fst] in Hr.
  specialize (IH m). destruct (process_rows Style rs pats m) as [rs' m'].
  cbn [fst map] in *. now rewrite Hr, IH.
Qed.

Lemma process_tables_styles :
  forall (ts : list (Table Style)) (n : counts),
    map (map (map (map paragraph_styles)))
      (fst (process_tables Style ts pats n))
    = map (map (map (map paragraph_styles))) ts.
Proof.
  induction ts as [|t ts IH]; intros n; [reflexivity|].
  cbn [process_tables].
  pose proof (process_rows_styles t n) as Ht.
  destruct (process_rows Style t pats n) as [t' m]. cbn [fst] in Ht.
  specialize (IH m). destruct (process_tables Style ts pats m) as [ts' m'].
  cbn [fst map] in *. now rewrite Ht, IH.
Qed.

(** X7. The two passes over a document keep its shape and formatting: as many
    paragraphs, tables, rows, cells and runs as before, in the same places,
    each run with the style it had.  Only the texts of runs change. *)
Theorem mutate_keeps_formatting (doc : Document Style) :
  document_styles (fst (mutate Style doc pats)) = document_styles doc.
Proof.
  unfold mutate, document_styles.
  pose proof (process_paragraphs_styles (paragraphs Style doc) []) as H1.
  destruct (process_paragraphs Style (paragraphs Style doc) pats [])
    as [ps n1]. cbn [fst] in H1.
  pose proof (process_tables_styles (tables Style doc) n1) as H2.
  destruct (process_tables Style (tables Style doc) pats n1) as [ts n].
  cbn [fst paragraphs tables] in *. now rewrite H1, H2.
Qed.

Lemma process_paragraph_untouched (para : Paragraph Style) :
  untouched pats para -> process_paragraph para pats = (para, []).
Proof. unfold untouched, process_paragraph. now intros ->. Qed.

Lemma process_paragraphs_untouched :
  forall (ps : list (Paragraph Style)) (n : counts),
    Forall (untouched pats) ps ->
    process_paragraphs Style ps pats n = (ps, n).
Proof.
  induction ps as [|p ps IH]; intros n H; [reflexivity|].
  inversion H as [|? ? Hp Hps]; subst. cbn [process_paragraphs].
  rewrite (process_paragraph_untouched p Hp).
  change (counts_merge n []) with n. now rewrite (IH n Hps).
Qed.

Lemma process_cells_untouched :
  forall (cs : list (Cell Style)) (n : counts),
    Forall (untouched pats) (List.concat cs) ->
    process_cells Style cs pats n = (cs, n).
Proof.
  induction cs as [|c cs IH]; intros n H; [reflexivity|].
  cbn [List.concat] in H. apply Forall_app in H as [Hc Hcs].
  cbn [process_cells].
  now rewrite (process_paragraphs_untouched c n Hc), (IH n Hcs).
Qed.

Lemma process_rows_untouched :
  forall (rs : list (TableRow Style)) (n : counts),
    Forall (untouched pats) (List.concat (List.concat rs)) ->
    process_rows Style rs pats n = (rs, n).
Proof.
  induction rs as [|r rs IH]; intros n H; [reflexivity|].
  cbn [List.concat] in H. rewrite concat_app in H.
  apply Forall_app in H as [Hr Hrs]. cbn [process_rows].
  now rewrite (process_cells_untouched r n Hr), (IH n Hrs).
Qed.

Lemma process_tables_untouched :
  forall (ts : list (Table Style)) (n : counts),
    Forall (untouched pats) (List.concat (List.concat (List.concat ts))) ->
    process_tables Style ts pats n = (ts, n).
Proof.
  induction ts as [|t ts IH]; intros n H; [reflexivity|].
  cbn [List.concat] in H. rewrite !concat_app in H.
  apply Forall_app in H as [Ht Hts]. cbn [process_tables].
  now rewrite (process_rows_untouched t n Ht), (IH n Hts).
Qed.

Lemma mutate_untouched (doc : Document Style) :
  Forall (untouched pats) (all_paragraphs doc) -> mutate Style doc pats = (doc, []).
Proof.
  unfold all_paragraphs, mutate. intros H. apply Forall_app in H as [H1 H2].
  rewrite (process_paragraphs_untouched _ [] H1).
  rewrite (process_tables_untouched _ [] H2). now destruct doc.
Qed.

End MutatorFacts.

Section UntouchedTemplate.
Context {U : Unicode}.
Variable Style : Type.
Variable open_document : bytes -> result (Document Style).
Variable save_document : Document Style -> bytes.
Variable exn_text : exn -> str.

(** X8. A template in which no search key occurs, in the body or in a table,
    comes back as the opened document saved again, with the log
    未找到需要替换的关键字. *)
Theorem template_without_keywords (scope : str) (word_file : UploadedFile)
    (row : Series) (rules : list rule) (doc : Document Style)
    (pats : list pattern) :
  open_document (getvalue word_file) = Ok doc ->
  precompute_replace_patterns scope rules row = Ok pats ->
  Forall (untouched pats) (all_paragraphs doc) ->
  replace_word_with_format Style open_document save_document exn_text scope
    word_file row rules
  = (save_document doc, log_not_found).
Proof.
  intros Hopen Hp Hun.
  unfold replace_word_with_format, replace_word_body.
  rewrite Hopen, Hp. cbn [bind].
  pose proof (mutate_untouched Style pats doc Hun) as Hm. unfold mutate in Hm.
  destruct (process_paragraphs Style _ pats []) as [ps n1].
  destruct (process_tables Style _ pats n1) as [ts n].
  injection Hm as -> ->. reflexivity.
Qed.

End UntouchedTemplate.

Lemma template_without_keywords_witness :
  @replace_word_with_format basic_unicode bool Demo.open_document
    Demo.save_document Demo.exn_text scope_full Demo.word_file
    [(py "姓名", py "张三")] [(py "【电话】", py "姓名")]
  = (py "姓名：【姓名】", log_not_found).
Proof.
  apply (@template_without_keywords basic_unicode bool Demo.open_document
           Demo.save_document Demo.exn_text scope_full Demo.word_file
           [(py "姓名", py "张三")] [(py "【电话】", py "姓名")] Demo.doc
           [(py "【电话】", py "姓名", py "【电话】", py "张三")]
           eq_refl eq_refl).
  repeat constructor.
Defined.

(** ** What the counters count *)

Lemma count_of_absent (k : rule) :
  forall d : counts, ~ In k (map fst d) -> count_of k d = 0.
Proof.
  induction d as [|[k' n] d IH]; intros H; [reflexivity|].
  cbn [count_of]. destruct (rule_eqb k' k) eqn:E.
  - apply rule_eqb_eq in E. subst k'. exfalso. apply H. now left.
  - apply IH. intros Hin. apply H. now right.
Qed.

Lemma count_add_keys (k : rule) (n : Z) :
  forall d : counts,
    map fst (count_add k n d)
    = if existsb (fun kc => rule_eqb (fst kc) k) d then map fst d
      else map fst d ++ [k].
Proof.
  induction d as [|[k' m] d IH]; [reflexivity|].
  cbn [count_add existsb fst]. destruct (rule_eqb k' k); [reflexivity|].
  cbn [map fst orb]. rewrite IH. now destruct (existsb _ d).
Qed.

Lemma count_add_distinct (k : rule) (n : Z) (d : counts) :
  NoDup (map fst d) -> NoDup (map fst (count_add k n d)).
Proof.
  intros H. rewrite count_add_keys.
  destruct (existsb (fun kc => rule_eqb (fst kc) k) d) eqn:E; [exact H|].
  apply NoDup_app; [exact H | repeat constructor; intros [] |].
  intros x Hx [Hx' | []]. subst x.
  apply in_map_iff in Hx as (kc & Hk & Hin).
  assert (Ht : existsb (fun kc => rule_eqb (fst kc) k) d = true).
  { apply existsb_exists. exists kc. split; [exact Hin|].
    now apply rule_eqb_eq. }
  congruence.
Qed.

Lemma counts_merge_count (k : rule) :
  forall (b a : counts),
    NoDup (map fst b) ->
    count_of k (counts_merge a b) = count_of k a + count_of k b.
Proof.
  unfold counts_merge.
  induction b as [|[k0 n0] b IH]; intros a H; cbn [fold_left count_of fst snd].
  - lia.
  - inversion H as [|? ? Hnin Hb]; subst. rewrite (IH _ Hb), count_of_add.
    cbn [map fst] in Hnin.
    destruct (rule_eqb k0 k) eqn:E; [|lia].
    apply rule_eqb_eq in E. subst k0.
    rewrite (count_of_absent k b Hnin). lia.
Qed.

Section CounterFacts.
Context {U : Unicode}.
Variable Style : Type.
Variable pats : list pattern.

Lemma apply_patterns_distinct (cleaned : str) :
  forall (ps : list pattern) (t : str) (n : counts),
    NoDup (map fst n) ->
    NoDup (map fst (snd (apply_patterns cleaned ps t n))).
Proof.
  induction ps as [|p ps IH]; intros t n H; [exact H|].
  cbn [apply_patterns]. destruct (contains (pat_key p) cleaned);
    apply IH; trivial. now apply count_add_distinct.
Qed.

Lemma process_paragraph_counts (para : Paragraph Style) :
  NoDup (map fst (snd (process_paragraph para pats)))
  /\ forall k,
       count_of k (snd (process_paragraph para pats))
       = hits (clean_text (paragraph_text para)) k pats.
Proof.
  unfold process_paragraph.
  destruct (existsb _ pats) eqn:E.
  - pose proof (apply_patterns_distinct (clean_text (paragraph_text para))
                  pats (paragraph_text para) [] (NoDup_nil _)) as Hd.
    pose proof (fun k => apply_patterns_count (clean_text (paragraph_text para))
                  k pats (paragraph_text para) []) as Hc.
    destruct (apply_patterns _ pats _ []) as [t n]. cbn [snd] in Hd, Hc.
    destruct para; cbn [snd]; (split; [exact Hd | intros k; now rewrite Hc]).
  - cbn [snd]. split; [constructor|]. intros k. cbn [count_of].
    unfold hits.
    replace (matching (clean_text (paragraph_text para)) pats) with
      (@nil pattern); [reflexivity|].
    destruct (matching _ pats) eqn:Em; [reflexivity|].
    assert (Hne : matching (clean_text (paragraph_text para)) pats <> [])
      by (rewrite Em; discriminate).
    apply has_keyword_matching in Hne. congruence.
Qed.

Lemma hits_single (cleaned : str) (p : pattern) :
  NoDup (map pat_rule pats) -> In p pats ->
  hits cleaned (pat_rule p) pats
  = if contains (pat_key p) cleaned then 1 else 0.
Proof.
  unfold hits, matching. revert p.
  induction pats as [|q ps IH]; intros p Hnd Hin; [contradiction|].
  cbn [map] in Hnd. inversion Hnd as [|? ? Hq Hps]; subst.
  assert (Hzero : forall l : list pattern,
            incl l ps ->
            filter (fun p0 => rule_eqb (pat_rule p0) (pat_rule q)) l = []).
  { induction l as [|x l IHl]; intros Hl; [reflexivity|].
    cbn [filter]. destruct (rule_eqb (pat_rule x) (pat_rule q)) eqn:E.
    - exfalso. apply rule_eqb_eq in E. apply Hq. rewrite <- E.
      apply in_map. apply Hl. now left.
    - apply IHl. intros y Hy. apply Hl. now right. }
  cbn [filter]. destruct Hin as [-> | Hin].
  - destruct (contains (pat_key p) cleaned); cbn [filter];
      rewrite ?rule_eqb_refl, Hzero; try reflexivity;
      intros y Hy; now apply filter_In in Hy as [Hy _].
  - assert (Hne : rule_eqb (pat_rule q) (pat_rule p) = false).
    { destruct (rule_eqb (pat_rule q) (pat_rule p)) eqn:E; [|reflexivity].
      exfalso. apply rule_eqb_eq in E. apply Hq. rewrite E.
      now apply in_map. }
    destruct (contains (pat_key q) cleaned); cbn [filter]; rewrite ?Hne;
      now apply IH.
Qed.

Lemma process_paragraphs_count (k : rule) :
  forall (ps : list (Paragraph Style)) (n : counts),
    count_of k (snd (process_paragraphs Style ps pats n))
    = count_of k n
      + fold_right
          (fun para acc => hits (clean_text (paragraph_text para)) k pats + acc)
          0 ps.
Proof.
  induction ps as [|p ps IH]; intros n; cbn [process_paragraphs fold_right].
  - cbn [snd]. lia.
  - destruct (process_paragraph_counts p) as [Hd Hc].
    destruct (process_paragraph p pats) as [p' c]. cbn [snd] in Hd, Hc.
    specialize (IH (counts_merge n c)).
    destruct (process_paragraphs Style ps pats (counts_merge n c)) as [ps' m].
    cbn [snd] in *. rewrite IH, counts_merge_count, Hc by exact Hd. lia.
Qed.

(** X9. The counter of a rule after the loop over the body paragraphs is the
    number of paragraphs whose cleaned text contains the key: one per
    paragraph, however often the key occurs in it. *)
Theorem counters_count_paragraphs (ps : list (Paragraph Style))
    (p : pattern) :
  NoDup (map pat_rule pats) -> In p pats ->
  count_of (pat_rule p) (snd (process_paragraphs Style ps pats []))
  = Z.of_nat
      (List.length
         (filter
            (fun para =>
               contains (pat_key p) (clean_text (paragraph_text para)))
            ps)).
Proof.
  intros Hnd Hin. rewrite process_paragraphs_count. cbn [count_of].
  induction ps as [|para ps IH]; [reflexivity|].
  cbn [fold_right filter]. rewrite (hits_single _ p Hnd Hin).
  destruct (contains (pat_key p) (clean_text (paragraph_text para)));
    cbn [List.length]; lia.
Qed.

End CounterFacts.

Lemma counters_count_paragraphs_witness :
  count_of (py "甲", py "列")
    (snd (@process_paragraphs basic_unicode unit
            [[mkRun (py "甲甲甲") tt]; [mkRun (py "乙") tt];
             [mkRun (py "甲") tt; mkRun (py "乙甲") tt]]
            [(py "甲", py "列", py "甲", py "丙")] []))
  = 2.
Proof.
  exact (@counters_count_paragraphs basic_unicode unit
           [(py "甲", py "列", py "甲", py "丙")]
           [[mkRun (py "甲甲甲") tt]; [mkRun (py "乙") tt];
            [mkRun (py "甲") tt; mkRun (py "乙甲") tt]]
           (py "甲", py "列", py "甲", py "丙")
           (NoDup_cons _ (fun H : In _ [] => H) (NoDup_nil _))
           (or_introl eq_refl)).
Defined.

(** ** When a new batch is asked for *)

Lemma params_eqb_eq (a b : replace_params_t) : params_eqb a b = true <-> a = b.
Proof.
  destruct a, b. unfold params_eqb. cbn.
  rewrite !andb_true_iff, !eqb_eq, !Z.eqb_eq. split.
  - intros ((((((((-> & ->) & ->) & ->) & ->) & ->) & ->) & ->) & ->).
    reflexivity.
  - intros [= -> -> -> -> -> -> -> -> ->]. repeat split.
Qed.

Lemma need_replace_false (st : session_state) (q : replace_params_t) :
  need_replace st q = false
  <-> replaced_files st <> [] /\ replace_params st = Some q.
Proof.
  unfold need_replace. rewrite orb_false_iff, negb_false_iff. split.
  - intros [Hl Hp]. split.
    + destruct (replaced_files st); [discriminate Hl | discriminate].
    + destruct (replace_params st) as [p|]; [|discriminate].
      apply params_eqb_eq in Hp. now subst p.
  - intros [Hl Hp]. split.
    + destruct (replaced_files st); [contradiction | reflexivity].
    + rewrite Hp. now apply params_eqb_eq.
Qed.

Section RerunFacts.
Context {U : Unicode}.
Variable Style : Type.
Variable open_document : bytes -> result (Document Style).
Variable save_document : Document Style -> bytes.
Variable exn_text : exn -> str.
Variable hash_rules : list rule -> Z.
Variable word_file : UploadedFile.
Variable excel_df : DataFrame.
Variables file_name_col file_prefix file_suffix : str.

Local Abbreviation run :=
  (run_replace Style open_document save_document exn_text hash_rules).
Local Abbreviation params st :=
  (get_replace_params hash_rules st (Some word_file) (Some excel_df)).

Lemma run_replace_state (st : session_state) (start_row end_row : Z) :
  is_replacing st = false ->
  1 <= start_row ->
  let st' :=
    run st word_file excel_df start_row end_row file_name_col file_prefix
      file_suffix in
  replace_rules st' = replace_rules st
  /\ replace_scope st' = replace_scope st
  /\ is_replacing st' = false
  /\ replace_params st'
     = Some (params st start_row end_row file_name_col file_prefix
               file_suffix).
Proof.
  intros Hr Hs st'. unfold st', run_replace. rewrite Hr.
  match goal with
  | |- context [row_loop _ _ _ _ ?s _ _ _ _ _ ?l] =>
      destruct (row_loop_in_range Style open_document save_document exn_text
                  word_file excel_df file_name_col file_prefix file_suffix
                  l s) as (s1 & Hl & _ & Hrules & Hscope & _)
  end.
  { eapply Forall_impl; [|apply zrange_bounds]. simpl. intros; lia. }
  rewrite Hl. cbn [replace_rules replace_scope is_replacing replace_params]
    in *. auto.
Qed.

(** X10. After a click on 开始替换 with a start row of 1 or more, the fingerprint
    of the same inputs asks for no new batch exactly when the batch has
    produced a file, and every other fingerprint asks for one: a change of
    the template name, the number of rows, the range, the name column, the
    prefix, the suffix, the number of rules or their hash. *)
Theorem rerun_after_batch (st : session_state) (start_row end_row : Z) :
  is_replacing st = false ->
  1 <= start_row ->
  let st' :=
    run st word_file excel_df start_row end_row file_name_col file_prefix
      file_suffix in
  let current :=
    params st' start_row end_row file_name_col file_prefix file_suffix in
  (need_replace st' current = false
   <-> start_row <= Z.min end_row (Z.of_nat (List.length excel_df)))
  /\ (forall q : replace_params_t, q <> current -> need_replace st' q = true).
Proof.
  intros Hr Hs st' current.
  destruct (run_replace_state st start_row end_row Hr Hs)
    as (Hrules & _ & _ & Hp).
  fold st' in Hrules, Hp.
  assert (Hcur : replace_params st' = Some current).
  { rewrite Hp. unfold current, get_replace_params. now rewrite Hrules. }
  destruct (run_replace_indices Style open_document save_document exn_text
              hash_rules word_file excel_df file_name_col file_prefix
              file_suffix st start_row end_row Hr Hs) as (_ & Hlen & _).
  fold st' in Hlen. split.
  - rewrite need_replace_false. split.
    + intros [Hne _]. destruct (replaced_files st'); [contradiction|].
      cbn [List.length] in Hlen. lia.
    + intros Hle. split; [|exact Hcur].
      destruct (replaced_files st'); [|discriminate].
      cbn [List.length] in Hlen. lia.
  - intros q Hq. destruct (need_replace st' q) eqn:E; [reflexivity|].
    apply need_replace_false in E as [_ E]. congruence.
Qed.

End RerunFacts.

Lemma rerun_after_batch_witness :
  need_replace (Demo.run 1 3)
    (@get_replace_params Demo.hash_rules (Demo.run 1 3)
       (Some Demo.word_file) (Some Demo.excel_df) 1 3 (py "姓名") [] [])
  = false
  /\ need_replace (Demo.run 1 3)
       (@get_replace_params Demo.hash_rules (Demo.run 1 3)
          (Some Demo.word_file) (Some Demo.excel_df) 1 2 (py "姓名") [] [])
     = true.
Proof.
  destruct (@rerun_after_batch basic_unicode bool Demo.open_document
              Demo.save_document Demo.exn_text Demo.hash_rules Demo.word_file
              Demo.excel_df (py "姓名") [] [] Demo.st 1 3 eq_refl
              (Z.le_refl 1)) as [H1 H2].
  split.
  - apply H1. vm_compute. discriminate.
  - apply H2. vm_compute. discriminate.
Defined.

(** ** The rule list *)

Lemma rule_in_In (r : rule) (rules : list rule) :
  rule_in r rules = true <-> In r rules.
Proof.
  unfold rule_in. rewrite existsb_exists. split.
  - intros (r' & Hin & E). apply rule_eqb_eq in E. now subst r'.
  - intros Hin. exists r. split; [exact Hin | apply rule_eqb_refl].
Qed.

(** X11. The 添加 button keeps the rules pairwise distinct: a new rule goes to the
    end of the list, behind the rules that were there, and a rule that is in
    the list already changes nothing, so that a second click adds nothing. *)
Theorem add_rule_distinct (st : page_state) (keyword_input column_select : str) :
  NoDup (replace_rules (session st)) ->
  let st' := add_rule st keyword_input column_select in
  NoDup (replace_rules (session st'))
  /\ In (keyword_input, column_select) (replace_rules (session st'))
  /\ (exists new, replace_rules (session st')
                  = replace_rules (session st) ++ new)
  /\ add_rule st' keyword_input column_select = st'.
Proof.
  intros Hnd st'. subst st'. unfold add_rule.
  destruct (rule_in (keyword_input, column_select)
              (replace_rules (session st))) eqn:E.
  - rewrite E. repeat split; trivial.
    + now apply rule_in_In.
    + exists []. now rewrite app_nil_r.
  - cbn [session replace_rules with_rules].
    assert (Hin : rule_in (keyword_input, column_select)
                    (replace_rules (session st)
                       ++ [(keyword_input, column_select)]) = true).
    { apply rule_in_In, in_or_app. right. now left. }
    rewrite Hin. repeat split.
    + apply NoDup_app; [exact Hnd | repeat constructor; intros [] |].
      intros x Hx [Hx' | []]. subst x. apply rule_in_In in Hx. congruence.
    + apply in_or_app. right. now left.
    + eauto.
Qed.

Lemma in_firstn_skipn {A : Type} (x : A) (j : nat) (l : list A) :
  In x (firstn j l) \/ In x (skipn j l) -> In x l.
Proof.
  intros H. rewrite <- (firstn_skipn j l). apply in_or_app. exact H.
Qed.

Lemma NoDup_remove_nth {A : Type} (l : list A) (j : nat) :
  NoDup l -> NoDup (firstn j l ++ skipn (S j) l).
Proof.
  revert j. induction l as [|x l IH]; intros j H.
  - now destruct j.
  - inversion H as [|? ? Hx Hl]; subst. destruct j as [|j].
    + exact Hl.
    + cbn [firstn skipn app]. constructor; [|now apply IH].
      intros Hin. apply Hx. apply in_app_or in Hin as [Hin | Hin].
      * apply (in_firstn_skipn x j l). now left.
      * apply (in_firstn_skipn x (S j) l). now right.
Qed.

(** X12. The 删除 button of the rule of index [idx], for an index inside the list:
    that rule leaves, the others stay in their order and stay distinct, and
    the files of the last batch are dropped.  An index outside the list
    raises IndexError. *)
Theorem delete_rule_spec (st : page_state) (idx : Z) :
  let rules := replace_rules (session st) in
  (0 <= idx < Z.of_nat (List.length rules) ->
   exists st',
     delete_rule st idx = Ok st'
     /\ replace_rules (session st')
        = firstn (Z.to_nat idx) rules ++ skipn (S (Z.to_nat idx)) rules
     /\ Z.of_nat (List.length (replace_rules (session st')))
        = Z.of_nat (List.length rules) - 1
     /\ (NoDup rules -> NoDup (replace_rules (session st')))
     /\ replaced_files (session st') = [])
  /\ (Z.of_nat (List.length rules) <= idx ->
      delete_rule st idx = Raise IndexError).
Proof.
  intros rules. unfold delete_rule, pop. fold rules. split.
  - intros Hi.
    replace (idx <? 0) with false by (symmetry; apply Z.ltb_ge; lia).
    replace (0 <=? idx) with true by (symmetry; apply Z.leb_le; lia).
    replace (idx <? Z.of_nat (List.length rules)) with true
      by (symmetry; apply Z.ltb_lt; lia).
    cbn [andb bind]. eexists. split; [reflexivity|].
    cbn [session replace_rules replaced_files without_files with_rules].
    split; [reflexivity|]. split; [|split; [apply NoDup_remove_nth | reflexivity]].
    rewrite length_app, length_firstn, length_skipn. lia.
  - intros Hi.
    replace (idx <? 0) with false by (symmetry; apply Z.ltb_ge; lia).
    replace (idx <? Z.of_nat (List.length rules)) with false
      by (symmetry; apply Z.ltb_ge; lia).
    now rewrite andb_false_r.
Qed.

Section RuleChanges.
Variable hash_rules : list rule -> Z.

(** X13. A change of the rule list asks for a new batch, whatever the hash of the
    rules: a deleted rule and the cleared list because the files are dropped,
    an added rule because the number of rules no longer is the one of the
    stored fingerprint. *)
Theorem rule_change_forces_rerun (st : page_state)
    (wf : option UploadedFile) (df : option DataFrame) (start_row end_row : Z)
    (file_name_col file_prefix file_suffix : str) :
  (forall p, replace_params (session st) = Some p ->
     rule_count p = Z.of_nat (List.length (replace_rules (session st)))) ->
  (forall keyword_input column_select,
     rule_in (keyword_input, column_select) (replace_rules (session st))
     = false ->
     let st' := session (add_rule st keyword_input column_select) in
     need_replace st'
       (get_replace_params hash_rules st' wf df start_row end_row
          file_name_col file_prefix file_suffix) = true)
  /\ (forall idx st' q, delete_rule st idx = Ok st' ->
        need_replace (session st') q = true)
  /\ (forall q, need_replace (session (clear_rules st)) q = true).
Proof.
  intros Hinv. split; [|split].
  - intros k c Hnew st'. subst st'. unfold add_rule. rewrite Hnew.
    cbn [session].
    match goal with |- need_replace ?s ?q = true =>
      destruct (need_replace s q) eqn:E; [reflexivity|] end.
    apply need_replace_false in E as [_ E].
    cbn [replace_params with_rules] in E. specialize (Hinv _ E).
    cbn [rule_count get_replace_params replace_rules with_rules] in Hinv.
    rewrite length_app in Hinv. cbn [List.length] in Hinv. lia.
  - intros idx st' q H. unfold delete_rule in H.
    destruct (pop _ idx); [|discriminate]. cbn [bind] in H.
    now injection H as <-.
  - reflexivity.
Qed.

End RuleChanges.

Lemma rule_change_forces_rerun_witness :
  need_replace
    (session (add_rule (mkPage (Demo.run 1 3) false) (py "【编号】") (py "编号")))
    (@get_replace_params Demo.hash_rules
       (session (add_rule (mkPage (Demo.run 1 3) false) (py "【编号】")
                   (py "编号")))
       (Some Demo.word_file) (Some Demo.excel_df) 1 3 (py "姓名") [] [])
  = true.
Proof.
  refine (proj1 (@rule_change_forces_rerun Demo.hash_rules
                   (mkPage (Demo.run 1 3) false) (Some Demo.word_file)
                   (Some Demo.excel_df) 1 3 (py "姓名") [] [] _)
            (py "【编号】") (py "编号") eq_refl).
  intros p Hp. vm_compute in Hp. injection Hp as <-. reflexivity.
Defined.

Lemma add_rule_distinct_witness :
  replace_rules
    (session (add_rule (add_rule (mkPage Demo.st false) (py "【编号】")
                          (py "编号")) (py "【编号】") (py "编号")))
  = [(py "【姓名】", py "姓名"); (py "【编号】", py "编号")]
  /\ NoDup
       (replace_rules
          (session (add_rule (mkPage Demo.st false) (py "【编号】")
                      (py "编号")))).
Proof.
  destruct (add_rule_distinct (mkPage Demo.st false) (py "【编号】") (py "编号"))
    as (Hnd & _ & _ & Hidem).
  { repeat constructor. intros []. }
  split; [rewrite Hidem; reflexivity | exact Hnd].
Defined.

(** ** The pages of the download area *)

Lemma slice_inside {A : Type} (l : list A) (a b : Z) :
  0 <= a <= b -> b <= Z.of_nat (List.length l) ->
  slice l a b = firstn (Z.to_nat (b - a)) (skipn (Z.to_nat a) l).
Proof.
  intros Ha Hb. unfold slice, slice_index.
  replace (a <? 0) with false by (symmetry; apply Z.ltb_ge; lia).
  replace (b <? 0) with false by (symmetry; apply Z.ltb_ge; lia).
  now rewrite !Z.min_l by lia.
Qed.

Lemma firstn_add {A : Type} (a b : nat) :
  forall l : list A, firstn (a + b) l = firstn a l ++ firstn b (skipn a l).
Proof.
  induction a as [|a IH]; intros l; [reflexivity|].
  destruct l as [|x l]; [now rewrite !firstn_nil|].
  cbn [Nat.add firstn skipn app]. f_equal. apply IH.
Qed.

Lemma zrange_snoc (a : Z) (k : nat) :
  zrange a (a + Z.of_nat (S k)) = zrange a (a + Z.of_nat k) ++ [a + Z.of_nat k].
Proof.
  unfold zrange.
  replace (Z.to_nat (a + Z.of_nat (S k) - a)) with (S k) by lia.
  replace (Z.to_nat (a + Z.of_nat k - a)) with k by lia.
  rewrite seq_S, map_app. reflexivity.
Qed.

Section Pages.
Variable A : Type.
Variable files : list A.

Local Abbreviation n := (Z.of_nat (List.length files)).

Lemma total_pages_bounds :
  PAGE_SIZE * (total_pages files - 1) < n + (if n =? 0 then 1 else 0)
  /\ n <= PAGE_SIZE * total_pages files.
Proof.
  unfold total_pages, PAGE_SIZE.
  pose proof (Z.div_mod (n + 10 - 1) 10 ltac:(lia)) as E.
  pose proof (Z.mod_pos_bound (n + 10 - 1) 10 ltac:(lia)) as Hr.
  destruct (Z.eqb_spec n 0); lia.
Qed.

Lemma current_files_inside (page : Z) :
  1 <= page <= total_pages files ->
  current_files files page
  = firstn (Z.to_nat PAGE_SIZE)
      (skipn (Z.to_nat (PAGE_SIZE * (page - 1))) files).
Proof.
  intros Hp. destruct total_pages_bounds as [H1 H2].
  unfold current_files. cbv zeta.
  assert (Hn : n <> 0).
  { intros E. unfold total_pages, PAGE_SIZE in Hp. rewrite E in Hp.
    change ((0 + 10 - 1) / 10) with 0 in Hp. lia. }
  replace (n =? 0) with false in H1 by (symmetry; now apply Z.eqb_neq).
  unfold PAGE_SIZE in *.
  rewrite slice_inside by lia.
  replace ((page - 1) * 10) with (10 * (page - 1)) by lia.
  set (start := 10 * (page - 1)) in *.
  destruct (Z.le_ge_cases (start + 10) n) as [Hle | Hge].
  - rewrite Z.min_l by lia. f_equal. lia.
  - rewrite Z.min_r by lia.
    rewrite !firstn_all2; trivial; rewrite length_skipn; lia.
Qed.

Lemma pages_prefix (k : nat) :
  Z.of_nat k <= total_pages files ->
  List.concat (map (current_files files) (zrange 1 (1 + Z.of_nat k)))
  = firstn (Z.to_nat (PAGE_SIZE * Z.of_nat k)) files.
Proof.
  induction k as [|k IH]; intros Hk.
  - reflexivity.
  - rewrite zrange_snoc, map_app, concat_app, IH by lia.
    cbn [map List.concat]. rewrite app_nil_r.
    rewrite current_files_inside by lia.
    replace (1 + Z.of_nat k - 1) with (Z.of_nat k) by lia.
    replace (Z.to_nat (PAGE_SIZE * Z.of_nat (S k)))
      with (Z.to_nat (PAGE_SIZE * Z.of_nat k) + Z.to_nat PAGE_SIZE)%nat
      by (unfold PAGE_SIZE; lia).
    now rewrite firstn_add.
Qed.

(** X14. The pages of the download area, for a list of files that is not empty:
    there is at least one page, every page from 1 to [total_pages] lists at
    least one file and at most [PAGE_SIZE], and the pages one after the other
    list every file once, in the order of the batch. *)
Theorem pages_partition :
  files <> [] ->
  1 <= total_pages files
  /\ (forall page, 1 <= page <= total_pages files ->
        1 <= Z.of_nat (List.length (current_files files page)) <= PAGE_SIZE)
  /\ List.concat
       (map (current_files files) (zrange 1 (total_pages files + 1)))
     = files.
Proof.
  intros Hne. destruct total_pages_bounds as [H1 H2].
  assert (Hn : 0 < n) by (destruct files; [contradiction | cbn; lia]).
  replace (n =? 0) with false in H1 by (symmetry; apply Z.eqb_neq; lia).
  unfold PAGE_SIZE in *.
  assert (Hp : 1 <= total_pages files) by lia.
  split; [exact Hp|]. split.
  - intros page Hpage. rewrite current_files_inside by exact Hpage.
    rewrite length_firstn, length_skipn. unfold PAGE_SIZE. lia.
  - replace (total_pages files + 1)
      with (1 + Z.of_nat (Z.to_nat (total_pages files))) by lia.
    rewrite pages_prefix by lia. apply firstn_all2. unfold PAGE_SIZE. lia.
Qed.

End Pages.

Lemma pages_partition_witness :
  total_pages (seq 0 23) = 3
  /\ current_files (seq 0 23) 3 = [20; 21; 22]%nat
  /\ List.concat (map (current_files (seq 0 23)) [1; 2; 3]) = seq 0 23.
Proof.
  destruct (pages_partition nat (seq 0 23)) as (_ & _ & H);
    [discriminate|].
  split; [reflexivity|]. split; [reflexivity | exact H].
Defined.

(** ** The repair of a total column *)

(** Two numbers with a short difference are near exactly when the
    difference is below the float [1e-9]. *)
Lemma near_compare (q d : Dec.t) :
  let e := Z.min (Dec.exp q) (Dec.exp d) in
  let v := fst (aligned q d) - snd (aligned q d) in
  v <> 0 -> ndigits (Z.abs v) <= 28 -> -1000000 <= e <= 0 ->
  near q d = Ok (Z.abs v * 2 ^ 82 <? 4835703278458517 * 10 ^ (- e)).
Proof.
  intros e v Hv Hn He. unfold near, Dec.sub. cbv zeta.
  unfold aligned in v. cbn [fst snd] in v. fold v. fold e.
  replace (v =? 0) with false by (symmetry; apply Z.eqb_neq; exact Hv).
  rewrite fix_context_fits;
    [|cbn [Dec.coef Dec.exp]; unfold Dec.Etiny, Dec.Etop, Dec.Emin,
        Dec.Emax, Dec.prec; lia ..].
  cbn [bind]. unfold Dec.abs. cbn [Dec.coef Dec.exp].
  rewrite fix_context_fits;
    [|cbn [Dec.coef Dec.exp]; unfold Dec.Etiny, Dec.Etop, Dec.Emin,
        Dec.Emax, Dec.prec; lia ..].
  cbn [bind]. f_equal. rewrite eps_value. unfold Dec.lt_float. cbv zeta.
  cbn [Dec.sign Dec.coef Dec.exp].
  replace (Z.max 0 (- e)) with (- e) by lia.
  replace (e + - e) with 0 by lia.
  change (Z.max 0 (- -82)) with 82. change (-82 + 82) with 0.
  now rewrite !Z.pow_0_r, !Z.mul_1_l, !Z.mul_1_r.
Qed.

Lemma div_half_up_near (n d t : Z) :
  0 < d -> 2 * Z.abs (n - t * d) < d -> div_half_up n d = t.
Proof.
  intros Hd H. unfold div_half_up.
  pose proof (Z.div_mod n d ltac:(lia)) as E.
  pose proof (Z.mod_pos_bound n d Hd) as Hr.
  set (q := n / d) in *. set (r := n mod d) in *.
  destruct (Z.ltb_spec (2 * r) d); nia.
Qed.

Section TotalRepair.
Context {U : Unicode}.
Variables (s : bool) (ipd fpd : list Z).
Variables (ip : Z) (fp : list Z).
Hypothesis Hipd : all_digits ipd.
Hypothesis Hfpd : all_digits fpd.
Hypothesis Hcanon : canonical ip fp.

Local Abbreviation x := (frac_text s ipd fpd).
Local Abbreviation V := (digits_value (ipd ++ fpd)).
Local Abbreviation K := (Z.of_nat (List.length fpd)).
Local Abbreviation T := (canon_coef ip fp).
Local Abbreviation k := (Z.of_nat (List.length fp)).
Local Abbreviation d := (Dec.mk s V (- K)).

Hypothesis Hk : k <= 6.
Hypothesis HkK : k <= K.
Hypothesis Hlen : Z.of_nat (List.length ipd) + K <= 27.
Hypothesis Hnear : Z.abs (V - T * 10 ^ (K - k)) * 10 ^ 9 <= 10 ^ K.

Lemma repair_facts :
  1 <= k /\ 0 < T /\ T mod 10 <> 0 /\ 0 < 10 ^ (K - k)
  /\ 10 ^ K = 10 ^ (K - k) * 10 ^ k
  /\ 1000 * Z.abs (V - T * 10 ^ (K - k)) <= 10 ^ (K - k)
  /\ 0 < V /\ ndigits V <= 27 /\ V < 10 ^ 27.
Proof.
  pose proof (canon_places_pos ip fp Hcanon) as Hk1.
  destruct (canon_coef_pos ip fp Hcanon) as [HT HT10].
  assert (HM : 0 < 10 ^ (K - k)) by (apply pow10_pos; lia).
  assert (HK : 10 ^ K = 10 ^ (K - k) * 10 ^ k).
  { rewrite <- Z.pow_add_r by lia. f_equal. lia. }
  assert (Hk6 : 10 ^ k <= 10 ^ 6) by (apply Z.pow_le_mono_r; lia).
  change (10 ^ 6) with 1000000 in Hk6. change (10 ^ 9) with 1000000000 in Hnear.
  assert (H1000 : 1000 * Z.abs (V - T * 10 ^ (K - k)) <= 10 ^ (K - k)).
  { rewrite HK in Hnear. nia. }
  assert (Hb : 0 <= V < 10 ^ Z.of_nat (List.length (ipd ++ fpd))).
  { apply digits_value_bound. now apply Forall_app. }
  rewrite length_app, Nat2Z.inj_add in Hb.
  assert (Hp : 10 ^ (Z.of_nat (List.length ipd) + K) <= 10 ^ 27)
    by (apply Z.pow_le_mono_r; lia).
  assert (HV : 0 < V) by nia.
  repeat split; trivial; try lia.
  apply ndigits_le; lia.
Qed.

Lemma repair_reject (dp : Z) (rest : list Z) :
  2 <= dp < k -> total_loop d (dp :: rest) = total_loop d rest.
Proof.
  intros Hdp.
  destruct repair_facts as (Hk1 & HT & HT10 & HM & HK & H1000 & HV & HnV & HV27).
  set (M := 10 ^ (K - k)) in *.
  set (W := 10 ^ (k - dp)).
  assert (HW : 0 < W) by (apply pow10_pos; lia).
  assert (HW10 : exists w, W = 10 * w).
  { exists (10 ^ (k - dp - 1)). unfold W.
    rewrite <- Z.pow_succ_r by lia. f_equal. lia. }
  assert (HD : 10 ^ (K - dp) = M * W).
  { unfold M, W. rewrite <- Z.pow_add_r by lia. f_equal. lia. }
  assert (HD27 : 10 ^ (K - dp) <= 10 ^ 27) by (apply Z.pow_le_mono_r; lia).
  assert (Hk6 : 10 ^ k <= 10 ^ 6) by (apply Z.pow_le_mono_r; lia).
  change (10 ^ 6) with 1000000 in Hk6.
  set (D := 10 ^ (K - dp)) in *.
  assert (HDpos : 0 < D) by nia.
  destruct (div_half_up_bounds V D ltac:(lia) HDpos) as (HA0 & HAd & HAq).
  set (A := div_half_up V D) in *.
  assert (HAle : A <= V).
  { assert (D >= 10) by (destruct HW10 as [w Hw]; nia).
    pose proof (Z.div_mod V D ltac:(lia)).
    pose proof (Z.mod_pos_bound V D HDpos).
    assert (0 <= V / D) by (apply Z.div_pos; lia). nia. }
  assert (Hr : Dec.rescale_half_up d (- dp) = Dec.mk s A (- dp)).
  { unfold Dec.rescale_half_up. cbn [Dec.coef Dec.exp Dec.sign].
    replace (- dp <=? - K) with false by (symmetry; apply Z.leb_gt; lia).
    replace (- dp - - K) with (K - dp) by lia. reflexivity. }
  assert (HnA : ndigits A <= 28).
  { pose proof (ndigits_mono A V ltac:(lia)). lia. }
  rewrite total_loop_cons.
  rewrite quantize_ok; rewrite ?Hr;
    unfold Dec.adjusted, Dec.Etiny, Dec.Emin, Dec.Emax, Dec.prec;
    cbn [Dec.coef Dec.exp]; try lia.
  cbn [bind].
  assert (Hfar : 1000 * Z.abs (A * D - V) >= 999 * M).
  { destruct HW10 as [w Hw].
    assert (Hne : A * W - T <> 0).
    { intros E. apply HT10. rewrite Hw in E.
      replace T with (A * w * 10) by lia. apply Z.mod_mul. lia. }
    replace (A * D - V) with ((A * W - T) * M - (V - T * M))
      by (rewrite HD; ring).
    assert (HM1 : 1 * M <= Z.abs (A * W - T) * M)
      by (apply Z.mul_le_mono_nonneg_r; lia).
    assert (Habs : Z.abs ((A * W - T) * M) = Z.abs (A * W - T) * M)
      by (rewrite Z.abs_mul; f_equal; lia).
    lia. }
  assert (HK6 : 10 ^ K <= 1000000 * M).
  { rewrite HK, (Z.mul_comm 1000000). apply Z.mul_le_mono_nonneg_l; lia. }
  rewrite near_compare;
    unfold aligned; cbn [fst snd Dec.sign Dec.coef Dec.exp];
    replace (Z.min (- dp) (- K)) with (- K) by lia;
    replace (- dp - - K) with (K - dp) by lia;
    replace (- K - - K) with 0 by lia; fold D;
    rewrite ?Z.pow_0_r, ?Z.mul_1_r, ?Z.opp_involutive; try lia.
  - replace (Z.abs ((if s then -1 else 1) * A * D - (if s then -1 else 1) * V))
      with (Z.abs (A * D - V)) by (destruct s; lia).
    replace (Z.abs (A * D - V) * 2 ^ 82 <? 4835703278458517 * 10 ^ K)
      with false; [reflexivity|].
    symmetry. apply Z.ltb_ge.
    change (2 ^ 82) with 4835703278458516698824704. lia.
  - destruct s; lia.
  - replace (Z.abs ((if s then -1 else 1) * A * D - (if s then -1 else 1) * V))
      with (Z.abs (A * D - V)) by (destruct s; lia).
    apply ndigits_le; [|lia]. change (10 ^ 27) with (10 ^ 27) in HD27.
    assert (10 ^ 27 < 10 ^ 28) by reflexivity. lia.
Qed.

Lemma repair_accept (dp : Z) (rest : list Z) :
  dp = Z.max k 2 ->
  total_loop d (dp :: rest) = Ok (Some (canon_text s ip fp)).
Proof.
  intros Hmax.
  assert (Hdp : k <= dp <= 6) by lia. assert (Hdp2 : 2 <= dp) by lia.
  destruct repair_facts as (Hk1 & HT & HT10 & HM & HK & H1000 & HV & HnV & HV27).
  set (M := 10 ^ (K - k)) in *.
  set (P := 10 ^ (dp - k)).
  assert (HP : 0 < P) by (apply pow10_pos; lia).
  assert (Hq : Dec.rescale_half_up d (- dp) = Dec.mk s (T * P) (- dp)
               /\ (K <= dp -> V = T * M)).
  { unfold Dec.rescale_half_up. cbn [Dec.coef Dec.exp Dec.sign].
    destruct (Z.leb_spec (- dp) (- K)) as [Hle | Hgt].
    - assert (HK6 : 10 ^ K <= 10 ^ 6) by (apply Z.pow_le_mono_r; lia).
      change (10 ^ 6) with 1000000 in HK6.
      change (10 ^ 9) with 1000000000 in Hnear. fold M in Hnear.
      assert (HVT : V = T * M) by lia.
      split; [|intros _; exact HVT]. f_equal. rewrite HVT. unfold M, P.
      rewrite <- Z.mul_assoc, <- Z.pow_add_r by lia. do 2 f_equal. lia.
    - split; [|lia]. f_equal.
      assert (HD : M = P * 10 ^ (K - dp)).
      { unfold M, P. rewrite <- Z.pow_add_r by lia. f_equal. lia. }
      replace (- dp - - K) with (K - dp) by lia.
      assert (HDpos : 0 < 10 ^ (K - dp)) by (apply pow10_pos; lia).
      assert (HKd : 10 ^ K = 10 ^ (K - dp) * 10 ^ dp).
      { rewrite <- Z.pow_add_r by lia. f_equal. lia. }
      assert (Hdp6 : 10 ^ dp <= 10 ^ 6) by (apply Z.pow_le_mono_r; lia).
      change (10 ^ 6) with 1000000 in Hdp6.
      assert (HKD : 10 ^ K <= 10 ^ (K - dp) * 1000000).
      { rewrite HKd. apply Z.mul_le_mono_nonneg_l; lia. }
      apply div_half_up_near; [exact HDpos|].
      replace (T * P * 10 ^ (K - dp)) with (T * M) by (rewrite HD; ring).
      change (10 ^ 9) with 1000000000 in Hnear. fold M in Hnear. lia. }
  destruct Hq as [Hq HVT].
  assert (HTP : ndigits (T * P) <= 28).
  { unfold P. rewrite ndigits_mul_pow10 by lia.
    destruct (Z.le_ge_cases dp K) as [HdK | HdK].
    - assert (T * M <= V + M) by lia.
      assert (ndigits (T * M) <= 28).
      { apply ndigits_le; [|lia]. split; [apply Z.mul_nonneg_nonneg; lia|].
        assert (HM27 : M <= 10 ^ 27) by (apply Z.pow_le_mono_r; lia).
        change (10 ^ 27) with 1000000000000000000000000000 in *.
        change (10 ^ 28) with 10000000000000000000000000000. lia. }
      unfold M in *. rewrite ndigits_mul_pow10 in * by lia. lia.
    - assert (HMT : V = T * M) by (apply HVT; lia).
      rewrite HMT in HnV. unfold M in HnV.
      rewrite ndigits_mul_pow10 in HnV by lia. lia. }
  rewrite total_loop_cons.
  rewrite quantize_ok; rewrite ?Hq;
    unfold Dec.adjusted, Dec.Etiny, Dec.Emin, Dec.Emax, Dec.prec;
    cbn [Dec.coef Dec.exp]; try lia.
  cbn [bind].
  assert (Hfmt : strip_zeros (Dec.format_f (Dec.mk s (T * P) (- dp)) dp)
                 = canon_text s ip fp)
    by (apply (format_canon_padded s ip fp Hcanon); lia).
  set (e := Z.min (- dp) (- K)).
  set (v := fst (aligned (Dec.mk s (T * P) (- dp)) d)
            - snd (aligned (Dec.mk s (T * P) (- dp)) d)).
  assert (Hv : Z.abs v * 10 ^ 9 <= 10 ^ (- e) /\ -27 <= e <= 0).
  { unfold v, aligned, e. cbn [fst snd Dec.sign Dec.coef Dec.exp].
    destruct (Z.le_ge_cases dp K) as [HdK | HdK].
    - replace (Z.min (- dp) (- K)) with (- K) by lia.
      replace (- K - - K) with 0 by lia.
      replace (- dp - - K) with (K - dp) by lia.
      rewrite Z.pow_0_r, Z.mul_1_r, Z.opp_involutive.
      split; [|lia].
      assert (HD : M = P * 10 ^ (K - dp)).
      { unfold M, P. rewrite <- Z.pow_add_r by lia. f_equal. lia. }
      replace ((if s then -1 else 1) * (T * P) * 10 ^ (K - dp)
               - (if s then -1 else 1) * V)
        with ((if s then -1 else 1) * (T * M - V)) by (rewrite HD; ring).
      replace (Z.abs ((if s then -1 else 1) * (T * M - V)))
        with (Z.abs (V - T * M)) by (destruct s; lia).
      exact Hnear.
    - replace (Z.min (- dp) (- K)) with (- dp) by lia.
      replace (- dp - - dp) with 0 by lia.
      replace (- K - - dp) with (dp - K) by lia.
      rewrite Z.pow_0_r, Z.mul_1_r, Z.opp_involutive.
      split; [|lia].
      rewrite (HVT ltac:(lia)).
      assert (HD : P = M * 10 ^ (dp - K)).
      { unfold M, P. rewrite <- Z.pow_add_r by lia. f_equal. lia. }
      replace ((if s then -1 else 1) * (T * P)
               - (if s then -1 else 1) * (T * M) * 10 ^ (dp - K))
        with 0 by (rewrite HD; ring).
      pose proof (pow10_pos dp ltac:(lia)). cbn. lia. }
  destruct Hv as [Hv He].
  destruct (Z.eq_dec v 0) as [Hz | Hnz].
  - rewrite near_exact by (unfold v in Hz; lia). cbn [bind]. now rewrite Hfmt.
  - assert (H27 : 10 ^ (- e) <= 10 ^ 27) by (apply Z.pow_le_mono_r; lia).
    change (10 ^ 9) with 1000000000 in Hv.
    change (10 ^ 27) with 1000000000000000000000000000 in H27.
    assert (Hnc : near (Dec.mk s (T * P) (- dp)) d = Ok true).
    { rewrite near_compare.
      - f_equal. apply Z.ltb_lt.
        change (Z.abs v * 2 ^ 82 < 4835703278458517 * 10 ^ (- e)).
        change (2 ^ 82) with 4835703278458516698824704.
        assert (0 < 10 ^ (- e)) by (apply pow10_pos; lia). lia.
      - exact Hnz.
      - change (ndigits (Z.abs v) <= 28). apply ndigits_le; [|lia].
        change (10 ^ 28) with 10000000000000000000000000000. lia.
      - change (-1000000 <= e <= 0). lia. }
    rewrite Hnc. cbn [bind]. now rewrite Hfmt.
Qed.

Lemma repair_loop :
  total_loop d (zrange 2 7) = Ok (Some (canon_text s ip fp)).
Proof.
  destruct repair_facts as (Hk1 & _).
  change (zrange 2 7) with [2; 3; 4; 5; 6].
  assert (Hcases : k = 1 \/ k = 2 \/ k = 3 \/ k = 4 \/ k = 5 \/ k = 6) by lia.
  destruct Hcases as [E | [E | [E | [E | [E | E]]]]];
    repeat (rewrite repair_reject by lia);
    apply repair_accept; lia.
Qed.

End TotalRepair.

Section FractionTexts.
Context {U : Unicode}.

(** The guards let every text of the form sign, digits, point, digits
    through to the [try]. *)
Lemma fix_float_precision_frac_text (s : bool) (ipd fpd : list Z)
    (column_name : option str) :
  all_digits ipd -> all_digits fpd -> fpd <> [] ->
  fix_float_precision (frac_text s ipd fpd) column_name
  = match fix_body (frac_text s ipd fpd) column_name with
    | Ok r => r
    | Raise _ => fix_fallback (frac_text s ipd fpd)
    end.
Proof.
  intros Hi Hf Hne. unfold fix_float_precision.
  rewrite truthy_frac_text. cbn [negb].
  rewrite strip_frac_text, truthy_frac_text by assumption. cbn [negb].
  rewrite isdigit_frac_text, match_frac_text by assumption.
  reflexivity.
Qed.

(** X15. In a total column, a text of at most 27 digits, with a point, whose value
    is within [10^-9] of a decimal of one to six places is returned as that
    decimal, written without trailing zeros: the artifact of a float that
    has gone through a sum is repaired, and trailing zeros are dropped. *)
Theorem total_column_repair (s : bool) (ipd fpd : list Z) (ip : Z)
    (fp : list Z) (column_name : option str) :
  all_digits ipd -> all_digits fpd -> canonical ip fp ->
  Z.of_nat (List.length fp) <= 6 ->
  Z.of_nat (List.length fp) <= Z.of_nat (List.length fpd) ->
  Z.of_nat (List.length ipd) + Z.of_nat (List.length fpd) <= 27 ->
  Z.abs (digits_value (ipd ++ fpd)
         - canon_coef ip fp
           * 10 ^ (Z.of_nat (List.length fpd) - Z.of_nat (List.length fp)))
  * 10 ^ 9 <= 10 ^ Z.of_nat (List.length fpd) ->
  is_total_column column_name = true ->
  fix_float_precision (frac_text s ipd fpd) column_name = canon_text s ip fp.
Proof.
  intros Hi Hf Hcanon Hk HkK Hlen Hnear Hcol.
  pose proof (canon_places_pos ip fp Hcanon) as Hk1.
  assert (Hne : fpd <> []) by (intros ->; cbn in HkK; lia).
  rewrite fix_float_precision_frac_text by assumption.
  unfold fix_body, Decimal. rewrite parse_frac_text by assumption.
  cbn [bind Dec.exp].
  replace (- Z.of_nat (List.length fpd) >=? 0) with false
    by (symmetry; rewrite Z.geb_leb; apply Z.leb_gt; lia).
  rewrite Hcol.
  now rewrite (repair_loop s ipd fpd ip fp Hi Hf Hcanon Hk HkK Hlen Hnear).
Qed.

End FractionTexts.

(** The example of the docstring, in a column named 合计. *)
Lemma total_column_repair_witness :
  @fix_float_precision basic_unicode (py "0.48729999999999996")
    (Some (py "合计"))
  = py "0.4873".
Proof.
  change (py "0.48729999999999996")
    with (frac_text false [0] [4; 8; 7; 2; 9; 9; 9; 9; 9; 9; 9; 9; 9; 9; 9; 9; 6]).
  change (py "0.4873") with (canon_text false 0 [4; 8; 7; 3]).
  apply (@total_column_repair basic_unicode).
  - repeat constructor; lia.
  - repeat constructor; lia.
  - constructor; [lia | repeat constructor; lia | discriminate | reflexivity].
  - cbn. lia.
  - cbn. lia.
  - cbn. lia.
  - vm_compute. discriminate.
  - reflexivity.
Defined.

(** ** Texts that pass unchanged *)

Section Unchanged.
Context {U : Unicode}.


End Unchanged.


(** ** The form of the results *)

(** A numeral as the normalizer prints it: an integer, or a fraction without
    trailing zeros; with a minus sign or none, and without leading zeros
    other than the one before the point. *)
Definition plain_numeral (y : str) : Prop :=
  (exists (s : bool) (n : Z), 0 <= n /\ y = int_text s (digits n))
  \/ (exists (s : bool) (ip : Z) (fp : list Z),
        canonical ip fp /\ y = canon_text s ip fp).

Definition infinity_text (y : str) : Prop :=
  exists s : bool, y = minus s ++ py "inf".

Lemma printed_numeral (s : bool) (c p : Z) :
  0 <= c -> 1 <= p -> plain_numeral (strip_zeros (fixed_point s c p)).
Proof.
  intros Hc Hp.
  destruct (strip_fixed_point s c p Hc Hp)
    as (Hip & [(_ & ->) | (fp & j & Hcan & _ & _ & _ & ->)]).
  - left. eauto.
  - right. eauto.
Qed.

Lemma decimal_text_numeral (a q : Dec.t) (p : Z) :
  0 <= Dec.coef a -> 1 <= p -> Dec.quantize a p = Ok q ->
  plain_numeral (strip_zeros (Dec.format_f q p)).
Proof.
  intros Ha Hp Hq. destruct (quantize_inv a q p Ha Hq) as (E & H0 & _).
  rewrite E in H0 |- *. cbn [Dec.coef] in H0. rewrite format_exact.
  now apply printed_numeral.
Qed.

Lemma float_text_numeral (a : Dec.t) (p : Z) :
  0 <= Dec.coef a -> 1 <= p ->
  plain_numeral (strip_zeros (Flt.format_f (Dec.to_float a) p))
  \/ infinity_text (strip_zeros (Flt.format_f (Dec.to_float a) p)).
Proof.
  intros Ha Hp. unfold Dec.to_float.
  pose proof (pow_pos_pos 10 (Dec.exp a) ltac:(lia)) as H1.
  pose proof (pow_pos_pos 10 (- Dec.exp a) ltac:(lia)) as H2.
  destruct (of_ratio_shape (Dec.sign a)
              (Dec.coef a * pow_pos 10 (Dec.exp a))
              (pow_pos 10 (- Dec.exp a)) ltac:(nia) H2)
    as [E | (m & e & E & Hm)]; rewrite E; unfold Flt.format_f.
  - right. exists (Dec.sign a). now destruct (Dec.sign a).
  - left. apply printed_numeral; [|exact Hp].
    pose proof (pow_pos_pos 2 e ltac:(lia)).
    pose proof (pow_pos_pos 2 (- e) ltac:(lia)).
    pose proof (pow10_pos p ltac:(lia)).
    apply div_half_even_bounds; [|assumption].
    apply Z.mul_nonneg_nonneg; [apply Z.mul_nonneg_nonneg|]; lia.
Qed.

Section ResultForms.
Context {U : Unicode}.

Lemma strip_inf_text (s : bool) :
  strip_by isspace (minus s ++ py "inf") = minus s ++ py "inf".
Proof.
  assert (Hl : forall c, c = 105 \/ c = 102 \/ c = 45 -> isspace c = false).
  { intros c Hc. rewrite isspace_ascii by (red; lia).
    destruct Hc as [-> | [-> | ->]]; reflexivity. }
  destruct s.
  - exact (strip_by_id isspace 45 102 [105; 110]
             (Hl 45 ltac:(lia)) (Hl 102 ltac:(lia))).
  - exact (strip_by_id isspace 105 102 [110]
             (Hl 105 ltac:(lia)) (Hl 102 ltac:(lia))).
Qed.

Lemma body_forms (x : str) (column_name : option str) (ip : list Z)
    (fp : option (str * list Z)) (t : str) :
  literal_shape x ip fp ->
  fix_body x column_name = Ok t ->
  t = x \/ plain_numeral t \/ infinity_text t.
Proof.
  intros Hshape. pose proof (shape_coef x ip fp Hshape) as Hc.
  unfold fix_body, Decimal. rewrite (parse_shape _ _ _ Hshape).
  cbn [bind Dec.exp].
  destruct fp as [[fchars fvals]|].
  - assert (Hk : 1 <= Z.of_nat (List.length fvals)).
    { destruct Hshape as (_ & _ & Hne). destruct fvals; [contradiction|].
      cbn [List.length]. lia. }
    replace (- Z.of_nat (List.length fvals) >=? 0) with false
      by (symmetry; rewrite Z.geb_leb; apply Z.leb_gt; lia).
    destruct (by_original_places_shape _ _ _ _ Hshape)
      as (n & j & v & _ & _ & _ & Hby).
    set (dv := Dec.mk _ (digits_value (ip ++ fvals)) _) in *.
    assert (Htail :
              (if has_artifact (Flt.repr (Dec.to_float dv))
               then r1 <- by_original_places x dv ;;
                    match r1 with
                    | Some s => Ok s
                    | None =>
                        r2 <- float_loop (Dec.to_float dv) (zrange 1 10) ;;
                        match r2 with
                        | Some s => Ok s
                        | None => Ok x
                        end
                    end
               else Ok x) = Ok t ->
              t = x \/ plain_numeral t \/ infinity_text t).
    { destruct (has_artifact _); [|intros [= <-]; now left].
      rewrite Hby. destruct (Z.gtb_spec (Z.of_nat n) 0) as [Hn | Hn].
      - destruct (Dec.quantize dv (Z.of_nat n)) as [q|] eqn:Hq;
          cbn [bind]; [|discriminate].
        intros [= <-]. right. left.
        apply (decimal_text_numeral dv q); trivial. lia.
      - cbn [bind].
        destruct (float_loop (Dec.to_float dv) (zrange 1 10)) as [[r|]|e]
          eqn:Hfl; cbn [bind]; [| |discriminate].
        + intros [= <-]. right.
          destruct (float_loop_inv _ _ _ Hfl) as (dp & Hin & ->).
          apply float_text_numeral; trivial.
          change (zrange 1 10) with [1; 2; 3; 4; 5; 6; 7; 8; 9] in Hin.
          cbn [In] in Hin. lia.
        + intros [= <-]. now left. }
    destruct (is_total_column column_name); [|exact Htail].
    destruct (total_loop dv (zrange 2 7)) as [[r|]|e] eqn:Hloop;
      cbn [bind]; [| exact Htail | discriminate].
    intros [= <-]. right. left.
    destruct (total_loop_inv _ _ _ Hloop) as (dp & q & Hin & Hq & ->).
    apply (decimal_text_numeral dv q); trivial.
    change (zrange 2 7) with [2; 3; 4; 5; 6] in Hin. cbn [In] in Hin. lia.
  - cbn [List.length Z.of_nat Z.opp]. change (0 >=? 0) with true. cbv iota.
    unfold str_int. destruct (ndigits _ >? _); [discriminate|].
    intros [= <-]. right. left. left. unfold str_of_int.
    exists (Dec.to_int
              (Dec.mk match x with 45 :: _ => true | _ => false end
                 (digits_value (ip ++ [])) 0) <? 0), (Z.abs
      (Dec.to_int
         (Dec.mk match x with 45 :: _ => true | _ => false end
            (digits_value (ip ++ [])) 0))).
    split; [lia | reflexivity].
Qed.

Lemma normalizer_cases (x : str) (column_name : option str) :
  let y := fix_float_precision x column_name in
  y = strip_by isspace x \/ plain_numeral y \/ infinity_text y.
Proof.
  intros y. subst y. rewrite fix_float_precision_unfold.
  destruct (guards x) eqn:Hg; [|now left].
  assert (Hm : float_pattern_match (strip_by isspace x) = true).
  { unfold guards in Hg. now apply andb_prop in Hg as [_ Hg]. }
  destruct (pattern_shape x Hm) as (ip & fp & Hshape).
  destruct (fix_body (strip_by isspace x) column_name) as [t|e] eqn:Hb.
  - exact (body_forms _ _ _ _ _ Hshape Hb).
  - right. unfold fix_fallback, float_of_str.
    rewrite (parse_shape _ _ _ Hshape). cbn [bind].
    apply float_text_numeral; [exact (shape_coef _ _ _ Hshape) | lia].
Qed.

(** X17. Whatever the text and the column name, the normalizer returns the text
    stripped, or a plain numeral (an integer, or a fraction without trailing
    zeros; a minus sign or none; no exponent), or the text of an infinity,
    which the handler prints for a value beyond the floats. *)
Theorem normalizer_result_forms (x : str) (column_name : option str) :
  fix_float_precision x column_name = strip_by isspace x
  \/ plain_numeral (fix_float_precision x column_name)
  \/ infinity_text (fix_float_precision x column_name).
Proof. exact (normalizer_cases x column_name). Qed.

(** X18. The result of the normalizer never has whitespace at its ends. *)
Theorem normalizer_result_stripped (x : str) (column_name : option str) :
  strip_by isspace (fix_float_precision x column_name)
  = fix_float_precision x column_name.
Proof.
  destruct (normalizer_cases x column_name) as [E | [[H | H] | H]].
  - rewrite E. apply strip_by_idem.
  - destruct H as (s & n & Hn & ->).
    apply strip_int_text; [now apply digits_range | apply digits_nonempty].
  - destruct H as (s & ip & fp & [Hi Hd Hne Hl] & ->).
    apply strip_frac_text; trivial. now apply digits_range.
  - destruct H as (s & ->). apply strip_inf_text.
Qed.

End ResultForms.

(** ** Totals that are whole numbers *)

Section TotalInteger.
Context {U : Unicode}.
Variables (s : bool) (ipd fpd : list Z) (n : Z).
Hypothesis Hipd : all_digits ipd.
Hypothesis Hfpd : all_digits fpd.
Hypothesis Hne : fpd <> [].
Hypothesis Hn : 0 <= n.

Local Abbreviation V := (digits_value (ipd ++ fpd)).
Local Abbreviation K := (Z.of_nat (List.length fpd)).
Local Abbreviation d := (Dec.mk s V (- K)).

Hypothesis Hlen : Z.of_nat (List.length ipd) + K <= 26.
Hypothesis Hnear : Z.abs (V - n * 10 ^ K) * 10 ^ 9 <= 10 ^ K.

Lemma integer_facts :
  1 <= K /\ 0 < 10 ^ K /\ 0 <= V /\ V < 10 ^ 26 /\ ndigits V <= 26
  /\ n * 100 < 10 ^ 28 /\ 10 ^ K <= 10 ^ 26.
Proof.
  assert (HK1 : 1 <= K) by (destruct fpd; [contradiction | cbn; lia]).
  assert (HKp : 0 < 10 ^ K) by (apply pow10_pos; lia).
  assert (Hb : 0 <= V < 10 ^ Z.of_nat (List.length (ipd ++ fpd))).
  { apply digits_value_bound. now apply Forall_app. }
  rewrite length_app, Nat2Z.inj_add in Hb.
  assert (Hp : 10 ^ (Z.of_nat (List.length ipd) + K) <= 10 ^ 26)
    by (apply Z.pow_le_mono_r; lia).
  assert (HK26 : 10 ^ K <= 10 ^ 26) by (apply Z.pow_le_mono_r; lia).
  change (10 ^ 9) with 1000000000 in Hnear.
  assert (HnK : n * 10 ^ K <= V + 10 ^ K) by lia.
  assert (HK10 : 10 ^ 1 <= 10 ^ K) by (apply Z.pow_le_mono_r; lia).
  change (10 ^ 1) with 10 in HK10.
  assert (Hn10 : n * 10 <= n * 10 ^ K)
    by (apply Z.mul_le_mono_nonneg_l; lia).
  change (10 ^ 26) with 100000000000000000000000000 in *.
  change (10 ^ 28) with 10000000000000000000000000000.
  split; [exact HK1|]. split; [exact HKp|]. split; [lia|]. split; [lia|].
  split; [|split; lia].
  apply ndigits_le; [|lia].
  change (10 ^ 26) with 100000000000000000000000000. lia.
Qed.

Lemma integer_printed :
  strip_zeros (fixed_point s (n * 100) 2) = int_text s (digits n).
Proof.
  destruct (strip_fixed_point s (n * 100) 2 ltac:(lia) ltac:(lia))
    as (_ & [(_ & E) | (fp & j & _ & _ & _ & Hnz & _)]).
  - rewrite E. change (10 ^ 2) with 100. now rewrite Z.div_mul by lia.
  - exfalso. apply Hnz. change (10 ^ 2) with 100. apply Z.mod_mul. lia.
Qed.

Lemma integer_loop (rest : list Z) :
  total_loop d (2 :: rest) = Ok (Some (int_text s (digits n))).
Proof.
  destruct integer_facts as (HK1 & HKp & HV0 & HV26 & HnV & Hn28 & HK26).
  change (10 ^ 9) with 1000000000 in Hnear.
  rewrite total_loop_cons.
  assert (Hq : Dec.quantize d 2 = Ok (Dec.mk s (n * 100) (- 2))).
  { destruct (Z.eq_dec V 0) as [Hz | Hz].
    - assert (n = 0) by nia. subst n.
      unfold Dec.quantize. cbn [Dec.coef Dec.sign]. rewrite Hz. reflexivity.
    - assert (Hr : Dec.rescale_half_up d (- 2) = Dec.mk s (n * 100) (- 2)).
      { unfold Dec.rescale_half_up. cbn [Dec.coef Dec.exp Dec.sign].
        destruct (Z.leb_spec (- 2) (- K)) as [Hle | Hgt].
        - assert (HK : K = 1 \/ K = 2) by lia.
          f_equal. destruct HK as [E | E]; rewrite E in *.
          + change (10 ^ 1) with 10 in *. change (10 ^ (-1 - -2)) with 10. lia.
          + change (10 ^ 2) with 100 in *. change (10 ^ (-2 - -2)) with 1. lia.
        - f_equal. replace (- 2 - - K) with (K - 2) by lia.
          assert (HD : 10 ^ K = 10 ^ (K - 2) * 100).
          { change 100 with (10 ^ 2). rewrite <- Z.pow_add_r by lia.
            f_equal. lia. }
          assert (HDp : 0 < 10 ^ (K - 2)) by (apply pow10_pos; lia).
          apply div_half_up_near; [exact HDp|].
          replace (n * 100 * 10 ^ (K - 2)) with (n * 10 ^ K)
            by (rewrite HD; ring).
          lia. }
      assert (Hd28 : ndigits (n * 100) <= 28).
      { apply ndigits_le; lia. }
      rewrite quantize_ok; change (- (2)) with (-2); rewrite ?Hr;
        unfold Dec.adjusted, Dec.Etiny, Dec.Emin, Dec.Emax, Dec.prec;
        cbn [Dec.coef Dec.exp]; try lia. reflexivity. }
  rewrite Hq. cbn [bind].
  pose proof (format_exact s (n * 100) 2) as Hfe.
  change (- (2)) with (-2) in Hfe. rewrite Hfe, integer_printed.
  set (e := Z.min (- 2) (- K)).
  set (v := fst (aligned (Dec.mk s (n * 100) (- 2)) d)
            - snd (aligned (Dec.mk s (n * 100) (- 2)) d)).
  assert (Hv : Z.abs v * 1000000000 <= 10 ^ (- e) /\ -26 <= e <= 0).
  { unfold v, aligned, e. cbn [fst snd Dec.sign Dec.coef Dec.exp].
    destruct (Z_le_gt_dec 2 K) as [HdK | HdK].
    - replace (Z.min (- 2) (- K)) with (- K) by lia.
      replace (- K - - K) with 0 by lia.
      replace (- 2 - - K) with (K - 2) by lia.
      rewrite Z.pow_0_r, Z.mul_1_r, Z.opp_involutive. split; [|lia].
      assert (HD : 10 ^ K = 100 * 10 ^ (K - 2)).
      { change 100 with (10 ^ 2). rewrite <- Z.pow_add_r by lia.
        f_equal. lia. }
      replace ((if s then -1 else 1) * (n * 100) * 10 ^ (K - 2)
               - (if s then -1 else 1) * V)
        with ((if s then -1 else 1) * (n * 10 ^ K - V))
        by (rewrite HD; ring).
      replace (Z.abs ((if s then -1 else 1) * (n * 10 ^ K - V)))
        with (Z.abs (V - n * 10 ^ K)) by (destruct s; lia).
      exact Hnear.
    - assert (E : K = 1) by lia. rewrite E in *.
      change (10 ^ 1) with 10 in *. cbn. split; [|lia].
      destruct s; lia. }
  destruct Hv as [Hv He].
  destruct (Z.eq_dec v 0) as [Hz | Hnz].
  - now rewrite near_exact by (unfold v in Hz; lia).
  - assert (H26 : 10 ^ (- e) <= 10 ^ 26) by (apply Z.pow_le_mono_r; lia).
    change (10 ^ 26) with 100000000000000000000000000 in H26.
    assert (Hnc : near (Dec.mk s (n * 100) (- 2)) d = Ok true).
    { rewrite near_compare.
      - f_equal. apply Z.ltb_lt.
        change (Z.abs v * 2 ^ 82 < 4835703278458517 * 10 ^ (- e)).
        change (2 ^ 82) with 4835703278458516698824704.
        assert (0 < 10 ^ (- e)) by (apply pow10_pos; lia). lia.
      - exact Hnz.
      - change (ndigits (Z.abs v) <= 28). apply ndigits_le; [|lia].
        change (10 ^ 28) with 10000000000000000000000000000. lia.
      - change (-1000000 <= e <= 0). lia. }
    now rewrite Hnc.
Qed.

End TotalInteger.

Section TotalIntegerText.
Context {U : Unicode}.

(** X19. In a total column, a text of at most 26 digits, with a point, whose value
    is within [10^-9] of a whole number is returned as that number without
    a point: 12.00 as 12 and 0.0000000001 as 0.  The sign stays, also that of
    a zero, which is how the text -0 arises. *)
Theorem total_column_integer (s : bool) (ipd fpd : list Z) (n : Z)
    (column_name : option str) :
  all_digits ipd -> all_digits fpd -> fpd <> [] -> 0 <= n ->
  Z.of_nat (List.length ipd) + Z.of_nat (List.length fpd) <= 26 ->
  Z.abs (digits_value (ipd ++ fpd) - n * 10 ^ Z.of_nat (List.length fpd))
  * 10 ^ 9 <= 10 ^ Z.of_nat (List.length fpd) ->
  is_total_column column_name = true ->
  fix_float_precision (frac_text s ipd fpd) column_name
  = int_text s (digits n).
Proof.
  intros Hi Hf Hne Hn Hlen Hnear Hcol.
  assert (Hk : 1 <= Z.of_nat (List.length fpd))
    by (destruct fpd; [contradiction | cbn; lia]).
  rewrite fix_float_precision_frac_text by assumption.
  unfold fix_body, Decimal. rewrite parse_frac_text by assumption.
  cbn [bind Dec.exp].
  replace (- Z.of_nat (List.length fpd) >=? 0) with false
    by (symmetry; rewrite Z.geb_leb; apply Z.leb_gt; lia).
  rewrite Hcol. change (zrange 2 7) with (2 :: [3; 4; 5; 6]).
  now rewrite (integer_loop s ipd fpd n Hi Hf Hne Hn Hlen Hnear).
Qed.

End TotalIntegerText.

Lemma total_column_integer_witness :
  @fix_float_precision basic_unicode (py "-0.0000000001") (Some (py "合计"))
  = py "-0".
Proof.
  change (py "-0.0000000001")
    with (frac_text true [0] [0; 0; 0; 0; 0; 0; 0; 0; 0; 1]).
  change (py "-0") with (int_text true (digits 0)).
  apply (@total_column_integer basic_unicode).
  - repeat constructor; lia.
  - repeat constructor; lia.
  - discriminate.
  - lia.
  - cbn. lia.
  - vm_compute. discriminate.
  - reflexivity.
Defined.

(** ** Failures and their logs *)

Section FailureFacts.
Context {U : Unicode}.
Variable Style : Type.
Variable open_document : bytes -> result (Document Style).
Variable save_document : Document Style -> bytes.
Variable exn_text : exn -> str.

Lemma precompute_first_missing (scope : str) (row : Series) (old col : str)
    (post : list rule) :
  series_find col row = None ->
  forall pre : list rule,
    all_columns row pre ->
    precompute_replace_patterns scope (pre ++ (old, col) :: post) row
    = Raise (KeyError col).
Proof.
  intros Hnone. induction pre as [|[o c] pre IH]; intros Hall.
  - cbn [app precompute_replace_patterns]. unfold compile_rule, series_get.
    now rewrite Hnone.
  - cbn [app precompute_replace_patterns].
    destruct (proj2 (precompute_ok_iff scope row [(o, c)])) as [ps Hps].
    { intros o' c' [E | []]. injection E as <- <-. apply (Hall o c). now left. }
    cbn [precompute_replace_patterns] in Hps.
    destruct (compile_rule scope row (o, c)) as [p|]; [|discriminate Hps].
    cbn [bind]. rewrite IH; [reflexivity|].
    intros o' c' Hin. apply (Hall o' c'). now right.
Qed.

(** X20. When the row lacks the column of a rule, and has the columns of the
    rules before it, the file is empty and the log reports the KeyError of
    that column: the first missing column in the order of the rules. *)
Theorem missing_column_reported (scope : str) (word_file : UploadedFile)
    (row : Series) (pre post : list rule) (old col : str)
    (doc : Document Style) :
  open_document (getvalue word_file) = Ok doc ->
  all_columns row pre ->
  series_find col row = None ->
  replace_word_with_format Style open_document save_document exn_text scope
    word_file row (pre ++ (old, col) :: post)
  = ([], log_failed ++ exn_text (KeyError col)).
Proof.
  intros Hopen Hall Hnone. unfold replace_word_with_format, replace_word_body.
  rewrite Hopen. cbn [bind].
  now rewrite (precompute_first_missing scope row old col post Hnone pre Hall).
Qed.

End FailureFacts.

Lemma missing_column_reported_witness :
  @replace_word_with_format basic_unicode bool Demo.open_document
    Demo.save_document Demo.exn_text scope_full Demo.word_file
    [(py "姓名", py "张三")]
    ([(py "【姓名】", py "姓名")]
       ++ (py "【编号】", py "编号") :: [(py "【电话】", py "电话")])
  = ([], log_failed ++ py "编号").
Proof.
  apply (@missing_column_reported basic_unicode bool Demo.open_document
           Demo.save_document Demo.exn_text scope_full Demo.word_file
           [(py "姓名", py "张三")] [(py "【姓名】", py "姓名")]
           [(py "【电话】", py "电话")] (py "【编号】") (py "编号") Demo.doc).
  - reflexivity.
  - intros o c [E | []]. injection E as <- <-. discriminate.
  - reflexivity.
Defined.

Section BatchLogs.
Context {U : Unicode}.
Variable Style : Type.
Variable open_document : bytes -> result (Document Style).
Variable save_document : Document Style -> bytes.
Variable exn_text : exn -> str.
Variable hash_rules : list rule -> Z.
Variable word_file : UploadedFile.
Variable excel_df : DataFrame.
Variables file_name_col file_prefix file_suffix : str.

Local Abbreviation run :=
  (run_replace Style open_document save_document exn_text hash_rules).
Local Abbreviation file_of st :=
  (artifact Style open_document save_document exn_text st word_file
     file_name_col file_prefix file_suffix).

(** The line of the page log for a file. *)
Definition log_entry (f : ReplacedFile) : str :=
  py "第" ++ str_of_int (row_idx f + 1) ++ py "行：" ++ log f.

Lemma row_loop_logs :
  forall (idxs : list Z) (st : session_state),
    Forall (fun i => 0 <= i < Z.of_nat (List.length excel_df)) idxs ->
    replace_log
      (fst (row_loop Style open_document save_document exn_text st word_file
              excel_df file_name_col file_prefix file_suffix idxs))
    = replace_log st
      ++ map (fun i => log_entry (file_of st i (row_at excel_df i))) idxs.
Proof.
  induction idxs as [|i idxs IH]; intros st Hall.
  - cbn [row_loop fst map]. now rewrite app_nil_r.
  - inversion Hall as [|? ? Hi Hall']; subst.
    cbn [row_loop]. unfold process_row.
    rewrite (iloc_in_range excel_df i Hi). cbn [bind].
    destruct (replace_word_with_format Style open_document save_document
                exn_text (replace_scope st) word_file (row_at excel_df i)
                (replace_rules st)) as [payload lg] eqn:Er.
    rewrite make_filename_concat. cbn [bind].
    match goal with
    | |- context [row_loop _ _ _ _ ?s _ _ _ _ _ idxs] =>
        rewrite (IH s Hall')
    end.
    cbn [replace_log]. rewrite <- app_assoc. cbn [app map]. do 2 f_equal.
    unfold log_entry, artifact. cbn [row_idx log]. now rewrite Er.
Qed.

(** X21. The page log of a batch has one line per file, in the order of the
    files: the one-based number of the row, then the log of the file. *)
Theorem batch_log_lines (st : session_state) (start_row end_row : Z) :
  is_replacing st = false ->
  1 <= start_row ->
  let st' :=
    run st word_file excel_df start_row end_row file_name_col file_prefix
      file_suffix in
  replace_log st' = map log_entry (replaced_files st').
Proof.
  intros Hr Hs st'.
  assert (Hb : Forall (fun i => 0 <= i < Z.of_nat (List.length excel_df))
                 (zrange (start_row - 1)
                    (Z.min end_row (Z.of_nat (List.length excel_df))))).
  { eapply Forall_impl; [|apply zrange_bounds]. simpl. intros; lia. }
  unfold st'.
  rewrite (run_replace_files Style open_document save_document exn_text
             hash_rules word_file excel_df file_name_col file_prefix
             file_suffix st _ _ Hr Hs), map_map.
  unfold run_replace. rewrite Hr.
  match goal with
  | |- context [row_loop _ _ _ _ ?s _ _ _ _ _ ?l] =>
      pose proof (row_loop_logs l s Hb) as Hl;
      destruct (row_loop Style open_document save_document exn_text s
                  word_file excel_df file_name_col file_prefix file_suffix l)
        as [s1 raised]
  end.
  cbn [fst replace_log app] in Hl |- *. exact Hl.
Qed.

(** X22. A template that python-docx cannot open does not stop the batch: every
    row still gets a file, each one empty and with the same failure log. *)
Theorem unreadable_template_batch (st : session_state)
    (start_row end_row : Z) (e : exn) :
  open_document (getvalue word_file) = Raise e ->
  is_replacing st = false ->
  1 <= start_row ->
  let files :=
    replaced_files
      (run st word_file excel_df start_row end_row file_name_col file_prefix
         file_suffix) in
  Z.of_nat (List.length files)
  = Z.max 0 (Z.min end_row (Z.of_nat (List.length excel_df)) - start_row + 1)
  /\ Forall (fun f => data f = [] /\ log f = log_failed ++ exn_text e) files.
Proof.
  intros Hopen Hr Hs files.
  destruct (run_replace_indices Style open_document save_document exn_text
              hash_rules word_file excel_df file_name_col file_prefix
              file_suffix st start_row end_row Hr Hs) as (_ & Hlen & _).
  split; [exact Hlen|]. unfold files.
  rewrite (run_replace_files Style open_document save_document exn_text
             hash_rules word_file excel_df file_name_col file_prefix
             file_suffix st _ _ Hr Hs).
  apply Forall_map. apply Forall_forall. intros i _.
  unfold artifact. cbn [data log].
  unfold replace_word_with_format, replace_word_body. rewrite Hopen.
  cbn [bind fst snd]. split; reflexivity.
Qed.

End BatchLogs.

Lemma batch_log_lines_witness :
  replace_log (Demo.run 1 3) = map log_entry (replaced_files (Demo.run 1 3))
  /\ nth_error (replace_log (Demo.run 1 3)) 1
     = Some (py "第2行：替换失败: 姓名").
Proof.
  split; [|vm_compute; reflexivity].
  exact (@batch_log_lines basic_unicode bool Demo.open_document
           Demo.save_document Demo.exn_text Demo.hash_rules Demo.word_file
           Demo.excel_df (py "姓名") [] [] Demo.st 1 3 eq_refl (Z.le_refl 1)).
Defined.

Lemma unreadable_template_batch_witness :
  map (fun f => (filename f, data f, log f))
    (replaced_files
       (@run_replace basic_unicode bool Demo.open_document Demo.save_document
          Demo.exn_text Demo.hash_rules Demo.st (mkUploaded (py "坏.docx") [])
          Demo.excel_df 1 2 [] [] []))
  = [(py "替换结果_1.docx", [], log_failed);
     (py "替换结果_2.docx", [], log_failed)]
  /\ Forall (fun f => data f = [] /\ log f = log_failed ++ [])
       (replaced_files
          (@run_replace basic_unicode bool Demo.open_document
             Demo.save_document Demo.exn_text Demo.hash_rules Demo.st
             (mkUploaded (py "坏.docx") []) Demo.excel_df 1 2 [] [] [])).
Proof.
  split; [vm_compute; reflexivity|].
  exact (proj2
           (@unreadable_template_batch basic_unicode bool Demo.open_document
              Demo.save_document Demo.exn_text Demo.hash_rules
              (mkUploaded (py "坏.docx") []) Demo.excel_df [] [] [] Demo.st
              1 2 PackageError eq_refl eq_refl (Z.le_refl 1))).
Defined.

(** ** A keyword that cleans to nothing *)

Section EmptyKey.
Context {U : Unicode}.
Variable Style : Type.

Lemma contains_empty (t : str) : contains [] t = true.
Proof. now destruct t. Qed.

(** X23. A pattern whose search key is empty, as a keyword of blanks gives it, is
    found in every paragraph: each paragraph is rewritten into its first run
    and the counter of the rule goes up, whatever the text.  Alone, the
    pattern puts its replacement before every character and at the end. *)
Theorem empty_key_matches_everything (para : list (Run Style))
    (ps : list pattern) (p : pattern) :
  In p ps -> pat_key p = [] ->
  let raw := paragraph_text para in
  let cleaned := clean_text raw in
  fst (process_paragraph para ps)
  = commit para (substitute (matching cleaned ps) raw)
  /\ 1 <= count_of (pat_rule p) (snd (process_paragraph para ps))
  /\ fst (process_paragraph para [p])
     = commit para
         (flat_map (fun c => pat_repl p ++ [c]) raw ++ pat_repl p).
Proof.
  intros Hin Hkey raw cleaned.
  assert (Hex : forall qs, In p qs ->
            existsb (fun q => contains (pat_key q) cleaned) qs = true).
  { intros qs Hq. apply existsb_exists. exists p. split; [exact Hq|].
    rewrite Hkey. apply contains_empty. }
  split; [|split].
  - unfold cleaned, raw in *. now rewrite (process_paragraph_matched _ _ _ (Hex ps Hin)).
  - unfold cleaned, raw in *.
    rewrite (process_paragraph_matched _ _ _ (Hex ps Hin)). cbn [snd].
    rewrite apply_patterns_count. cbn [count_of]. unfold hits.
    assert (Hf : In p (filter (fun q => rule_eqb (pat_rule q) (pat_rule p))
                         (matching (clean_text (paragraph_text para)) ps))).
    { apply filter_In. split; [|apply rule_eqb_refl].
      apply filter_In. split; [exact Hin|].
      rewrite Hkey. apply contains_empty. }
    destruct (filter _ _); [contradiction | cbn [List.length]; lia].
  - unfold cleaned, raw in *.
    rewrite (process_paragraph_matched _ _ _ (Hex [p] (or_introl eq_refl))).
    cbn [fst]. unfold matching. cbn [filter]. rewrite Hkey, contains_empty.
    cbn [substitute fold_left]. rewrite Hkey. reflexivity.
Qed.

End EmptyKey.

Lemma empty_key_matches_everything_witness :
  @compile_rule basic_unicode scope_full [(py "列", py "X")] (py "  ", py "列")
  = Ok (py "  ", py "列", [], py "X")
  /\ fst (@process_paragraph basic_unicode bool
            [mkRun (py "甲") false; mkRun (py "乙") true]
            [(py "  ", py "列", [], py "X")])
     = [mkRun (py "X甲X乙X") false; mkRun [] true].
Proof.
  split; [reflexivity|].
  exact (proj2 (proj2
           (@empty_key_matches_everything basic_unicode bool
              [mkRun (py "甲") false; mkRun (py "乙") true]
              [(py "  ", py "列", [], py "X")]
              (py "  ", py "列", [], py "X")
              (or_introl eq_refl) eq_refl))).
Defined.

(** ** The initial session *)

Lemma dict_get_app (key : str) (a b : session_dict) :
  dict_get key (a ++ b)
  = match dict_get key a with
    | Some v => Some v
    | None => dict_get key b
    end.
Proof.
  induction a as [|[k v] a IH]; [reflexivity|].
  cbn [app dict_get]. now destruct (eqb k key).
Qed.

Lemma init_states_keeps (key : str) (v : pyvalue) :
  forall (defaults st : session_dict),
    dict_get key st = Some v ->
    dict_get key (init_states defaults st) = Some v.
Proof.
  unfold init_states.
  induction defaults as [|[k d] defaults IH]; intros st H; [exact H|].
  cbn [fold_left fst]. apply IH.
  destruct (dict_has k st); [exact H|]. now rewrite dict_get_app, H.
Qed.

Lemma init_states_has (key : str) :
  forall (defaults st : session_dict),
    dict_has key st = true \/ In key (map fst defaults) ->
    dict_has key (init_states defaults st) = true.
Proof.
  unfold init_states.
  induction defaults as [|[k d] defaults IH]; intros st H.
  - destruct H as [H | []]. exact H.
  - cbn [fold_left fst]. apply IH. cbn [map fst In] in H.
    destruct H as [H | [E | H]]; [left | left | now right].
    + destruct (dict_has k st); [exact H|]. unfold dict_has in *.
      rewrite dict_get_app.
      destruct (dict_get key st); [reflexivity | discriminate H].
    + subst k. destruct (dict_has key st) eqn:Ek; [exact Ek|].
      unfold dict_has in *. rewrite dict_get_app.
      destruct (dict_get key st); [discriminate Ek|].
      cbn [dict_get]. now rewrite eqb_refl.
Qed.

Lemma init_states_default (key : str) (d : pyvalue) :
  forall (defaults st : session_dict),
    dict_get key st = None ->
    dict_get key defaults = Some d ->
    dict_get key (init_states defaults st) = Some d.
Proof.
  unfold init_states.
  induction defaults as [|[k d0] defaults IH]; intros st Hst Hd;
    [discriminate Hd|].
  cbn [fold_left fst]. cbn [dict_get] in Hd.
  destruct (eqb k key) eqn:Ek.
  - injection Hd as ->. apply eqb_eq in Ek. subst k.
    unfold dict_has. rewrite Hst.
    apply (init_states_keeps key d defaults).
    rewrite dict_get_app, Hst. cbn [dict_get]. now rewrite eqb_refl.
  - apply IH; [|exact Hd].
    destruct (dict_has k st); [exact Hst|].
    rewrite dict_get_app, Hst. cbn [dict_get]. now rewrite Ek.
Qed.

Lemma init_states_id :
  forall (defaults st : session_dict),
    (forall key, In key (map fst defaults) -> dict_has key st = true) ->
    init_states defaults st = st.
Proof.
  unfold init_states.
  induction defaults as [|[k d] defaults IH]; intros st H; [reflexivity|].
  cbn [fold_left fst]. rewrite (H k (or_introl eq_refl)).
  apply IH. intros key Hin. apply H. now right.
Qed.

(** X24. [init_session_state], which every run of the page script calls, never
    changes the value of a key that the session has: it gives each of the
    seven keys that is missing its default, so that afterwards all seven are
    there, and a second call changes nothing. *)
Theorem init_session_state_keeps (st : session_dict) :
  (forall key v, dict_get key st = Some v ->
     dict_get key (init_session_state st) = Some v)
  /\ (forall key d, dict_get key st = None ->
        dict_get key required_states = Some d ->
        dict_get key (init_session_state st) = Some d)
  /\ (forall key, In key (map fst required_states) ->
        dict_has key (init_session_state st) = true)
  /\ init_session_state (init_session_state st) = init_session_state st.
Proof.
  unfold init_session_state. split; [|split; [|split]].
  - intros key v. apply init_states_keeps.
  - intros key d. apply init_states_default.
  - intros key Hin. apply init_states_has. now right.
  - apply init_states_id. intros key Hin. apply init_states_has. now right.
Qed.
